(** * VoxNotes: a shallow embedding of the note store, the folder access
      control, the recording pipeline and the per-card audio arbitration.

    Sources embedded here:
    - [App] (the application component, second document of
      [src/components/Snowfall.tsx]),
    - [PinModal] ([src/unnamed/part_000]),
    - [NoteCard] ([src/components/NoteCard.tsx]),
    - [AudioVisualizer] ([src/components/AudioVisualizer.tsx]),
    - [types.ts].

    Conventions.
    - A JS string is a [string]: a sequence of 8-bit code units.
    - A JS number that the program only ever fills with integers
      ([Date.now()], [Math.floor] results) is a [Z].
    - An optional property [p?: T] is an [option T]; JS truthiness is
      written out ([truthyS], [truthyB]).
    - React state is a record; an event handler is a function from the
      record to the record.  Results of external calls (microphone,
      IndexedDB, network) are arguments of the handler that receives
      them.
    - An [async] handler is cut at its [await]s: the part that runs at
      the event, and the part that goes on once the awaited call has
      settled, against the state of that moment. *)

From Stdlib Require Import ZArith QArith List String Ascii Bool Lia Permutation.
From stdpp Require Import base gmap strings.
Import ListNotations.
Local Open Scope string_scope.
Local Open Scope Z_scope.

(* ===================================================================== *)
(** ** JavaScript string primitives used by the program *)
(* ===================================================================== *)

Module Js.

(** [!!s] for a string: the empty string is the only falsy one. *)
Definition truthyS (s : string) : bool := negb (String.eqb s "").

(** [!!o] for an optional string ([undefined] is falsy). *)
Definition truthyOS (o : option string) : bool :=
  match o with Some s => truthyS s | None => false end.

(** [!!o] for an optional boolean. *)
Definition truthyB (o : option bool) : bool :=
  match o with Some b => b | None => false end.

(** White space in the sense of [String.prototype.trim], restricted to
    code units below 256: TAB, LF, VT, FF, CR, SPACE and NBSP. *)
Definition isWhiteSpace (c : ascii) : bool :=
  let n := nat_of_ascii c in
  ((9 <=? n)%nat && (n <=? 13)%nat) || (n =? 32)%nat || (n =? 160)%nat.

Fixpoint trimStart (s : string) : string :=
  match s with
  | EmptyString => EmptyString
  | String c s' => if isWhiteSpace c then trimStart s' else s
  end.

Fixpoint trimEnd (s : string) : string :=
  match s with
  | EmptyString => EmptyString
  | String c s' =>
      let r := trimEnd s' in
      if isWhiteSpace c && String.eqb r "" then EmptyString else String c r
  end.

(** [s.trim()] *)
Definition trim (s : string) : string := trimEnd (trimStart s).

(** [c.toLowerCase()] on one code unit: A-Z and the Latin-1 capitals
    (0xC0-0xDE without the multiplication sign 0xD7) move up by 32. *)
Definition lowerChar (c : ascii) : ascii :=
  let n := nat_of_ascii c in
  if ((65 <=? n)%nat && (n <=? 90)%nat)
     || ((192 <=? n)%nat && (n <=? 222)%nat && negb (n =? 215)%nat)
  then ascii_of_nat (n + 32) else c.

(** [s.toLowerCase()] *)
Fixpoint toLowerCase (s : string) : string :=
  match s with
  | EmptyString => EmptyString
  | String c s' => String (lowerChar c) (toLowerCase s')
  end.

(** [s.includes(q)]: [q] occurs in [s] as a contiguous substring. *)
Fixpoint includes (s q : string) : bool :=
  String.prefix q s
  || match s with
     | EmptyString => false
     | String _ s' => includes s' q
     end.

(** [c] is one of 0-9, the complement of the class [\D]. *)
Definition isDigit (c : ascii) : bool :=
  let n := nat_of_ascii c in (48 <=? n)%nat && (n <=? 57)%nat.

(** [s.replace(/\D/g, '')] *)
Fixpoint stripNonDigits (s : string) : string :=
  match s with
  | EmptyString => EmptyString
  | String c s' =>
      if isDigit c then String c (stripNonDigits s') else stripNonDigits s'
  end.

(** Every code unit of [s] satisfies [p]. *)
Fixpoint allChars (p : ascii -> bool) (s : string) : bool :=
  match s with
  | EmptyString => true
  | String c s' => p c && allChars p s'
  end.

(** [arr.includes(x)] for an array of strings. *)
Definition arrIncludes (l : list string) (x : string) : bool :=
  existsb (String.eqb x) l.

(** [arr.find(p)] *)
Definition arrFind {A} (p : A -> bool) (l : list A) : option A := List.find p l.

(** [arr.sort(cmp)]: the sort is stable, and [a] stays in front of [b]
    unless [cmp a b > 0].  For a comparator that is a consistent weak
    order every stable sort returns the same array; insertion from the
    right is the one written here. *)
Section Sort.
Context {A : Type} (cmp : A -> A -> Z).

Fixpoint insertSorted (x : A) (l : list A) : list A :=
  match l with
  | [] => [x]
  | y :: l' => if cmp x y <=? 0 then x :: l else y :: insertSorted x l'
  end.

Fixpoint sort (l : list A) : list A :=
  match l with
  | [] => []
  | x :: l' => insertSorted x (sort l')
  end.
End Sort.

End Js.

(* ===================================================================== *)
(** ** types.ts *)
(* ===================================================================== *)

Record Folder := mkFolder {
  f_id : string;
  f_name : string;
  f_timestamp : Z;
  f_pin : option string
}.

Record Note := mkNote {
  n_id : string;
  n_title : string;
  n_transcription : string;
  n_summary : option string;
  n_actionItems : option (list string);
  n_tags : list string;
  n_audioUrl : string;
  n_timestamp : Z;
  n_duration : Z;
  n_isPinned : option bool;
  n_isFavorite : option bool;
  n_folderId : option string;
  n_translatedTranscription : option string;
  n_translatedLanguage : option string
}.

Inductive RecordingStatus := IDLE | RECORDING | TRANSCRIBING.

Inductive SortOption := newest | oldest | longest | shortest | alphabetical.

(** [type ActiveView = 'all' | 'uncategorized' | 'favorites' | string] *)
Definition ActiveView := string.

(* ===================================================================== *)
(** ** Folder access control and the visible list (App) *)
(* ===================================================================== *)

Section Visible.

(** [String.prototype.localeCompare] is the host's collation; the
    program fixes neither locale nor options. *)
Variable localeCompare : string -> string -> Z.

(** [folders.filter(f => f.pin && !unlockedFolderIds.includes(f.id)).map(f => f.id)] *)
Definition lockedFolderIds (folders : list Folder) (unlockedFolderIds : list string)
  : list string :=
  map f_id
    (List.filter
       (fun f => Js.truthyOS (f_pin f) && negb (Js.arrIncludes unlockedFolderIds (f_id f)))
       folders).

(** [isFolderLocked(folderId?)] *)
Definition isFolderLocked (folders : list Folder) (unlockedFolderIds : list string)
    (folderId : option string) : bool :=
  if negb (Js.truthyOS folderId) then false
  else
    match folderId with
    | None => false
    | Some fid =>
        match Js.arrFind (fun f => String.eqb (f_id f) fid) folders with
        | Some folder =>
            Js.truthyOS (f_pin folder) && negb (Js.arrIncludes unlockedFolderIds fid)
        | None => false
        end
    end.

(** [!n.folderId || !lockedFolderIds.includes(n.folderId)] *)
Definition folderOpen (locked : list string) (n : Note) : bool :=
  negb (Js.truthyOS (n_folderId n))
  || match n_folderId n with
     | Some fid => negb (Js.arrIncludes locked fid)
     | None => true
     end.

(** [n.folderId === activeView] *)
Definition inFolder (activeView : ActiveView) (n : Note) : bool :=
  match n_folderId n with
  | Some fid => String.eqb fid activeView
  | None => false
  end.

(** The view filter; [None] is the early [return []] taken for a locked
    folder view. *)
Definition viewFilter (activeView : ActiveView) (locked : list string)
    (result : list Note) : option (list Note) :=
  if String.eqb activeView "all" then
    Some (List.filter (folderOpen locked) result)
  else if String.eqb activeView "uncategorized" then
    Some (List.filter (fun n => negb (Js.truthyOS (n_folderId n))) result)
  else if String.eqb activeView "favorites" then
    Some (List.filter (fun n => Js.truthyB (n_isFavorite n) && folderOpen locked n) result)
  else if Js.arrIncludes locked activeView then None
  else Some (List.filter (inFolder activeView) result).

(** [n.title.toLowerCase().includes(q) || n.transcription.toLowerCase().includes(q)] *)
Definition matchesQuery (q : string) (n : Note) : bool :=
  Js.includes (Js.toLowerCase (n_title n)) q
  || Js.includes (Js.toLowerCase (n_transcription n)) q.

(** The [if (searchQuery.trim())] block. *)
Definition searchFilter (searchQuery : string) (result : list Note) : list Note :=
  if Js.truthyS (Js.trim searchQuery)
  then List.filter (matchesQuery (Js.toLowerCase searchQuery)) result
  else result.

(** The comparator handed to [result.sort]. *)
Definition compareNotes (sortBy : SortOption) (a b : Note) : Z :=
  if Js.truthyB (n_isPinned a) && negb (Js.truthyB (n_isPinned b)) then -1
  else if negb (Js.truthyB (n_isPinned a)) && Js.truthyB (n_isPinned b) then 1
  else
    match sortBy with
    | oldest => n_timestamp a - n_timestamp b
    | longest => n_duration b - n_duration a
    | shortest => n_duration a - n_duration b
    | alphabetical => localeCompare (n_title a) (n_title b)
    | newest => n_timestamp b - n_timestamp a
    end.

(** [filteredAndSortedNotes], as a function of its dependency list
    [notes, activeView, searchQuery, sortBy, folders, unlockedFolderIds]. *)
Definition filteredAndSortedNotes (notes : list Note) (activeView : ActiveView)
    (searchQuery : string) (sortBy : SortOption) (folders : list Folder)
    (unlockedFolderIds : list string) : list Note :=
  let locked := lockedFolderIds folders unlockedFolderIds in
  match viewFilter activeView locked notes with
  | None => []
  | Some result => Js.sort (compareNotes sortBy) (searchFilter searchQuery result)
  end.

End Visible.

(* ===================================================================== *)
(** ** Application state (App) *)
(* ===================================================================== *)

Inductive PinMode := modeSet | modeEnter.

(** [{ mode, folderId, error? }] *)
Record PinModalState := mkPinModal {
  pm_mode : PinMode;
  pm_folderId : string;
  pm_error : option string
}.

(** A [Blob]: its bytes and its [type]. *)
Record Blob := mkBlob {
  blob_data : list Byte.byte;
  blob_type : string
}.

(** A [MediaStream], by identity. *)
Definition MediaStream := nat.

(** A [MediaRecorder] together with what its [onstop] closure captured
    when [startRecording] built it: the [mimeType] constant and the
    [activeView] of the render whose [startRecording] was called. *)
Record MediaRecorder := mkRecorder {
  mr_stream : MediaStream;
  mr_mimeType : string;
  mr_activeView : ActiveView
}.

(** Calls made to the storage service. *)
Inductive BlobOp :=
| OpSave (id : string) (b : Blob)
| OpDelete (id : string).

Record App := mkApp {
  (* React state ([useState]) *)
  notes : list Note;
  folders : list Folder;
  activeView : ActiveView;
  searchQuery : string;
  sortBy : SortOption;
  status : RecordingStatus;
  timer : Z;
  stream : option MediaStream;
  unlockedFolderIds : list string;
  pinModal : option PinModalState;
  isAddingFolder : bool;
  newFolderName : string;
  (* refs ([useRef]); the wake lock is best effort, touches nothing
     else and is left out *)
  mediaRecorderRef : option MediaRecorder;
  chunksRef : list Blob;
  timerRef : bool;
  startTimeRef : option Z;
  (* the host: live microphone streams, recorders in state "recording",
     the IndexedDB blob store, the calls made to it, the [alert]s shown *)
  liveStreams : list MediaStream;
  recorders : list MediaRecorder;
  blobStore : gmap string Blob;
  blobLog : list BlobOp;
  alerts : list string
}.

(** Field updates ([setX(v)] for state, [xRef.current = v] for refs). *)
Definition setNotes (v : list Note) (st : App) : App :=
  mkApp v (folders st) (activeView st) (searchQuery st) (sortBy st) (status st) (timer st)
    (stream st) (unlockedFolderIds st) (pinModal st) (isAddingFolder st) (newFolderName st)
    (mediaRecorderRef st) (chunksRef st) (timerRef st) (startTimeRef st) (liveStreams st)
    (recorders st) (blobStore st) (blobLog st) (alerts st).
Definition setFolders (v : list Folder) (st : App) : App :=
  mkApp (notes st) v (activeView st) (searchQuery st) (sortBy st) (status st) (timer st)
    (stream st) (unlockedFolderIds st) (pinModal st) (isAddingFolder st) (newFolderName st)
    (mediaRecorderRef st) (chunksRef st) (timerRef st) (startTimeRef st) (liveStreams st)
    (recorders st) (blobStore st) (blobLog st) (alerts st).
Definition setActiveView (v : ActiveView) (st : App) : App :=
  mkApp (notes st) (folders st) v (searchQuery st) (sortBy st) (status st) (timer st)
    (stream st) (unlockedFolderIds st) (pinModal st) (isAddingFolder st) (newFolderName st)
    (mediaRecorderRef st) (chunksRef st) (timerRef st) (startTimeRef st) (liveStreams st)
    (recorders st) (blobStore st) (blobLog st) (alerts st).
Definition setSearchQuery (v : string) (st : App) : App :=
  mkApp (notes st) (folders st) (activeView st) v (sortBy st) (status st) (timer st)
    (stream st) (unlockedFolderIds st) (pinModal st) (isAddingFolder st) (newFolderName st)
    (mediaRecorderRef st) (chunksRef st) (timerRef st) (startTimeRef st) (liveStreams st)
    (recorders st) (blobStore st) (blobLog st) (alerts st).
Definition setSortBy (v : SortOption) (st : App) : App :=
  mkApp (notes st) (folders st) (activeView st) (searchQuery st) v (status st) (timer st)
    (stream st) (unlockedFolderIds st) (pinModal st) (isAddingFolder st) (newFolderName st)
    (mediaRecorderRef st) (chunksRef st) (timerRef st) (startTimeRef st) (liveStreams st)
    (recorders st) (blobStore st) (blobLog st) (alerts st).
Definition setStatus (v : RecordingStatus) (st : App) : App :=
  mkApp (notes st) (folders st) (activeView st) (searchQuery st) (sortBy st) v (timer st)
    (stream st) (unlockedFolderIds st) (pinModal st) (isAddingFolder st) (newFolderName st)
    (mediaRecorderRef st) (chunksRef st) (timerRef st) (startTimeRef st) (liveStreams st)
    (recorders st) (blobStore st) (blobLog st) (alerts st).
Definition setTimer (v : Z) (st : App) : App :=
  mkApp (notes st) (folders st) (activeView st) (searchQuery st) (sortBy st) (status st) v
    (stream st) (unlockedFolderIds st) (pinModal st) (isAddingFolder st) (newFolderName st)
    (mediaRecorderRef st) (chunksRef st) (timerRef st) (startTimeRef st) (liveStreams st)
    (recorders st) (blobStore st) (blobLog st) (alerts st).
Definition setStream (v : option MediaStream) (st : App) : App :=
  mkApp (notes st) (folders st) (activeView st) (searchQuery st) (sortBy st) (status st)
    (timer st) v (unlockedFolderIds st) (pinModal st) (isAddingFolder st) (newFolderName st)
    (mediaRecorderRef st) (chunksRef st) (timerRef st) (startTimeRef st) (liveStreams st)
    (recorders st) (blobStore st) (blobLog st) (alerts st).
Definition setUnlockedFolderIds (v : list string) (st : App) : App :=
  mkApp (notes st) (folders st) (activeView st) (searchQuery st) (sortBy st) (status st)
    (timer st) (stream st) v (pinModal st) (isAddingFolder st) (newFolderName st)
    (mediaRecorderRef st) (chunksRef st) (timerRef st) (startTimeRef st) (liveStreams st)
    (recorders st) (blobStore st) (blobLog st) (alerts st).
Definition setPinModal (v : option PinModalState) (st : App) : App :=
  mkApp (notes st) (folders st) (activeView st) (searchQuery st) (sortBy st) (status st)
    (timer st) (stream st) (unlockedFolderIds st) v (isAddingFolder st) (newFolderName st)
    (mediaRecorderRef st) (chunksRef st) (timerRef st) (startTimeRef st) (liveStreams st)
    (recorders st) (blobStore st) (blobLog st) (alerts st).
Definition setIsAddingFolder (v : bool) (st : App) : App :=
  mkApp (notes st) (folders st) (activeView st) (searchQuery st) (sortBy st) (status st)
    (timer st) (stream st) (unlockedFolderIds st) (pinModal st) v (newFolderName st)
    (mediaRecorderRef st) (chunksRef st) (timerRef st) (startTimeRef st) (liveStreams st)
    (recorders st) (blobStore st) (blobLog st) (alerts st).
Definition setNewFolderName (v : string) (st : App) : App :=
  mkApp (notes st) (folders st) (activeView st) (searchQuery st) (sortBy st) (status st)
    (timer st) (stream st) (unlockedFolderIds st) (pinModal st) (isAddingFolder st) v
    (mediaRecorderRef st) (chunksRef st) (timerRef st) (startTimeRef st) (liveStreams st)
    (recorders st) (blobStore st) (blobLog st) (alerts st).
Definition setMediaRecorderRef (v : option MediaRecorder) (st : App) : App :=
  mkApp (notes st) (folders st) (activeView st) (searchQuery st) (sortBy st) (status st)
    (timer st) (stream st) (unlockedFolderIds st) (pinModal st) (isAddingFolder st)
    (newFolderName st) v (chunksRef st) (timerRef st) (startTimeRef st) (liveStreams st)
    (recorders st) (blobStore st) (blobLog st) (alerts st).
Definition setChunksRef (v : list Blob) (st : App) : App :=
  mkApp (notes st) (folders st) (activeView st) (searchQuery st) (sortBy st) (status st)
    (timer st) (stream st) (unlockedFolderIds st) (pinModal st) (isAddingFolder st)
    (newFolderName st) (mediaRecorderRef st) v (timerRef st) (startTimeRef st)
    (liveStreams st) (recorders st) (blobStore st) (blobLog st) (alerts st).
Definition setTimerRef (v : bool) (st : App) : App :=
  mkApp (notes st) (folders st) (activeView st) (searchQuery st) (sortBy st) (status st)
    (timer st) (stream st) (unlockedFolderIds st) (pinModal st) (isAddingFolder st)
    (newFolderName st) (mediaRecorderRef st) (chunksRef st) v (startTimeRef st)
    (liveStreams st) (recorders st) (blobStore st) (blobLog st) (alerts st).
Definition setStartTimeRef (v : option Z) (st : App) : App :=
  mkApp (notes st) (folders st) (activeView st) (searchQuery st) (sortBy st) (status st)
    (timer st) (stream st) (unlockedFolderIds st) (pinModal st) (isAddingFolder st)
    (newFolderName st) (mediaRecorderRef st) (chunksRef st) (timerRef st) v (liveStreams st)
    (recorders st) (blobStore st) (blobLog st) (alerts st).
Definition setLiveStreams (v : list MediaStream) (st : App) : App :=
  mkApp (notes st) (folders st) (activeView st) (searchQuery st) (sortBy st) (status st)
    (timer st) (stream st) (unlockedFolderIds st) (pinModal st) (isAddingFolder st)
    (newFolderName st) (mediaRecorderRef st) (chunksRef st) (timerRef st) (startTimeRef st)
    v (recorders st) (blobStore st) (blobLog st) (alerts st).
Definition setRecorders (v : list MediaRecorder) (st : App) : App :=
  mkApp (notes st) (folders st) (activeView st) (searchQuery st) (sortBy st) (status st)
    (timer st) (stream st) (unlockedFolderIds st) (pinModal st) (isAddingFolder st)
    (newFolderName st) (mediaRecorderRef st) (chunksRef st) (timerRef st) (startTimeRef st)
    (liveStreams st) v (blobStore st) (blobLog st) (alerts st).
Definition setBlobStore (v : gmap string Blob) (st : App) : App :=
  mkApp (notes st) (folders st) (activeView st) (searchQuery st) (sortBy st) (status st)
    (timer st) (stream st) (unlockedFolderIds st) (pinModal st) (isAddingFolder st)
    (newFolderName st) (mediaRecorderRef st) (chunksRef st) (timerRef st) (startTimeRef st)
    (liveStreams st) (recorders st) v (blobLog st) (alerts st).
Definition setBlobLog (v : list BlobOp) (st : App) : App :=
  mkApp (notes st) (folders st) (activeView st) (searchQuery st) (sortBy st) (status st)
    (timer st) (stream st) (unlockedFolderIds st) (pinModal st) (isAddingFolder st)
    (newFolderName st) (mediaRecorderRef st) (chunksRef st) (timerRef st) (startTimeRef st)
    (liveStreams st) (recorders st) (blobStore st) v (alerts st).
Definition setAlerts (v : list string) (st : App) : App :=
  mkApp (notes st) (folders st) (activeView st) (searchQuery st) (sortBy st) (status st)
    (timer st) (stream st) (unlockedFolderIds st) (pinModal st) (isAddingFolder st)
    (newFolderName st) (mediaRecorderRef st) (chunksRef st) (timerRef st) (startTimeRef st)
    (liveStreams st) (recorders st) (blobStore st) (blobLog st) v.

(** ** The storage service

    [services/storageService] ([saveAudioBlob], [deleteAudioBlob],
    [getAudioBlob]) is imported by the program but its text is not part
    of the sources.  A call to it either resolves or rejects with a
    message; which of the two is an argument of the handler that awaits
    the call. *)
Inductive Settled := Resolved | Rejected (message : string).

(** Modelled from the spec: the body of [saveAudioBlob] is missing; the
    interface gives [put(id, bytes, mimeType) -> ok | StorageError], a
    store keyed by note id.  This is the effect of a resolved call. *)
Definition storePut (id : string) (b : Blob) (s : gmap string Blob) : gmap string Blob :=
  <[id := b]> s.

(** Modelled from the spec: the body of [deleteAudioBlob] is missing; the
    interface gives an idempotent [delete(id)].  This is the effect of a
    resolved call. *)
Definition storeDelete (id : string) (s : gmap string Blob) : gmap string Blob :=
  delete id s.

(** Modelled from the spec: the body of [getAudioBlob] is missing; the
    interface gives [get(id) -> bytes | absent]. *)
Definition storeGet (id : string) (s : gmap string Blob) : option Blob :=
  s !! id.

(** ** Recording *)

(** What the host answers to [startRecording]. *)
Inductive UserMedia :=
| MediaGranted (s : MediaStream)
| MediaDenied (name message : string).

Record StartEnv := mkStartEnv {
  (* navigator.mediaDevices.getUserMedia({ audio: true }) *)
  env_getUserMedia : UserMedia;
  (* MediaRecorder.isTypeSupported(type); [None] when the call throws *)
  env_isTypeSupported : string -> option bool;
  (* new MediaRecorder(...): [Some message] when it throws *)
  env_construct : option string;
  (* recorder.start(1000): [Some message] when it throws *)
  env_start : option string;
  (* Date.now() *)
  env_now : Z
}.

Definition mimeTypes : list string :=
  [ "audio/webm;codecs=opus"; "audio/webm"; "audio/mp4"; "audio/aac";
    "audio/ogg;codecs=opus" ].

(** [getSupportedMimeType]: the first supported type of the list, [""]
    when there is none. *)
Fixpoint firstSupported (isTypeSupported : string -> option bool) (types : list string)
  : string :=
  match types with
  | [] => ""
  | type :: rest =>
      match isTypeSupported type with
      | Some true => type
      | Some false => firstSupported isTypeSupported rest
      | None => firstSupported isTypeSupported rest
      end
  end.

Definition getSupportedMimeType (isTypeSupported : string -> option bool) : string :=
  firstSupported isTypeSupported mimeTypes.

(** [audioStream.getTracks().forEach(t => t.stop())] *)
Definition stopTracks (s : MediaStream) (st : App) : App :=
  setLiveStreams (List.filter (fun s' => negb (Nat.eqb s' s)) (liveStreams st)) st.

Definition alert (msg : string) (st : App) : App :=
  setAlerts (alerts st ++ [msg]) st.

(** [startRecording].  [view] is the [activeView] of the render that
    created the handler (what its closures see); [st] is the state the
    body runs against once [getUserMedia] has settled.  The function has
    no test of [status]. *)
Definition startRecording (view : ActiveView) (env : StartEnv) (st : App) : App :=
  match env_getUserMedia env with
  | MediaDenied name message =>
      alert ("Microphone Access Error: " ++ name ++ String "010" message) st
  | MediaGranted audioStream =>
      let st := setLiveStreams (liveStreams st ++ [audioStream]) st in
      let mimeType := getSupportedMimeType (env_isTypeSupported env) in
      if negb (Js.truthyS mimeType) then
        alert "Format Error: Browser incompatible." (stopTracks audioStream st)
      else
        let failed (message : string) (st : App) : App :=
          setStatus IDLE
            (alert ("Initialization Error: " ++ message) (stopTracks audioStream st)) in
        match env_construct env with
        | Some message => failed message st
        | None =>
            let recorder := mkRecorder audioStream mimeType view in
            let st := setMediaRecorderRef (Some recorder) st in
            let st := setChunksRef [] st in
            let st := setStream (Some audioStream) st in
            match env_start env with
            | Some message => failed message st
            | None =>
                let st := setRecorders (recorders st ++ [recorder]) st in
                let st := setStatus RECORDING st in
                let st := setStartTimeRef (Some (env_now env)) st in
                let st := setTimer 0 st in
                setTimerRef true st
            end
        end
  end.

(** [recorder.ondataavailable] *)
Definition ondataavailable (data : Blob) (st : App) : App :=
  if (0 <? length (blob_data data))%nat then setChunksRef (chunksRef st ++ [data]) st
  else st.

(** The interval callback installed by [startRecording]. *)
Definition timerTick (now : Z) (st : App) : App :=
  if timerRef st then
    match startTimeRef st with
    | Some t => if t =? 0 then st else setTimer ((now - t) / 1000) st
    | None => st
    end
  else st.

Definition sameRecorder (a b : MediaRecorder) : bool :=
  Nat.eqb (mr_stream a) (mr_stream b)
  && String.eqb (mr_mimeType a) (mr_mimeType b)
  && String.eqb (mr_activeView a) (mr_activeView b).

(** [stopRecording].  The recorder's [onstop] handler runs afterwards,
    as an event of its own. *)
Definition stopRecording (st : App) : App :=
  match mediaRecorderRef st, status st with
  | Some recorder, RECORDING =>
      let st' := setRecorders
                   (List.filter (fun r => negb (sameRecorder r recorder)) (recorders st)) st in
      let st' := setTimerRef false st' in
      match stream st with
      | Some s => setStream None (stopTracks s st')
      | None => st'
      end
  | _, _ => st
  end.

(** The record bar at the bottom of the view: which button it renders
    for each [status]. *)
Inductive RecordBar := StartButton | StopButton | BusyIndicator.

Definition recordBar (s : RecordingStatus) : RecordBar :=
  match s with
  | IDLE => StartButton
  | RECORDING => StopButton
  | TRANSCRIBING => BusyIndicator
  end.

(** A click on the start button, in the page rendered for [st]:
    [startRecording()] is called and runs up to
    [await navigator.mediaDevices.getUserMedia(...)].  Nothing of the
    state has changed by then, so the bar still renders the start button
    until the call goes on.  What waits for the answer is a closure of
    that render, of which the rest of the body reads [activeView] alone:
    the call joins the waiting ones under that view.  The button is in
    the page only while the bar renders [StartButton]. *)
Definition startClick (st : App) (waiting : list ActiveView) : list ActiveView :=
  match recordBar (status st) with
  | StartButton => waiting ++ [activeView st]
  | _ => waiting
  end.

(** [getUserMedia] settles for the [k]-th waiting call: the rest of the
    body of [startRecording] runs, against the state of that moment. *)
Definition startSettled (k : nat) (env : StartEnv) (waiting : list ActiveView) (st : App)
  : App :=
  match nth_error waiting k with
  | Some view => startRecording view env st
  | None => st
  end.

(** The waiting calls once the [k]-th has gone on. *)
Definition stillWaiting (k : nat) (waiting : list ActiveView) : list ActiveView :=
  firstn k waiting ++ skipn (S k) waiting.

(** ** The transcription pipeline ([recorder.onstop]) *)

(** [TranscribeResponse] of the transcription service. *)
Record TranscribeResponse := mkResponse {
  r_transcription : string;
  r_summary : string;
  r_actionItems : list string;
  r_suggestedTitle : string;
  r_tags : list string
}.

Inductive Transcribed :=
| TranscribeOk (data : TranscribeResponse)
| TranscribeFailed (message : string).

(** The constants of one run of [onstop], shared by its continuations. *)
Record Job := mkJob {
  job_noteId : string;
  job_audioBlob : Blob;
  job_finalDuration : Z;
  job_targetFolder : option string;
  job_mimeType : string
}.

(** [(activeView === 'all' || activeView === 'uncategorized' ||
      activeView === 'favorites') ? undefined : activeView] *)
Definition targetFolder (activeView : ActiveView) : option string :=
  if String.eqb activeView "all" || String.eqb activeView "uncategorized"
     || String.eqb activeView "favorites"
  then None else Some activeView.

(** [new Blob(chunksRef.current, { type: mimeType })] *)
Definition concatChunks (chunks : list Blob) (type : string) : Blob :=
  mkBlob (concat (map blob_data chunks)) type.

(** [startTimeRef.current ? Math.floor((Date.now() - startTimeRef.current) / 1000) : 0] *)
Definition finalDuration (start : option Z) (now : Z) : Z :=
  match start with
  | Some t => if t =? 0 then 0 else (now - t) / 1000
  | None => 0
  end.

(** [onstop] up to its first [await]: [recorder] is the recorder that
    stopped, [noteId] the value of [generateId()].  [saveAudioBlob] is
    called, its answer comes later. *)
Definition onstopBegin (recorder : MediaRecorder) (now : Z) (noteId : string) (st : App)
  : App * Job :=
  let job := mkJob noteId
               (concatChunks (chunksRef st) (mr_mimeType recorder))
               (finalDuration (startTimeRef st) now)
               (targetFolder (mr_activeView recorder))
               (mr_mimeType recorder) in
  let st := setStatus TRANSCRIBING st in
  (setBlobLog (blobLog st ++ [OpSave noteId (job_audioBlob job)]) st, job).

(** [saveAudioBlob] settled.  Resolved: the blob is stored and the file
    reader is started.  Rejected: the outer [catch]. *)
Definition onstopSaved (job : Job) (saved : Settled) (st : App) : App :=
  match saved with
  | Resolved =>
      setBlobStore (storePut (job_noteId job) (job_audioBlob job) (blobStore st)) st
  | Rejected message =>
      setTimer 0 (setStatus IDLE (alert ("Analysis Error: " ++ message) st))
  end.

(** The [Note] literal built from the response. *)
Definition newNote (job : Job) (data : TranscribeResponse) (now : Z) : Note :=
  {| n_id := job_noteId job;
     n_title := r_suggestedTitle data;
     n_transcription := r_transcription data;
     n_summary := Some (r_summary data);
     n_actionItems := Some (r_actionItems data);
     n_tags := r_tags data;
     n_audioUrl := "";
     n_timestamp := now;
     n_duration := job_finalDuration job;
     n_isPinned := Some false;
     n_isFavorite := Some false;
     n_folderId := job_targetFolder job;
     n_translatedTranscription := None;
     n_translatedLanguage := None |}.

(** [reader.onloadend] from the point where [transcribeAudio] has
    settled: the inner [try]/[catch] and the two statements after it. *)
Definition transcribeSettled (job : Job) (answer : Transcribed) (now : Z) (st : App) : App :=
  let st :=
    match answer with
    | TranscribeOk data => setNotes (newNote job data now :: notes st) st
    | TranscribeFailed message => alert ("Transcription failed: " ++ message) st
    end in
  setTimer 0 (setStatus IDLE st).

(** [reader.onloadend].  [readerResult] is [reader.result]; when it is
    [null] the first statement throws outside every [try] and nothing
    else runs. *)
Definition onloadend (job : Job) (readerResult : option string) (answer : Transcribed)
    (now : Z) (st : App) : App :=
  match readerResult with
  | None => st
  | Some _ => transcribeSettled job answer now st
  end.

(** One whole run of [onstop] with nothing else scheduled in between. *)
Definition onstop (recorder : MediaRecorder) (stopTime : Z) (noteId : string)
    (saved : Settled) (readerResult : option string) (answer : Transcribed)
    (noteTime : Z) (st : App) : App :=
  let '(st1, job) := onstopBegin recorder stopTime noteId st in
  match saved with
  | Resolved => onloadend job readerResult answer noteTime (onstopSaved job Resolved st1)
  | Rejected _ => onstopSaved job saved st1
  end.

(** ** Notes and folders *)

(** [deleteNote].  [confirmed] is the answer to [confirm(...)], [deleted]
    how [deleteAudioBlob(id)] settles.  The call is awaited with no
    [try] around it: a rejection leaves the function before [setNotes]. *)
Definition deleteNote (id : string) (confirmed : bool) (deleted : Settled) (st : App) : App :=
  if confirmed then
    let st := setBlobLog (blobLog st ++ [OpDelete id]) st in
    match deleted with
    | Resolved =>
        let st := setBlobStore (storeDelete id (blobStore st)) st in
        setNotes (List.filter (fun n => negb (String.eqb (n_id n) id)) (notes st)) st
    | Rejected _ => st
    end
  else st.

(** [createFolder]; [id] is the value of [generateId()]. *)
Definition createFolder (id : string) (now : Z) (st : App) : App :=
  if Js.truthyS (Js.trim (newFolderName st)) then
    let st := setFolders (folders st ++ [mkFolder id (Js.trim (newFolderName st)) now None]) st in
    let st := setActiveView id st in
    let st := setNewFolderName "" st in
    setIsAddingFolder false st
  else setIsAddingFolder false st.

(** [handleFolderClick] *)
Definition handleFolderClick (folder : Folder) (st : App) : App :=
  let st' := setActiveView (f_id folder) st in
  if Js.truthyOS (f_pin folder) && negb (Js.arrIncludes (unlockedFolderIds st) (f_id folder))
  then setPinModal (Some (mkPinModal modeEnter (f_id folder) None)) st'
  else st'.

Definition withPin (pin : option string) (f : Folder) : Folder :=
  mkFolder (f_id f) (f_name f) (f_timestamp f) pin.

(** [toggleFolderLock] *)
Definition toggleFolderLock (folder : Folder) (confirmed : bool) (st : App) : App :=
  if Js.truthyOS (f_pin folder) then
    if confirmed then
      let st :=
        setFolders
          (map (fun f => if String.eqb (f_id f) (f_id folder) then withPin None f else f)
               (folders st)) st in
      setUnlockedFolderIds
        (List.filter (fun id => negb (String.eqb id (f_id folder))) (unlockedFolderIds st)) st
    else st
  else setPinModal (Some (mkPinModal modeSet (f_id folder) None)) st.

(** [o === s] for an optional string [o] and a string [s]. *)
Definition strictEqOS (o : option string) (s : string) : bool :=
  match o with Some p => String.eqb p s | None => false end.

(** [handlePinConfirm] *)
Definition handlePinConfirm (pin : string) (st : App) : App :=
  match pinModal st with
  | None => st
  | Some modal =>
      let folderId := pm_folderId modal in
      match pm_mode modal with
      | modeSet =>
          let st :=
            setFolders
              (map (fun f => if String.eqb (f_id f) folderId then withPin (Some pin) f else f)
                   (folders st)) st in
          let st := setUnlockedFolderIds (unlockedFolderIds st ++ [folderId]) st in
          setPinModal None st
      | modeEnter =>
          let folder := Js.arrFind (fun f => String.eqb (f_id f) folderId) (folders st) in
          if strictEqOS (folder ≫= f_pin) pin then
            setPinModal None (setUnlockedFolderIds (unlockedFolderIds st ++ [folderId]) st)
          else
            setPinModal (Some (mkPinModal (pm_mode modal) folderId (Some "Incorrect PIN"))) st
      end
  end.

(** The [onCancel] handed to the PIN dialog. *)
Definition pinCancel (st : App) : App :=
  match pinModal st with
  | Some modal =>
      let st' := setPinModal None st in
      match pm_mode modal with
      | modeEnter => setActiveView "all" st'
      | modeSet => st'
      end
  | None => st
  end.

Definition withFolderId (folderId : option string) (n : Note) : Note :=
  mkNote (n_id n) (n_title n) (n_transcription n) (n_summary n) (n_actionItems n)
         (n_tags n) (n_audioUrl n) (n_timestamp n) (n_duration n) (n_isPinned n)
         (n_isFavorite n) folderId (n_translatedTranscription n) (n_translatedLanguage n).

(** [deleteFolder] *)
Definition deleteFolder (id : string) (confirmed : bool) (st : App) : App :=
  if confirmed then
    let st := setFolders (List.filter (fun f => negb (String.eqb (f_id f) id)) (folders st)) st in
    let st :=
      setNotes
        (map (fun n => if inFolder id n then withFolderId None n else n) (notes st)) st in
    if String.eqb (activeView st) id then setActiveView "all" st else st
  else st.

(** The [Partial<Note>] objects the program passes to [updateNote]. *)
Inductive NoteUpdate :=
| UpdTitle (title : string)
| UpdTranslation (translated language : string)
| UpdFavorite (isFavorite : bool)
| UpdPinned (isPinned : bool)
| UpdFolder (folderId : option string).

(** [{ ...n, ...updates }] *)
Definition applyUpdate (u : NoteUpdate) (n : Note) : Note :=
  match u with
  | UpdTitle t =>
      mkNote (n_id n) t (n_transcription n) (n_summary n) (n_actionItems n) (n_tags n)
             (n_audioUrl n) (n_timestamp n) (n_duration n) (n_isPinned n) (n_isFavorite n)
             (n_folderId n) (n_translatedTranscription n) (n_translatedLanguage n)
  | UpdTranslation t l =>
      mkNote (n_id n) (n_title n) (n_transcription n) (n_summary n) (n_actionItems n)
             (n_tags n) (n_audioUrl n) (n_timestamp n) (n_duration n) (n_isPinned n)
             (n_isFavorite n) (n_folderId n) (Some t) (Some l)
  | UpdFavorite b =>
      mkNote (n_id n) (n_title n) (n_transcription n) (n_summary n) (n_actionItems n)
             (n_tags n) (n_audioUrl n) (n_timestamp n) (n_duration n) (n_isPinned n)
             (Some b) (n_folderId n) (n_translatedTranscription n) (n_translatedLanguage n)
  | UpdPinned b =>
      mkNote (n_id n) (n_title n) (n_transcription n) (n_summary n) (n_actionItems n)
             (n_tags n) (n_audioUrl n) (n_timestamp n) (n_duration n) (Some b)
             (n_isFavorite n) (n_folderId n) (n_translatedTranscription n)
             (n_translatedLanguage n)
  | UpdFolder fid => withFolderId fid n
  end.

(** [updateNote] *)
Definition updateNote (id : string) (updates : NoteUpdate) (st : App) : App :=
  setNotes (map (fun n => if String.eqb (n_id n) id then applyUpdate updates n else n)
                (notes st)) st.

(** [onTogglePin]: [updateNote(id, { isPinned: !notes.find(n => n.id === id)?.isPinned })] *)
Definition onTogglePin (id : string) (st : App) : App :=
  let current :=
    match Js.arrFind (fun n => String.eqb (n_id n) id) (notes st) with
    | Some n => Js.truthyB (n_isPinned n)
    | None => false
    end in
  updateNote id (UpdPinned (negb current)) st.

(* ===================================================================== *)
(** ** The PIN dialog (PinModal) *)
(* ===================================================================== *)

Module PinModal.

(** The [onChange] of the hidden input: [pin] is the component's state,
    [value] is [e.target.value]; the result is the next [pin]. *)
Definition onChange (value : string) (pin : string) : string :=
  let val := Js.stripNonDigits value in
  if (String.length val <=? 4)%nat then val else pin.

(** [handleSubmit]: [onConfirm] is called only on a [pin] of length 4. *)
Definition handleSubmit {S : Type} (pin : string) (onConfirm : string -> S -> S) (st : S)
  : S :=
  if (String.length pin =? 4)%nat then onConfirm pin st else st.

End PinModal.

(* ===================================================================== *)
(** ** The screen: the application and the dialog it mounts *)
(* ===================================================================== *)

(** [pinInput] is the [pin] state of the mounted [PinModal]; the dialog
    is mounted exactly while [pinModal] is not [null], and a fresh mount
    starts from the empty string.  [starting] lists the calls of
    [startRecording] that wait for [getUserMedia], oldest first, each by
    the [activeView] its closure sees. *)
Record Screen := mkScreen {
  app : App;
  pinInput : string;
  starting : list ActiveView
}.

Inductive Event :=
(* sidebar *)
| EvShowAll | EvShowFavorites | EvShowUncategorized
| EvAddFolder
| EvNewFolderName (name : string)
| EvCreateFolder (id : string) (now : Z)
| EvFolderClick (i : nat)
| EvToggleFolderLock (i : nat) (confirmed : bool)
| EvDeleteFolder (i : nat) (confirmed : bool)
(* header and locked-view placeholder *)
| EvSearch (query : string)
| EvEnterPin
(* PIN dialog *)
| EvPinChange (value : string)
| EvPinSubmit
| EvPinCancel
(* note cards *)
| EvDeleteNote (id : string) (confirmed : bool) (deleted : Settled)
| EvUpdateNote (id : string) (u : NoteUpdate)
| EvTogglePin (id : string)
(* record bar, recorder and pipeline *)
| EvStartClick
| EvStartSettled (k : nat) (env : StartEnv)
| EvStopClick
| EvData (data : Blob)
| EvTick (now : Z)
| EvOnstopBegin (recorder : MediaRecorder) (now : Z) (noteId : string)
| EvOnstopSaved (job : Job) (saved : Settled)
| EvLoadEnd (job : Job) (readerResult : option string) (answer : Transcribed) (now : Z)
(* page reload *)
| EvReload.

(** The state of a fresh page over what the previous one persisted:
    notes and folders come back from [localStorage], blobs stay in
    IndexedDB, everything else starts over. *)
Definition reload (st : App) : App :=
  {| notes := notes st; folders := folders st; activeView := "all"; searchQuery := "";
     sortBy := newest; status := IDLE; timer := 0; stream := None;
     unlockedFolderIds := []; pinModal := None; isAddingFolder := false;
     newFolderName := ""; mediaRecorderRef := None; chunksRef := []; timerRef := false;
     startTimeRef := None; liveStreams := []; recorders := [];
     blobStore := blobStore st; blobLog := []; alerts := [] |}.

(** The very first page: nothing persisted yet. *)
Definition initialApp : App :=
  {| notes := []; folders := []; activeView := "all"; searchQuery := "";
     sortBy := newest; status := IDLE; timer := 0; stream := None;
     unlockedFolderIds := []; pinModal := None; isAddingFolder := false;
     newFolderName := ""; mediaRecorderRef := None; chunksRef := []; timerRef := false;
     startTimeRef := None; liveStreams := []; recorders := [];
     blobStore := ∅; blobLog := []; alerts := [] |}.

Definition initialScreen : Screen := mkScreen initialApp "" [].

(** The folder shown by the [i]-th folder button of the sidebar. *)
Definition folderAt (i : nat) (st : App) : option Folder := nth_error (folders st) i.

(** [currentActiveFolder && setPinModal({ mode: 'enter', ... })], offered
    by the placeholder of a locked view. *)
Definition enterPin (st : App) : App :=
  match Js.arrFind (fun f => String.eqb (f_id f) (activeView st)) (folders st) with
  | Some f =>
      if Js.truthyOS (f_pin f) && negb (Js.arrIncludes (unlockedFolderIds st) (activeView st))
      then setPinModal (Some (mkPinModal modeEnter (f_id f) None)) st
      else st
  | None => st
  end.

Definition stepApp (e : Event) (pin : string) (waiting : list ActiveView) (st : App)
  : App :=
  match e with
  | EvShowAll => setActiveView "all" st
  | EvShowFavorites => setActiveView "favorites" st
  | EvShowUncategorized => setActiveView "uncategorized" st
  | EvAddFolder => setIsAddingFolder true st
  | EvNewFolderName name => setNewFolderName name st
  | EvCreateFolder id now => createFolder id now st
  | EvFolderClick i =>
      match folderAt i st with Some f => handleFolderClick f st | None => st end
  | EvToggleFolderLock i confirmed =>
      match folderAt i st with Some f => toggleFolderLock f confirmed st | None => st end
  | EvDeleteFolder i confirmed =>
      match folderAt i st with Some f => deleteFolder (f_id f) confirmed st | None => st end
  | EvSearch query => setSearchQuery query st
  | EvEnterPin => enterPin st
  | EvPinChange _ => st
  | EvPinSubmit =>
      match pinModal st with
      | Some _ => PinModal.handleSubmit pin handlePinConfirm st
      | None => st
      end
  | EvPinCancel => pinCancel st
  | EvDeleteNote id confirmed deleted => deleteNote id confirmed deleted st
  | EvUpdateNote id u => updateNote id u st
  | EvTogglePin id => onTogglePin id st
  | EvStartClick => st
  | EvStartSettled k env => startSettled k env waiting st
  | EvStopClick => stopRecording st
  | EvData data => ondataavailable data st
  | EvTick now => timerTick now st
  | EvOnstopBegin recorder now noteId => fst (onstopBegin recorder now noteId st)
  | EvOnstopSaved job saved => onstopSaved job saved st
  | EvLoadEnd job readerResult answer now => onloadend job readerResult answer now st
  | EvReload => reload st
  end.

Definition step (sc : Screen) (e : Event) : Screen :=
  let pin :=
    match e, pinModal (app sc) with
    | EvPinChange value, Some _ => PinModal.onChange value (pinInput sc)
    | _, _ => pinInput sc
    end in
  let st := stepApp e (pinInput sc) (starting sc) (app sc) in
  let waiting :=
    match e with
    | EvStartClick => startClick (app sc) (starting sc)
    | EvStartSettled k _ => stillWaiting k (starting sc)
    | EvReload => []
    | _ => starting sc
    end in
  mkScreen st (match pinModal st with Some _ => pin | None => "" end) waiting.

Definition run (sc : Screen) (events : list Event) : Screen := fold_left step events sc.

(** Every folder with a PIN has one of exactly four digits. *)
Definition pinWellFormed (f : Folder) : bool :=
  match f_pin f with
  | Some p => (String.length p =? 4)%nat && Js.allChars Js.isDigit p
  | None => true
  end.

Definition pinsWellFormed (st : App) : bool := forallb pinWellFormed (folders st).

(* ===================================================================== *)
(** ** One note card (NoteCard) and the deck of cards the view renders *)
(* ===================================================================== *)

Module NoteCard.

Inductive TtsStatus := ttsIdle | ttsLoading | ttsPlaying.
Inductive TtsSection := secSummary | secTranscription.

(** An [AudioBufferSourceNode], by identity. *)
Definition SourceNode := nat.

(** The card's [<audio>] element. *)
Record AudioElement := mkAudio { paused : bool }.

(** The state of one card.  Every field but the last two is a hook of
    the component ([useState], [useRef]) and so belongs to this card
    alone; [sounding] lists the buffer sources this card started that
    have neither been stopped nor run to their end, [cardAlerts] the
    [alert]s it raised. *)
Record Card := mkCard {
  note : Note;
  isPlaying : bool;
  ttsStatus : TtsStatus;
  activeTtsSection : option TtsSection;
  ttsAudioRef : option SourceNode;
  ttsContextRef : bool;
  audioRef : option AudioElement;
  sounding : list SourceNode;
  cardAlerts : list string
}.

Definition setIsPlaying (v : bool) (c : Card) : Card :=
  mkCard (note c) v (ttsStatus c) (activeTtsSection c) (ttsAudioRef c) (ttsContextRef c)
    (audioRef c) (sounding c) (cardAlerts c).
Definition setTtsStatus (v : TtsStatus) (c : Card) : Card :=
  mkCard (note c) (isPlaying c) v (activeTtsSection c) (ttsAudioRef c) (ttsContextRef c)
    (audioRef c) (sounding c) (cardAlerts c).
Definition setActiveTtsSection (v : option TtsSection) (c : Card) : Card :=
  mkCard (note c) (isPlaying c) (ttsStatus c) v (ttsAudioRef c) (ttsContextRef c)
    (audioRef c) (sounding c) (cardAlerts c).
Definition setTtsAudioRef (v : option SourceNode) (c : Card) : Card :=
  mkCard (note c) (isPlaying c) (ttsStatus c) (activeTtsSection c) v (ttsContextRef c)
    (audioRef c) (sounding c) (cardAlerts c).
Definition setTtsContextRef (v : bool) (c : Card) : Card :=
  mkCard (note c) (isPlaying c) (ttsStatus c) (activeTtsSection c) (ttsAudioRef c) v
    (audioRef c) (sounding c) (cardAlerts c).
Definition setAudioRef (v : option AudioElement) (c : Card) : Card :=
  mkCard (note c) (isPlaying c) (ttsStatus c) (activeTtsSection c) (ttsAudioRef c)
    (ttsContextRef c) v (sounding c) (cardAlerts c).
Definition setSounding (v : list SourceNode) (c : Card) : Card :=
  mkCard (note c) (isPlaying c) (ttsStatus c) (activeTtsSection c) (ttsAudioRef c)
    (ttsContextRef c) (audioRef c) v (cardAlerts c).
Definition setCardAlerts (v : list string) (c : Card) : Card :=
  mkCard (note c) (isPlaying c) (ttsStatus c) (activeTtsSection c) (ttsAudioRef c)
    (ttsContextRef c) (audioRef c) (sounding c) v.

Definition sectionEqb (a b : TtsSection) : bool :=
  match a, b with
  | secSummary, secSummary | secTranscription, secTranscription => true
  | _, _ => false
  end.

(** [source.stop()]: the node falls silent (stopping a node that has
    already ended throws, which the caller swallows). *)
Definition silence (src : SourceNode) (c : Card) : Card :=
  setSounding (List.filter (fun s => negb (Nat.eqb s src)) (sounding c)) c.

(** [stopTts] *)
Definition stopTts (c : Card) : Card :=
  let c :=
    match ttsAudioRef c with
    | Some src => setTtsAudioRef None (silence src c)
    | None => c
    end in
  setActiveTtsSection None (setTtsStatus ttsIdle c).

(** [togglePlay]; [played] tells whether [audio.play()] starts the
    element (its rejection is only logged). *)
Definition togglePlay (played : bool) (c : Card) : Card :=
  match audioRef c with
  | Some el =>
      let c' :=
        if isPlaying c then setAudioRef (Some (mkAudio true)) c
        else
          let c1 := stopTts c in
          if played then setAudioRef (Some (mkAudio false)) c1 else c1 in
      setIsPlaying (negb (isPlaying c)) c'
  | None => c
  end.

(** [section === 'summary' ? note.summary
      : (note.translatedTranscription || note.transcription)] *)
Definition textToRead (section : TtsSection) (n : Note) : option string :=
  match section with
  | secSummary => n_summary n
  | secTranscription =>
      if Js.truthyOS (n_translatedTranscription n) then n_translatedTranscription n
      else Some (n_transcription n)
  end.

(** [handleReadAloud] up to its [await]: the new card and, when
    [generateSpeech] is called, the text passed to it. *)
Definition handleReadAloud (section : TtsSection) (c : Card) : Card * option string :=
  if match ttsStatus c, activeTtsSection c with
     | ttsPlaying, Some s => sectionEqb s section
     | _, _ => false
     end
  then (stopTts c, None)
  else
    let c := stopTts c in
    let c :=
      match isPlaying c, audioRef c with
      | true, Some _ => setIsPlaying false (setAudioRef (Some (mkAudio true)) c)
      | _, _ => c
      end in
    let c := setActiveTtsSection (Some section) (setTtsStatus ttsLoading c) in
    if Js.truthyOS (textToRead section (note c)) then (c, textToRead section (note c))
    else (setTtsStatus ttsIdle c, None).

(** How the awaited part of [handleReadAloud] ends: speech synthesised
    and decoded into the fresh node [src], [generateSpeech] rejected,
    or the decoding threw after the context was made. *)
Inductive Speech :=
| SpeechReady (src : SourceNode)
| SpeechFailed
| DecodeFailed.

(** [handleReadAloud] after its [await]. *)
Definition speechSettled (answer : Speech) (c : Card) : Card :=
  let failed (c : Card) : Card :=
    setActiveTtsSection None
      (setTtsStatus ttsIdle (setCardAlerts (cardAlerts c ++ ["Failed to read aloud."]) c)) in
  match answer with
  | SpeechReady src =>
      let c := setTtsContextRef true c in
      let c := setSounding (sounding c ++ [src]) c in
      let c := setTtsAudioRef (Some src) c in
      setTtsStatus ttsPlaying c
  | SpeechFailed => failed c
  | DecodeFailed => failed (setTtsContextRef true c)
  end.

(** [source.onended] *)
Definition sourceEnded (src : SourceNode) (c : Card) : Card :=
  setActiveTtsSection None (setTtsStatus ttsIdle (silence src c)).

(** The [onEnded] of the [<audio>] element. *)
Definition audioEnded (c : Card) : Card :=
  setIsPlaying false
    (match audioRef c with Some _ => setAudioRef (Some (mkAudio true)) c | None => c end).

(** A card as first rendered for a note whose audio has loaded. *)
Definition mount (n : Note) : Card :=
  mkCard n false ttsIdle None None false (Some (mkAudio true)) [] [].

(** Whether the card's recorded playback is audible. *)
Definition playbackAudible (c : Card) : bool :=
  match audioRef c with Some el => negb (paused el) | None => false end.

(** The number of audible sources of a card. *)
Definition audible (c : Card) : nat :=
  (if playbackAudible c then 1 else 0) + length (sounding c).

(** The deck: the cards of [filteredAndSortedNotes.map(note => <NoteCard .../>)]. *)
Definition Deck := list Card.

(** What a user does to the [i]-th card, and what then comes back to it. *)
Inductive CardEvent :=
| TogglePlay (played : bool)
| ReadAloud (section : TtsSection)
| SpeechSettled (answer : Speech)
| SourceEnded (src : SourceNode)
| AudioEnded.

Definition stepCard (e : CardEvent) (c : Card) : Card :=
  match e with
  | TogglePlay played => togglePlay played c
  | ReadAloud section => fst (handleReadAloud section c)
  | SpeechSettled answer => speechSettled answer c
  | SourceEnded src => sourceEnded src c
  | AudioEnded => audioEnded c
  end.

(** An event reaches the one card it is addressed to. *)
Fixpoint stepDeck (i : nat) (e : CardEvent) (d : Deck) : Deck :=
  match d, i with
  | [], _ => []
  | c :: d', O => stepCard e c :: d'
  | c :: d', S i' => c :: stepDeck i' e d'
  end.

Definition runDeck (d : Deck) (events : list (nat * CardEvent)) : Deck :=
  fold_left (fun d ie => stepDeck (fst ie) (snd ie) d) events d.

(** The number of audible sources of the whole view. *)
Definition audibleDeck (d : Deck) : nat :=
  fold_right (fun c n => (audible c + n)%nat) 0%nat d.

(** The card knows every source of its own that still sounds, and its
    [isPlaying] flag covers its audio element. *)
Definition tracked (c : Card) : Prop :=
  (forall s, In s (sounding c) -> ttsAudioRef c = Some s)
  /\ (playbackAudible c = true -> isPlaying c = true).

(** One card over time: the card and the calls of [generateSpeech] it
    waits for.  A press on a read-aloud button that goes as far as the
    [await] adds one; each of them goes on, once, when its speech has
    settled. *)
Record Session := mkSession {
  card : Card;
  pending : nat
}.

Definition stepSession (s : Session) (e : CardEvent) : Session :=
  match e with
  | ReadAloud section =>
      let '(c, request) := handleReadAloud section (card s) in
      mkSession c (match request with Some _ => S (pending s) | None => pending s end)
  | SpeechSettled answer =>
      match pending s with
      | S waiting => mkSession (speechSettled answer (card s)) waiting
      | O => s
      end
  | _ => mkSession (stepCard e (card s)) (pending s)
  end.

Definition runSession (s : Session) (events : list CardEvent) : Session :=
  fold_left stepSession events s.

(** The card of a note from its first render on. *)
Definition fresh (n : Note) : Session := mkSession (mount n) 0.

(** No button of the card is pressed while the card waits for speech. *)
Fixpoint pressesWait (s : Session) (events : list CardEvent) : bool :=
  match events with
  | [] => true
  | e :: rest =>
      match e with
      | ReadAloud _ | TogglePlay _ => Nat.eqb (pending s) 0
      | _ => true
      end
      && pressesWait (stepSession s e) rest
  end.

End NoteCard.

(* ===================================================================== *)
(** ** More of the application component (App) *)
(* ===================================================================== *)

(** [currentActiveFolder?.pin && !unlockedFolderIds.includes(activeView)]:
    whether the view shows the "Collection Locked" placeholder instead
    of the list. *)
Definition isViewLocked (st : App) : bool :=
  let currentActiveFolder :=
    Js.arrFind (fun f => String.eqb (f_id f) (activeView st)) (folders st) in
  Js.truthyOS (currentActiveFolder ≫= f_pin)
  && negb (Js.arrIncludes (unlockedFolderIds st) (activeView st)).

(** [x || d] for strings. *)
Definition orElse (x : option string) (d : string) : string :=
  match x with
  | Some s => if Js.truthyS s then s else d
  | None => d
  end.

(** [getActiveViewTitle] *)
Definition getActiveViewTitle (st : App) : string :=
  if String.eqb (activeView st) "all" then "Library"
  else if String.eqb (activeView st) "uncategorized" then "Uncategorized"
  else if String.eqb (activeView st) "favorites" then "Favorites"
  else
    orElse (option_map f_name
              (Js.arrFind (fun f => String.eqb (f_id f) (activeView st)) (folders st)))
           "Library".

(** The place named after "New session will be stored in" on the idle
    record bar. *)
Definition storedInLabel (st : App) : string :=
  if String.eqb (getActiveViewTitle st) "Library"
     || String.eqb (getActiveViewTitle st) "Uncategorized"
     || String.eqb (getActiveViewTitle st) "Favorites"
  then "Library" else getActiveViewTitle st.

(* ===================================================================== *)
(** ** More of the note card (NoteCard) *)
(* ===================================================================== *)

(** One element of [new Int16Array(data.buffer)]: two bytes, the low one
    first (the byte order of the hosts the program runs on), read as a
    signed 16-bit integer. *)
Definition int16 (lo hi : Byte.byte) : Z :=
  let u := Z.of_N (Byte.to_N lo) + 256 * Z.of_N (Byte.to_N hi) in
  if u <? 32768 then u else u - 65536.

(** [new Int16Array(data.buffer)]; [None] is the [RangeError] raised for
    a byte length that is not a multiple of 2. *)
Fixpoint int16Array (data : list Byte.byte) : option (list Z) :=
  match data with
  | [] => Some []
  | [_] => None
  | lo :: hi :: rest => option_map (cons (int16 lo hi)) (int16Array rest)
  end.

(** An [AudioBuffer]: its sample rate and one array of samples per
    channel.  A sample [v / 32768.0] of a 16-bit integer [v] is exact in
    the buffer's 32-bit floats; it is kept as the rational it is. *)
Record AudioBuffer := mkAudioBuffer {
  ab_sampleRate : Z;
  ab_channels : list (list Q)
}.

(** What the [BaseAudioContext] of the host supports.  [createBuffer]
    raises NotSupportedError for a channel count, a length or a sample
    rate that is zero, negative or outside its range: a count above
    [maxChannels], a rate outside [minSampleRate .. maxSampleRate].
    These limits are the host's; every host supports 32 channels and the
    rates from 8000 to 96000. *)
Record AudioHost := mkAudioHost {
  maxChannels : Z;
  minSampleRate : Z;
  maxSampleRate : Z
}.

(** The conversion of a number to [unsigned long], which the first two
    arguments of [createBuffer] go through, on an integer. *)
Definition toUint32 (x : Z) : Z := x mod 4294967296.

(** Whether [ctx.createBuffer(numberOfChannels, length, sampleRate)]
    makes a buffer, for converted arguments; [false] is its
    NotSupportedError. *)
Definition createBuffer (host : AudioHost) (numberOfChannels frames sampleRate : Z) : bool :=
  (1 <=? numberOfChannels) && (numberOfChannels <=? maxChannels host)
  && (1 <=? frames)
  && (0 <? sampleRate) && (minSampleRate host <=? sampleRate)
  && (sampleRate <=? maxSampleRate host).

(** The [length] that [createBuffer] receives for
    [frameCount = dataInt16.length / numChannels]: the integer part of
    the quotient, as an unsigned long (no quotient for no channel). *)
Definition bufferLength (samples numChannels : nat) : Z :=
  toUint32 (Z.of_nat samples / Z.of_nat numChannels).

(** [decodeRawPcm(data, ctx, sampleRate, numChannels)] for a channel
    count that is a natural number; [host] is what [ctx] supports.
    [None] stands for an exception: the [RangeError] of [int16Array],
    the NotSupportedError of [ctx.createBuffer], or the IndexSizeError of
    [buffer.getChannelData(channel)] on reaching a channel the buffer
    does not have, which happens when the conversion has cut the count
    down.  The loop over the frames writes the samples the buffer has
    room for; a write behind the end of the channel array is ignored. *)
Definition decodeRawPcm (host : AudioHost) (data : list Byte.byte) (sampleRate : Z)
    (numChannels : nat) : option AudioBuffer :=
  match int16Array data with
  | None => None
  | Some dataInt16 =>
      let channels := toUint32 (Z.of_nat numChannels) in
      let frames := bufferLength (length dataInt16) numChannels in
      if negb (createBuffer host channels frames sampleRate) then None
      else if channels <? Z.of_nat numChannels then None
      else
        Some (mkAudioBuffer sampleRate
                (map (fun channel =>
                        map (fun i => Qmake (nth (i * numChannels + channel) dataInt16 0) 32768)
                            (seq 0 (Z.to_nat frames)))
                     (seq 0 numChannels)))
  end.

(** [s.split(sep)] for a separator of one code unit. *)
Fixpoint splitOn (sep : ascii) (s : string) : list string :=
  match s with
  | EmptyString => [EmptyString]
  | String c s' =>
      if Ascii.eqb c sep then EmptyString :: splitOn sep s'
      else
        match splitOn sep s' with
        | [] => [String c EmptyString]
        | piece :: pieces => String c piece :: pieces
        end
  end.

(** [blob.type.split('/')[1]?.split(';')[0] || 'webm'] *)
Definition exportExtension (type : string) : string :=
  orElse (nth_error (splitOn "/" type) 1 ≫= fun subtype => head (splitOn ";" subtype))
         "webm".

(** The [download] name [handleExport] gives the file:
    [`${note.title || 'recording'}.${extension}`]. *)
Definition exportFileName (title : string) (type : string) : string :=
  (if Js.truthyS title then title else "recording") ++ "." ++ exportExtension type.

(* ===================================================================== *)
(** ** The visualizer of the record bar (AudioVisualizer) *)
(* ===================================================================== *)

Module AudioVisualizer.

(** [AudioContext.state] *)
Inductive CtxState := running | suspended | closed.

(** The refs of the component and what it did to the host: the state of
    every [AudioContext] it made (by identity), the frames it cancelled
    and the contexts it called [close()] on. *)
Record Visualizer := mkVisualizer {
  animationRef : option nat;
  audioCtxRef : option nat;
  contexts : gmap nat CtxState;
  cancelled : list nat;
  closeCalls : list nat
}.

(** [ctx.state !== 'closed'] *)
Definition notClosed (v : Visualizer) (ctx : nat) : bool :=
  match contexts v !! ctx with
  | Some closed => false
  | _ => true
  end.

(** [await ctx.close()] inside its [try]: [closes] tells whether the
    call closes the context or throws, which is swallowed. *)
Definition tryClose (closes : bool) (ctx : nat) (v : Visualizer) : Visualizer :=
  mkVisualizer (animationRef v) (audioCtxRef v)
    (if closes then <[ctx := closed]> (contexts v) else contexts v)
    (cancelled v) (closeCalls v ++ [ctx]).

(** [safeCloseContext] *)
Definition safeCloseContext (closes : bool) (v : Visualizer) : Visualizer :=
  let v :=
    match animationRef v with
    | Some frame =>
        mkVisualizer None (audioCtxRef v) (contexts v) (cancelled v ++ [frame]) (closeCalls v)
    | None => v
    end in
  match audioCtxRef v with
  | Some ctx =>
      let v := mkVisualizer (animationRef v) None (contexts v) (cancelled v) (closeCalls v) in
      if notClosed v ctx then tryClose closes ctx v else v
  | None => v
  end.

(** [draw], of the effect run whose flag is [isAborted]; [frame] is the
    handle [requestAnimationFrame] returns. *)
Definition draw (isAborted : bool) (frame : nat) (v : Visualizer) : Visualizer :=
  if isAborted || match audioCtxRef v with Some _ => false | None => true end then v
  else mkVisualizer (Some frame) (audioCtxRef v) (contexts v) (cancelled v) (closeCalls v).

(** [initAudio] from the point where the context is stored; it runs
    straight after the construction of a context that is not suspended,
    and after [resume()] has resolved otherwise.  [canvas] tells whether
    the canvas and its 2d context are there. *)
Definition initAudioRest (ctx : nat) (isAborted : bool) (canvas : bool) (frame : nat)
    (v : Visualizer) : Visualizer :=
  let v := mkVisualizer (animationRef v) (Some ctx) (contexts v) (cancelled v) (closeCalls v) in
  if canvas then draw isAborted frame v else v.

(** [initAudio] up to its first [await]: the new context [ctx] comes up
    in state [initial]; [isAborted] is the flag as read right after the
    construction.  The second component tells whether the function is
    now waiting for [resume()]. *)
Definition initAudioBegin (ctx : nat) (initial : CtxState) (isAborted : bool) (closes : bool)
    (canvas : bool) (frame : nat) (v : Visualizer) : Visualizer * bool :=
  let v :=
    mkVisualizer (animationRef v) (audioCtxRef v) (<[ctx := initial]> (contexts v))
      (cancelled v) (closeCalls v) in
  if isAborted then
    ((if notClosed v ctx then tryClose closes ctx v else v), false)
  else
    match initial with
    | suspended => (v, true)
    | _ => (initAudioRest ctx isAborted canvas frame v, false)
    end.

(** [resume()] resolved: the context runs and [initAudio] goes on. *)
Definition resumed (ctx : nat) (isAborted : bool) (canvas : bool) (frame : nat)
    (v : Visualizer) : Visualizer :=
  initAudioRest ctx isAborted canvas frame
    (mkVisualizer (animationRef v) (audioCtxRef v) (<[ctx := running]> (contexts v))
       (cancelled v) (closeCalls v)).

(** The component as first mounted. *)
Definition mounted : Visualizer := mkVisualizer None None ∅ [] [].

End AudioVisualizer.

(* ===================================================================== *)
(** ** Vocabulary of the properties *)
(* ===================================================================== *)

(** A query that is empty or made of white space only. *)
Definition blank (q : string) : bool := Js.allChars Js.isWhiteSpace q.

Definition pinned (n : Note) : bool := Js.truthyB (n_isPinned n).

(** No unpinned note stands in front of a pinned one. *)
Fixpoint pinnedFirst (l : list Note) : bool :=
  match l with
  | [] => true
  | a :: l' => (pinned a || forallb (fun b => negb (pinned b)) l') && pinnedFirst l'
  end.

(** A folder is locked: it has a PIN and its id is not in the unlocked set. *)
Definition locked (unlockedFolderIds : list string) (f : Folder) : bool :=
  Js.truthyOS (f_pin f) && negb (Js.arrIncludes unlockedFolderIds (f_id f)).

(** The view names a folder, not one of the three built-in views. *)
Definition folderView (v : ActiveView) : bool :=
  negb (String.eqb v "all" || String.eqb v "uncategorized" || String.eqb v "favorites").

(** A note carries no folder reference the program would follow. *)
Definition unfiled (n : Note) : bool := negb (Js.truthyOS (n_folderId n)).

(** A sample collation that ignores case before it compares code units,
    as the collations of [localeCompare] do at their first level. *)
Fixpoint compareUnits (a b : string) : Z :=
  match a, b with
  | EmptyString, EmptyString => 0
  | EmptyString, String _ _ => -1
  | String _ _, EmptyString => 1
  | String x a', String y b' =>
      if (nat_of_ascii x <? nat_of_ascii y)%nat then -1
      else if (nat_of_ascii y <? nat_of_ascii x)%nat then 1
      else compareUnits a' b'
  end.

Definition foldedCompare (a b : string) : Z :=
  compareUnits (Js.toLowerCase a) (Js.toLowerCase b).

(** The code-unit order, which is not locale aware. *)
Definition ordinalCompare (a b : string) : Z := compareUnits a b.

Definition titled (id title : string) (isPinned : bool) (timestamp : Z) : Note :=
  {| n_id := id; n_title := title; n_transcription := ""; n_summary := None;
     n_actionItems := None; n_tags := []; n_audioUrl := ""; n_timestamp := timestamp;
     n_duration := 0; n_isPinned := Some isPinned; n_isFavorite := Some false;
     n_folderId := None; n_translatedTranscription := None;
     n_translatedLanguage := None |}.

(** The three notes of the alphabetical scenario, in store order. *)
Definition fruitNotes : list Note :=
  [ titled "n1" "Banana" false 3; titled "n2" "apple" false 2; titled "n3" "Cherry" true 1 ].

(** Some folder of the list with id [X] is locked. *)
Definition folderLocked (folders : list Folder) (unlockedFolderIds : list string)
    (X : string) : Prop :=
  exists f, In f folders /\ f_id f = X /\ locked unlockedFolderIds f = true.

(** The note refers to folder [X]. *)
Definition refersTo (X : string) (n : Note) : Prop := n_folderId n = Some X.

(** What the PIN dialog may hold while it is being typed: at most four
    code units, all of them digits. *)
Definition pinInputOk (p : string) : bool :=
  (String.length p <=? 4)%nat && Js.allChars Js.isDigit p.

(** The invariant of the screen. *)
Definition screenOk (sc : Screen) : bool :=
  pinsWellFormed (app sc) && pinInputOk (pinInput sc).

(** A host that grants the microphone as stream [s], supports
    ["audio/webm"] only and lets the recorder start. *)
Definition grantingEnv (s : MediaStream) (now : Z) : StartEnv :=
  mkStartEnv (MediaGranted s) (fun type => Some (String.eqb type "audio/webm")) None None now.

(** The state one successful recording start leads to from the first page. *)
Definition recordingApp : App :=
  startRecording (activeView initialApp) (grantingEnv 1%nat 1000) initialApp.

(** The ids of the notes in the store. *)
Definition noteIds (st : App) : list string := map n_id (notes st).

(** The number of delete calls made for [id]. *)
Definition deletesOf (id : string) (log : list BlobOp) : nat :=
  length (List.filter (fun op => match op with
                                 | OpDelete id' => String.eqb id' id
                                 | OpSave _ _ => false
                                 end) log).

(** A note with a summary, for the cards of the examples. *)
Definition spoken (id : string) : Note :=
  {| n_id := id; n_title := "Memo"; n_transcription := "buy milk";
     n_summary := Some "shopping"; n_actionItems := None; n_tags := []; n_audioUrl := "";
     n_timestamp := 1; n_duration := 3; n_isPinned := Some false;
     n_isFavorite := Some false; n_folderId := None; n_translatedTranscription := None;
     n_translatedLanguage := None |}.

(** Two cards, as the view renders them for two notes. *)
Definition twoCards : NoteCard.Deck := [NoteCard.mount (spoken "a"); NoteCard.mount (spoken "b")].

(* ===================================================================== *)
(** ** Vocabulary of the further properties *)
(* ===================================================================== *)

(** The list [filteredAndSortedNotes] hands to [result.sort]: the view
    filter and the text filter applied, the order still the store's. *)
Definition filteredNotes (notes : list Note) (activeView : ActiveView) (searchQuery : string)
    (folders : list Folder) (unlockedFolderIds : list string) : list Note :=
  match viewFilter activeView (lockedFolderIds folders unlockedFolderIds) notes with
  | None => []
  | Some result => searchFilter searchQuery result
  end.

(** What each sort order promises of two notes [a], [b] with [a] in
    front, once the pinned flag is set aside. *)
Definition keyOrdered (lc : string -> string -> Z) (sortBy : SortOption) (a b : Note) : Prop :=
  match sortBy with
  | newest => n_timestamp b <= n_timestamp a
  | oldest => n_timestamp a <= n_timestamp b
  | longest => n_duration b <= n_duration a
  | shortest => n_duration a <= n_duration b
  | alphabetical => lc (n_title a) (n_title b) <= 0
  end.

(** A collation that never contradicts itself: if [x] sorts after [y]
    then [y] does not sort after [x], and "not after" is transitive. *)
Definition consistent (lc : string -> string -> Z) : Prop :=
  (forall x y, 0 < lc x y -> lc y x <= 0)
  /\ (forall x y z, lc x y <= 0 -> lc y z <= 0 -> lc x z <= 0).

(** Every element of the list is related to every later one. *)
Fixpoint inOrder {A : Type} (R : A -> A -> Prop) (l : list A) : Prop :=
  match l with
  | [] => True
  | a :: l' => Forall (R a) l' /\ inOrder R l'
  end.

(** The recorder delivering its chunks, one [ondataavailable] each. *)
Definition feed (datas : list Blob) (st : App) : App :=
  fold_left (fun st data => ondataavailable data st) datas st.

(** The active view is one of the three built-in views or names a folder
    of the list. *)
Definition viewExists (st : App) : bool :=
  negb (folderView (activeView st))
  || existsb (fun f => String.eqb (f_id f) (activeView st)) (folders st).

(** The byte with value [z mod 256]. *)
Definition byteOfZ (z : Z) : Byte.byte :=
  match Byte.of_N (Z.to_N (z mod 256)) with
  | Some b => b
  | None => Byte.x00
  end.

(** The two bytes of a decoded sample, low byte first: the inverse of
    the decoding. *)
Definition pcmBytes (sample : Q) : list Byte.byte :=
  [byteOfZ (Qnum sample); byteOfZ (Qnum sample / 256)].

(** The code unit [sep] does not occur in [s]. *)
Definition freeOf (sep : ascii) (s : string) : bool :=
  Js.allChars (fun c => negb (Ascii.eqb c sep)) s.

(** The events keep to one session of the page: none of them reloads it. *)
Definition sameSession (events : list Event) : bool :=
  forallb (fun e => match e with EvReload => false | _ => true end) events.

(** Folder [X] is open: its id is in the unlocked set, or no folder of
    that id carries a PIN. *)
Definition openFolder (X : string) (st : App) : Prop :=
  In X (unlockedFolderIds st)
  \/ forall f, In f (folders st) -> f_id f = X -> Js.truthyOS (f_pin f) = false.

(** A host that supports what every [BaseAudioContext] has to: 32
    channels and the sample rates from 8000 to 96000. *)
Definition conforming (host : AudioHost) : Prop :=
  32 <= maxChannels host /\ minSampleRate host <= 8000 /\ 96000 <= maxSampleRate host.

(** A host with exactly the support every host has. *)
Definition plainHost : AudioHost := mkAudioHost 32 8000 96000.

(** What a card keeps to while none of its buttons is pressed during a
    wait for speech: it refers to every source of its own that sounds,
    of which there is one at most, and its flag covers its audio element
    ([tracked]); at most one source of it is audible; it waits for one
    call at most, and while it waits nothing of it is audible. *)
Definition arbitrated (s : NoteCard.Session) : Prop :=
  NoteCard.tracked (NoteCard.card s)
  /\ (length (NoteCard.sounding (NoteCard.card s)) <= 1)%nat
  /\ (NoteCard.audible (NoteCard.card s) <= 1)%nat
  /\ (NoteCard.pending s <= 1)%nat
  /\ (NoteCard.pending s = 1%nat -> NoteCard.audible (NoteCard.card s) = 0%nat).

(* ===================================================================== *)
(** * Properties *)
(* ===================================================================== *)

(** ** Strings *)

Lemma trimStart_blank q : blank q = true -> Js.trimStart q = "".
Proof.
  induction q as [|c q IH]; cbn; [reflexivity|].
  intros H. apply andb_prop in H as [Hc Hq]. rewrite Hc. auto.
Qed.

Lemma trim_blank q : blank q = true -> Js.trim q = "".
Proof. intros H. unfold Js.trim. rewrite (trimStart_blank _ H). reflexivity. Qed.

Lemma arrIncludes_In l x : Js.arrIncludes l x = true <-> In x l.
Proof.
  unfold Js.arrIncludes. rewrite existsb_exists. split.
  - intros (y & Hy & He). apply String.eqb_eq in He. now subst.
  - intros H. exists x. split; [assumption | apply String.eqb_refl].
Qed.

(** ** The sort *)

Section SortFacts.
Context {A : Type} (cmp : A -> A -> Z).

Lemma insertSorted_perm x l : Permutation (Js.insertSorted cmp x l) (x :: l).
Proof.
  induction l as [|y l IH]; cbn; [reflexivity|].
  destruct (cmp x y <=? 0); [reflexivity|].
  rewrite IH. apply perm_swap.
Qed.

Lemma sort_perm l : Permutation (Js.sort cmp l) l.
Proof.
  induction l as [|x l IH]; cbn; [reflexivity|].
  rewrite insertSorted_perm. now constructor.
Qed.

Lemma sort_In l x : In x (Js.sort cmp l) <-> In x l.
Proof.
  split; apply Permutation_in; [apply sort_perm | symmetry; apply sort_perm].
Qed.

Lemma sort_nil_iff l : Js.sort cmp l = [] <-> l = [].
Proof.
  split; intros H.
  - apply Permutation_nil. rewrite <- H. apply sort_perm.
  - now subst.
Qed.

Lemma forallb_insertSorted p x l :
  forallb p (Js.insertSorted cmp x l) = p x && forallb p l.
Proof.
  induction l as [|y l IH]; cbn; [reflexivity|].
  destruct (cmp x y <=? 0); cbn; [reflexivity|].
  rewrite IH. destruct (p x), (p y); reflexivity.
Qed.
End SortFacts.

Section PinnedFirst.
Variable localeCompare : string -> string -> Z.
Variable sortBy : SortOption.

Lemma compareNotes_le a b :
  compareNotes localeCompare sortBy a b <= 0 -> pinned a = false -> pinned b = false.
Proof.
  unfold compareNotes, pinned. intros H Ha. rewrite Ha in H. cbn in H.
  destruct (Js.truthyB (n_isPinned b)); [cbn in H; lia | reflexivity].
Qed.

Lemma compareNotes_gt a b :
  0 < compareNotes localeCompare sortBy a b -> pinned b = false -> pinned a = false.
Proof.
  unfold compareNotes, pinned. intros H Hb. rewrite Hb in H. cbn in H.
  destruct (Js.truthyB (n_isPinned a)); [cbn in H; lia | reflexivity].
Qed.

Lemma pinnedFirst_insert x l :
  pinnedFirst l = true ->
  pinnedFirst (Js.insertSorted (compareNotes localeCompare sortBy) x l) = true.
Proof.
  induction l as [|y l IH]; intros Hl.
  - cbn. now rewrite orb_true_r.
  - cbn [Js.insertSorted].
    cbn [pinnedFirst] in Hl. apply andb_prop in Hl as [Hy Hl].
    destruct (Z.leb_spec (compareNotes localeCompare sortBy x y) 0) as [Hle|Hgt].
    + cbn [pinnedFirst]. rewrite Hy, Hl. cbn [andb]. rewrite andb_true_r.
      destruct (pinned x) eqn:Hx; [reflexivity|]. cbn [orb forallb].
      pose proof (compareNotes_le _ _ Hle Hx) as Hyu. rewrite Hyu in *. cbn in *.
      exact Hy.
    + cbn [pinnedFirst]. rewrite (IH Hl), andb_true_r.
      destruct (pinned y) eqn:Hyp; [reflexivity|]. cbn [orb] in *.
      rewrite forallb_insertSorted, Hy, andb_true_r.
      now rewrite (compareNotes_gt _ _ Hgt Hyp).
Qed.

Lemma pinnedFirst_sort l : pinnedFirst (Js.sort (compareNotes localeCompare sortBy) l) = true.
Proof.
  induction l as [|x l IH]; cbn; [reflexivity|]. now apply pinnedFirst_insert.
Qed.
End PinnedFirst.

Lemma pinnedFirst_order l :
  pinnedFirst l = true ->
  forall i j a b,
    nth_error l i = Some a -> nth_error l j = Some b ->
    pinned a = true -> pinned b = false -> (i < j)%nat.
Proof.
  induction l as [|x l IH]; intros Hl i j a b Hi Hj Ha Hb.
  - destruct i; discriminate.
  - cbn [pinnedFirst] in Hl. apply andb_prop in Hl as [Hx Hl].
    destruct i as [|i], j as [|j]; cbn in Hi, Hj.
    + congruence.
    + lia.
    + exfalso. injection Hj as ->. rewrite Hb in Hx. cbn in Hx.
      rewrite forallb_forall in Hx.
      specialize (Hx a (nth_error_In _ _ Hi)). rewrite Ha in Hx. discriminate.
    + specialize (IH Hl i j a b Hi Hj Ha Hb). lia.
Qed.

(** ** The view filter *)

Lemma lockedFolderIds_In folders unlocked X :
  In X (lockedFolderIds folders unlocked) <-> folderLocked folders unlocked X.
Proof.
  unfold lockedFolderIds, folderLocked, locked. rewrite in_map_iff. split.
  - intros (f & Hid & Hf). apply filter_In in Hf as [Hin Hl]. now exists f.
  - intros (f & Hin & Hid & Hl). exists f. split; [assumption|].
    apply filter_In. now split.
Qed.

Lemma lockedFolderIds_includes folders unlocked X :
  Js.arrIncludes (lockedFolderIds folders unlocked) X = true
  <-> folderLocked folders unlocked X.
Proof. rewrite arrIncludes_In. apply lockedFolderIds_In. Qed.

Lemma inFolder_refersTo X n : inFolder X n = true <-> refersTo X n.
Proof.
  unfold inFolder, refersTo. destruct (n_folderId n) as [fid|]; [|easy].
  rewrite String.eqb_eq. split; congruence.
Qed.

Lemma viewFilter_folder X lk notes :
  folderView X = true ->
  viewFilter X lk notes =
    if Js.arrIncludes lk X then None else Some (List.filter (inFolder X) notes).
Proof.
  unfold folderView, viewFilter. intros H. apply negb_true_iff in H.
  apply orb_false_iff in H as [H H3]. apply orb_false_iff in H as [H1 H2].
  now rewrite H1, H2, H3.
Qed.

Lemma searchFilter_blank q l : blank q = true -> searchFilter q l = l.
Proof. intros H. unfold searchFilter. now rewrite (trim_blank _ H). Qed.

Lemma folder_view_locked lc notes X q sortBy folders unlocked :
  folderView X = true -> folderLocked folders unlocked X ->
  filteredAndSortedNotes lc notes X q sortBy folders unlocked = [].
Proof.
  intros HX HL. unfold filteredAndSortedNotes. rewrite (viewFilter_folder _ _ _ HX).
  apply lockedFolderIds_includes in HL. now rewrite HL.
Qed.

Lemma folder_view_open lc notes X q sortBy folders unlocked :
  folderView X = true -> ~ folderLocked folders unlocked X ->
  filteredAndSortedNotes lc notes X q sortBy folders unlocked =
    Js.sort (compareNotes lc sortBy) (searchFilter q (List.filter (inFolder X) notes)).
Proof.
  intros HX HL. unfold filteredAndSortedNotes. rewrite (viewFilter_folder _ _ _ HX).
  destruct (Js.arrIncludes _ X) eqn:E; [|reflexivity].
  apply lockedFolderIds_includes in E. contradiction.
Qed.

Lemma folderLocked_dec folders unlocked X :
  folderLocked folders unlocked X \/ ~ folderLocked folders unlocked X.
Proof.
  destruct (Js.arrIncludes (lockedFolderIds folders unlocked) X) eqn:E.
  - left. now apply lockedFolderIds_includes.
  - right. intros H. apply lockedFolderIds_includes in H. congruence.
Qed.

Lemma unlocked_not_locked folders unlocked X :
  In X unlocked -> ~ folderLocked folders unlocked X.
Proof.
  intros Hin (f & _ & Hid & Hl). unfold locked in Hl.
  apply andb_prop in Hl as [_ Hl]. apply negb_true_iff in Hl.
  apply arrIncludes_In in Hin. congruence.
Qed.

(** ** C10 *)

(** C10.  A search query that is empty or made of white space only
    applies no text filter: for every notes list, view, sort order,
    folder list and unlocked set the visible list is the one computed
    for the empty query, which in turn is the sorted view filter. *)
Theorem blank_query_is_no_filter :
  forall lc notes view sortBy folders unlocked q,
    blank q = true ->
    filteredAndSortedNotes lc notes view q sortBy folders unlocked
    = filteredAndSortedNotes lc notes view "" sortBy folders unlocked
    /\ filteredAndSortedNotes lc notes view q sortBy folders unlocked
       = match viewFilter view (lockedFolderIds folders unlocked) notes with
         | None => []
         | Some result => Js.sort (compareNotes lc sortBy) result
         end.
Proof.
  intros lc notes view sortBy folders unlocked q Hq.
  unfold filteredAndSortedNotes.
  destruct (viewFilter view _ notes) as [result|]; [|now split].
  rewrite (searchFilter_blank _ _ Hq). now split.
Qed.

Lemma blank_query_is_no_filter_witness :
  let q := String "009" "  " in
  let notes := fruitNotes in
  blank q = true
  /\ filteredAndSortedNotes foldedCompare notes "all" q alphabetical [] []
     = filteredAndSortedNotes foldedCompare notes "all" "" alphabetical [] [].
Proof.
  cbv zeta. split; [reflexivity|].
  apply (blank_query_is_no_filter foldedCompare fruitNotes "all" alphabetical [] []
           (String "009" "  ")).
  reflexivity.
Defined.

(** ** C6 *)

(** C6.  Under every sort order every pinned note of the visible list
    stands before every unpinned one, whatever the collation; and with a
    locale-aware collation (one that puts "Banana" after "apple") the
    alphabetical order of the titles Banana, apple, Cherry with Cherry
    pinned is Cherry, apple, Banana. *)
Theorem pinned_notes_come_first :
  forall lc,
    (forall notes view q sortBy folders unlocked i j a b,
        let visible := filteredAndSortedNotes lc notes view q sortBy folders unlocked in
        nth_error visible i = Some a -> nth_error visible j = Some b ->
        pinned a = true -> pinned b = false -> (i < j)%nat)
    /\ (0 < lc "Banana" "apple" ->
        map n_title (filteredAndSortedNotes lc fruitNotes "all" "" alphabetical [] [])
        = ["Cherry"; "apple"; "Banana"]).
Proof.
  intros lc. split.
  - intros notes view q sortBy folders unlocked i j a b visible.
    apply pinnedFirst_order. subst visible. unfold filteredAndSortedNotes.
    destruct (viewFilter _ _ _); [apply pinnedFirst_sort | reflexivity].
  - intros Hgt. apply Z.leb_gt in Hgt.
    unfold filteredAndSortedNotes. cbn. now rewrite Hgt.
Qed.

Lemma pinned_notes_come_first_witness :
  map n_title (filteredAndSortedNotes foldedCompare fruitNotes "all" "" alphabetical [] [])
  = ["Cherry"; "apple"; "Banana"]
  /\ (0 < 2)%nat.
Proof.
  destruct (pinned_notes_come_first foldedCompare) as [Horder Hfruit]. split.
  - apply Hfruit; reflexivity.
  - apply (Horder fruitNotes "all" "" newest [] [] 0%nat 2%nat
             (titled "n3" "Cherry" true 1) (titled "n2" "apple" false 2));
      reflexivity.
Defined.

(** The code-unit order would give another answer: the scenario does
    depend on the collation being locale aware. *)
Example ordinal_order_differs :
  map n_title (filteredAndSortedNotes ordinalCompare fruitNotes "all" "" alphabetical [] [])
  = ["Cherry"; "Banana"; "apple"].
Proof. reflexivity. Qed.

(** ** C5 *)

Lemma append_one_neq {A} (l : list A) (x : A) : (l ++ [x])%list <> l.
Proof.
  intros H. apply (f_equal (@length A)) in H. rewrite length_app in H. cbn in H. lia.
Qed.

Lemma handlePinConfirm_enter st fid err f p attempt :
  pinModal st = Some (mkPinModal modeEnter fid err) ->
  Js.arrFind (fun g => String.eqb (f_id g) fid) (folders st) = Some f ->
  f_pin f = Some p ->
  handlePinConfirm attempt st =
    if String.eqb p attempt
    then setPinModal None (setUnlockedFolderIds (unlockedFolderIds st ++ [fid]) st)
    else setPinModal (Some (mkPinModal modeEnter fid (Some "Incorrect PIN"))) st.
Proof.
  intros Hm Hf Hp. unfold handlePinConfirm. rewrite Hm. cbn [pm_mode pm_folderId].
  rewrite Hf. cbn [mbind option_bind]. rewrite Hp. reflexivity.
Qed.

(** C5.  For a folder with a PIN, [authenticate] (the dialog confirming
    an attempt in mode "enter") adds the folder id to the unlocked set if
    and only if the attempt equals the PIN; a wrong attempt only records
    the error "Incorrect PIN" in the dialog state: the unlocked set, the
    folders and their PINs, and every other field stay as they were. *)
Theorem authenticate_iff_pin_matches :
  forall st fid err f p attempt,
    pinModal st = Some (mkPinModal modeEnter fid err) ->
    Js.arrFind (fun g => String.eqb (f_id g) fid) (folders st) = Some f ->
    f_pin f = Some p ->
    let st' := handlePinConfirm attempt st in
    (unlockedFolderIds st' = (unlockedFolderIds st ++ [fid])%list <-> attempt = p)
    /\ (attempt = p ->
        st' = setPinModal None (setUnlockedFolderIds (unlockedFolderIds st ++ [fid]) st))
    /\ (attempt <> p ->
        st' = setPinModal (Some (mkPinModal modeEnter fid (Some "Incorrect PIN"))) st
        /\ unlockedFolderIds st' = unlockedFolderIds st
        /\ folders st' = folders st)
    /\ folders st' = folders st.
Proof.
  intros st fid err f p attempt Hm Hf Hp st'. subst st'.
  rewrite (handlePinConfirm_enter _ _ _ _ _ attempt Hm Hf Hp).
  destruct (String.eqb_spec p attempt) as [->|Hne].
  - repeat split; try reflexivity; intros; try congruence.
  - repeat split; try reflexivity; intros; try congruence.
    cbn in *. exfalso. eapply append_one_neq. symmetry. eassumption.
Qed.

Lemma authenticate_iff_pin_matches_witness :
  let work := mkFolder "f1" "Work" 0 (Some "1234") in
  let st := setPinModal (Some (mkPinModal modeEnter "f1" None)) (setFolders [work] initialApp) in
  unlockedFolderIds (handlePinConfirm "1234" st) = ["f1"]
  /\ unlockedFolderIds (handlePinConfirm "1235" st) = []
  /\ folders (handlePinConfirm "1235" st) = [work].
Proof.
  cbv zeta.
  pose (work := mkFolder "f1" "Work" 0 (Some "1234")).
  pose (st := setPinModal (Some (mkPinModal modeEnter "f1" None)) (setFolders [work] initialApp)).
  destruct (authenticate_iff_pin_matches st "f1" None work "1234" "1234"
              eq_refl eq_refl eq_refl) as (Hiff & _).
  destruct (authenticate_iff_pin_matches st "f1" None work "1234" "1235"
              eq_refl eq_refl eq_refl) as (_ & _ & Hwrong & _).
  split; [apply Hiff; reflexivity|].
  destruct Hwrong as (_ & Hu & Hfo); [discriminate|].
  split; [exact Hu | exact Hfo].
Defined.

(** ** C4 *)

(** The claim reads "the folder view is empty exactly when the folder is
    locked".  A folder without a PIN that no note refers to has an empty
    view all the same. *)
Lemma empty_view_of_unlocked_folder :
  let work := mkFolder "f1" "Work" 0 None in
  isFolderLocked [work] [] (Some "f1") = false
  /\ filteredAndSortedNotes foldedCompare [] "f1" "" newest [work] [] = []
  /\ ~ (filteredAndSortedNotes foldedCompare [] "f1" "" newest [work] [] = []
        <-> (Js.truthyOS (f_pin work) = true /\ ~ In (f_id work) [])).
Proof.
  cbv zeta. split; [reflexivity|]. split; [reflexivity|].
  intros [H _]. destruct (H eq_refl) as [Hpin _]. discriminate.
Qed.

(** C4, amended.  For every notes list, folder list, unlocked set and
    sort order, and every folder view X:
    - when folder X is locked the view is empty, under every query;
    - when it is not, the view (empty query) holds exactly the notes
      that refer to X;
    - hence, when some note refers to X, the view is empty exactly when
      X is locked;
    - a successful [authenticate] on X changes the unlocked set (X is
      appended) and closes the dialog, nothing else, and afterwards the
      view of X holds exactly the notes that refer to X;
    - the "all" view holds exactly the notes that have no folder or
      whose folder is not locked. *)
Theorem folder_views_respect_locks :
  forall lc sortBy,
    (forall notes folders unlocked X,
        folderView X = true ->
        let view q := filteredAndSortedNotes lc notes X q sortBy folders unlocked in
        (folderLocked folders unlocked X -> forall q, view q = [])
        /\ (~ folderLocked folders unlocked X ->
            forall n, In n (view "") <-> In n notes /\ refersTo X n)
        /\ ((exists n, In n notes /\ refersTo X n) ->
            (view "" = [] <-> folderLocked folders unlocked X)))
    /\ (forall st X err f p,
           folderView X = true ->
           pinModal st = Some (mkPinModal modeEnter X err) ->
           Js.arrFind (fun g => String.eqb (f_id g) X) (folders st) = Some f ->
           f_pin f = Some p ->
           let st' := handlePinConfirm p st in
           st' = setPinModal None (setUnlockedFolderIds (unlockedFolderIds st ++ [X]) st)
           /\ forall n,
               In n (filteredAndSortedNotes lc (notes st') X "" sortBy (folders st')
                       (unlockedFolderIds st'))
               <-> In n (notes st) /\ refersTo X n)
    /\ (forall notes folders unlocked n,
           In n (filteredAndSortedNotes lc notes "all" "" sortBy folders unlocked)
           <-> In n notes
               /\ (unfiled n = true
                   \/ exists fid, n_folderId n = Some fid
                                  /\ ~ folderLocked folders unlocked fid)).
Proof.
  intros lc sortBy. split; [|split].
  - intros notes folders unlocked X HX view. subst view. split; [|split].
    + intros HL q. now apply folder_view_locked.
    + intros HL n. rewrite (folder_view_open _ _ _ _ _ _ _ HX HL).
      rewrite sort_In. cbn. rewrite filter_In. now rewrite inFolder_refersTo.
    + intros (n & Hin & Hn). split.
      * intros Hempty. destruct (folderLocked_dec folders unlocked X) as [|HL]; [assumption|].
        exfalso. rewrite (folder_view_open _ _ _ _ _ _ _ HX HL) in Hempty.
        apply sort_nil_iff in Hempty. cbn in Hempty.
        assert (Hf : In n (List.filter (inFolder X) notes)).
        { apply filter_In. split; [assumption | now apply inFolder_refersTo]. }
        rewrite Hempty in Hf. destruct Hf.
      * intros HL. now apply folder_view_locked.
  - intros st X err f p HX Hm Hf Hp st'.
    subst st'. rewrite (handlePinConfirm_enter _ _ _ _ _ p Hm Hf Hp), String.eqb_refl.
    split; [reflexivity|].
    intros n. cbn.
    rewrite folder_view_open; [| assumption |].
    + rewrite sort_In. cbn. rewrite filter_In. now rewrite inFolder_refersTo.
    + apply unlocked_not_locked. apply in_or_app. right. now left.
  - intros notes folders unlocked n. unfold filteredAndSortedNotes. cbn.
    rewrite sort_In, filter_In. unfold folderOpen, unfiled.
    split; intros [Hin H]; (split; [assumption|]).
    + apply orb_prop in H as [H|H]; [now left|].
      destruct (n_folderId n) as [fid|] eqn:E; [|now left].
      right. exists fid. split; [reflexivity|].
      apply negb_true_iff in H. intros HL.
      apply lockedFolderIds_includes in HL. congruence.
    + destruct H as [H | (fid & E & HL)]; [now rewrite H|].
      rewrite E. apply orb_true_iff. right. apply negb_true_iff.
      destruct (Js.arrIncludes _ fid) eqn:I; [|reflexivity].
      apply lockedFolderIds_includes in I. contradiction.
Qed.

Lemma folder_views_respect_locks_witness :
  let F := mkFolder "F" "Private" 0 (Some "1234") in
  let N := withFolderId (Some "F") (titled "N" "Diary" false 1) in
  let st := setPinModal (Some (mkPinModal modeEnter "F" None))
              (setNotes [N] (setFolders [F] initialApp)) in
  filteredAndSortedNotes foldedCompare [N] "F" "" newest [F] [] = []
  /\ In N (filteredAndSortedNotes foldedCompare (notes (handlePinConfirm "1234" st)) "F" ""
             newest (folders (handlePinConfirm "1234" st))
             (unlockedFolderIds (handlePinConfirm "1234" st))).
Proof.
  cbv zeta.
  pose (F := mkFolder "F" "Private" 0 (Some "1234")).
  pose (N := withFolderId (Some "F") (titled "N" "Diary" false 1)).
  pose (st := setPinModal (Some (mkPinModal modeEnter "F" None))
                (setNotes [N] (setFolders [F] initialApp))).
  destruct (folder_views_respect_locks foldedCompare newest) as (Hview & Hauth & _).
  split.
  - destruct (Hview [N] [F] [] "F" eq_refl) as (Hlocked & _).
    apply Hlocked. exists F. repeat split. now left.
  - destruct (Hauth st "F" None F "1234" eq_refl eq_refl eq_refl eq_refl) as (_ & Hin).
    apply Hin. split; [now left | reflexivity].
Defined.

(** ** C9 *)

Lemma stripNonDigits_digits v : Js.allChars Js.isDigit (Js.stripNonDigits v) = true.
Proof.
  induction v as [|c v IH]; cbn; [reflexivity|].
  destruct (Js.isDigit c) eqn:E; cbn; [now rewrite E | assumption].
Qed.

Lemma onChange_ok value pin :
  pinInputOk pin = true -> pinInputOk (PinModal.onChange value pin) = true.
Proof.
  intros H. unfold PinModal.onChange.
  destruct (String.length (Js.stripNonDigits value) <=? 4)%nat eqn:E; [|assumption].
  unfold pinInputOk. now rewrite E, stripNonDigits_digits.
Qed.

Lemma forallb_filter_keep {A} (p q : A -> bool) l :
  forallb p l = true -> forallb p (List.filter q l) = true.
Proof.
  rewrite !forallb_forall. intros H x Hx. apply filter_In in Hx as [Hx _]. auto.
Qed.

Lemma forallb_map_keep {A} (p : A -> bool) (g : A -> A) l :
  (forall x, p x = true -> p (g x) = true) ->
  forallb p l = true -> forallb p (map g l) = true.
Proof.
  intros Hg. rewrite !forallb_forall. intros H x Hx.
  apply in_map_iff in Hx as (y & <- & Hy). auto.
Qed.

(** Case analysis on every test a handler makes. *)
Ltac split_tests :=
  repeat (cbn;
          match goal with
          | |- context [match ?x with _ => _ end] => destruct x eqn:?
          end);
  cbn.

Lemma handlePinConfirm_ok pin st :
  (String.length pin =? 4)%nat = true -> Js.allChars Js.isDigit pin = true ->
  pinsWellFormed st = true -> pinsWellFormed (handlePinConfirm pin st) = true.
Proof.
  intros Hlen Hdig Hst. unfold handlePinConfirm, pinsWellFormed in *.
  destruct (pinModal st) as [modal|]; [|assumption].
  destruct (pm_mode modal).
  - cbn. apply forallb_map_keep; [|assumption].
    intros f Hf. destruct (String.eqb (f_id f) (pm_folderId modal)); [|assumption].
    unfold pinWellFormed. cbn. now rewrite Hlen, Hdig.
  - cbn. destruct (strictEqOS _ pin); assumption.
Qed.

Lemma stepApp_ok e pin waiting st :
  pinInputOk pin = true -> pinsWellFormed st = true ->
  pinsWellFormed (stepApp e pin waiting st) = true.
Proof.
  intros Hpin Hst. unfold pinsWellFormed in *.
  destruct e; cbn [stepApp]; try assumption.
  - (* createFolder *)
    unfold createFolder. destruct (Js.truthyS _); cbn; [|assumption].
    rewrite forallb_app, Hst. reflexivity.
  - (* handleFolderClick *)
    destruct (folderAt i st); [|assumption].
    unfold handleFolderClick. destruct (_ && _); assumption.
  - (* toggleFolderLock *)
    destruct (folderAt i st) as [f|]; [|assumption].
    unfold toggleFolderLock. destruct (Js.truthyOS _); [|assumption].
    destruct confirmed; [|assumption]. cbn.
    apply forallb_map_keep; [|assumption].
    intros g Hg. destruct (String.eqb _ _); [reflexivity | assumption].
  - (* deleteFolder *)
    destruct (folderAt i st) as [f|]; [|assumption].
    unfold deleteFolder. destruct confirmed; [|assumption]. cbn.
    destruct (String.eqb _ _); cbn; now apply forallb_filter_keep.
  - (* enterPin *)
    unfold enterPin. split_tests; assumption.
  - (* submit *)
    destruct (pinModal st); [|assumption].
    unfold PinModal.handleSubmit.
    destruct (String.length pin =? 4)%nat eqn:Hlen; [|assumption].
    apply handlePinConfirm_ok; try assumption.
    unfold pinInputOk in Hpin. now apply andb_prop in Hpin as [_ ?].
  - (* pinCancel *)
    unfold pinCancel. split_tests; assumption.
  - (* deleteNote *)
    unfold deleteNote. split_tests; assumption.
  - (* startSettled *)
    unfold startSettled, startRecording. split_tests; assumption.
  - (* stopRecording *)
    unfold stopRecording. split_tests; assumption.
  - (* ondataavailable *)
    unfold ondataavailable. split_tests; assumption.
  - (* timerTick *)
    unfold timerTick. split_tests; assumption.
  - (* onstopSaved *)
    unfold onstopSaved. split_tests; assumption.
  - (* onloadend *)
    unfold onloadend, transcribeSettled. split_tests; assumption.
Qed.

Lemma step_ok sc e : screenOk sc = true -> screenOk (step sc e) = true.
Proof.
  unfold screenOk. intros H. apply andb_prop in H as [Hf Hp].
  unfold step. cbn [app pinInput].
  rewrite (stepApp_ok e _ (starting sc) _ Hp Hf). cbn [andb].
  destruct (pinModal (stepApp e (pinInput sc) (starting sc) (app sc))); [|reflexivity].
  destruct e; try assumption.
  destruct (pinModal (app sc)); [now apply onChange_ok | assumption].
Qed.

Lemma run_ok events : forall sc, screenOk sc = true -> screenOk (run sc events) = true.
Proof.
  induction events as [|e events IH]; intros sc H; [assumption|].
  cbn. apply IH. now apply step_ok.
Qed.

Lemma handlePinConfirm_stores pin st fid err f :
  pinModal st = Some (mkPinModal modeSet fid err) ->
  In f (folders (handlePinConfirm pin st)) -> f_id f = fid -> f_pin f = Some pin.
Proof.
  intros Hm Hin Hid. unfold handlePinConfirm in Hin. rewrite Hm in Hin. cbn in Hin.
  apply in_map_iff in Hin as (g & Hg & _).
  destruct (String.eqb_spec (f_id g) fid) as [_|Hne].
  - now subst f.
  - subst f. contradiction.
Qed.

(** C9.  Every folder that has a PIN has one of exactly four digits, in
    every state the screen reaches from a state where that holds (the
    first page, with nothing stored, is one):
    - the PIN entry keeps only digits and never more than four of them,
    - the dialog confirms only a PIN of length four,
    - setting a PIN stores exactly the confirmed string in the folder the
      dialog was opened for,
    - and no other event of the application writes a PIN. *)
Theorem folder_pins_are_four_digits :
  (forall value pin,
      pinInputOk pin = true -> pinInputOk (PinModal.onChange value pin) = true)
  /\ (forall pin (onConfirm : string -> App -> App) st,
         String.length pin <> 4%nat -> PinModal.handleSubmit pin onConfirm st = st)
  /\ (forall pin st fid err f,
         pinModal st = Some (mkPinModal modeSet fid err) ->
         In f (folders (handlePinConfirm pin st)) -> f_id f = fid -> f_pin f = Some pin)
  /\ (forall sc events,
         screenOk sc = true ->
         forall f p,
           In f (folders (app (run sc events))) -> f_pin f = Some p ->
           String.length p = 4%nat /\ Js.allChars Js.isDigit p = true)
  /\ screenOk initialScreen = true.
Proof.
  split; [exact onChange_ok|]. split; [|split; [exact handlePinConfirm_stores|split]].
  - intros pin onConfirm st Hlen. unfold PinModal.handleSubmit.
    destruct (Nat.eqb_spec (String.length pin) 4); [contradiction | reflexivity].
  - intros sc events Hsc f p Hin Hp.
    pose proof (run_ok events sc Hsc) as Hok. unfold screenOk in Hok.
    apply andb_prop in Hok as [Hok _]. unfold pinsWellFormed in Hok.
    rewrite forallb_forall in Hok. specialize (Hok f Hin).
    unfold pinWellFormed in Hok. rewrite Hp in Hok.
    apply andb_prop in Hok as [Hlen Hdig]. apply Nat.eqb_eq in Hlen. now split.
  - reflexivity.
Qed.

(** A folder is created, the lock icon opens the dialog, "12a34" is
    pasted and confirmed: the PIN stored is "1234". *)
Lemma folder_pins_are_four_digits_witness :
  let events :=
    [ EvAddFolder; EvNewFolderName "Work"; EvCreateFolder "f1" 0;
      EvToggleFolderLock 0 true; EvPinChange "12a34"; EvPinSubmit ] in
  folders (app (run initialScreen events)) = [mkFolder "f1" "Work" 0 (Some "1234")]
  /\ String.length "1234" = 4%nat /\ Js.allChars Js.isDigit "1234" = true.
Proof.
  cbv zeta. split; [reflexivity|].
  destruct folder_pins_are_four_digits as (_ & _ & _ & Hreach & Hinit).
  apply (Hreach initialScreen
           [ EvAddFolder; EvNewFolderName "Work"; EvCreateFolder "f1" 0;
             EvToggleFolderLock 0 true; EvPinChange "12a34"; EvPinSubmit ]
           Hinit (mkFolder "f1" "Work" 0 (Some "1234")) "1234").
  - now left.
  - reflexivity.
Defined.

(** ** C2 *)

(** C2.  The claim fails on the code.  The start button is clicked
    twice while the bar renders it: the status is IDLE until a call of
    [startRecording] has gone past its [await], and the body has no test
    of the status.  Both calls are granted a stream.  The first makes
    the status RECORDING; the second then runs in that state and is no
    no-op: a second stream is live, a second recorder records, and the
    recorder and stream references are replaced.  The stop button then
    stops the second session alone: the first stream stays live and the
    first recorder goes on recording. *)
Theorem two_clicks_start_two_sessions :
  let first :=
    run initialScreen [EvStartClick; EvStartClick; EvStartSettled 0 (grantingEnv 1%nat 1000)] in
  let second := step first (EvStartSettled 0 (grantingEnv 2%nat 2000)) in
  let stopped := step second EvStopClick in
  starting (run initialScreen [EvStartClick; EvStartClick]) = ["all"; "all"]
  /\ status (app (run initialScreen [EvStartClick; EvStartClick])) = IDLE
  /\ starting first = ["all"]
  /\ status (app first) = RECORDING
  /\ liveStreams (app first) = [1%nat]
  /\ recorders (app first) = [mkRecorder 1%nat "audio/webm" "all"]
  /\ app second <> app first
  /\ status (app second) = RECORDING
  /\ liveStreams (app second) = [1%nat; 2%nat]
  /\ recorders (app second)
     = [mkRecorder 1%nat "audio/webm" "all"; mkRecorder 2%nat "audio/webm" "all"]
  /\ mediaRecorderRef (app second) = Some (mkRecorder 2%nat "audio/webm" "all")
  /\ stream (app second) = Some 2%nat
  /\ liveStreams (app stopped) = [1%nat]
  /\ recorders (app stopped) = [mkRecorder 1%nat "audio/webm" "all"]
  /\ mediaRecorderRef (app stopped) = Some (mkRecorder 2%nat "audio/webm" "all").
Proof.
  cbv zeta.
  split; [reflexivity|]. split; [reflexivity|]. split; [reflexivity|].
  split; [reflexivity|]. split; [reflexivity|]. split; [reflexivity|].
  split; [intros H; apply (f_equal liveStreams) in H; discriminate H|].
  split; [reflexivity|]. split; [reflexivity|]. split; [reflexivity|].
  split; [reflexivity|]. split; [reflexivity|]. split; [reflexivity|].
  split; reflexivity.
Qed.

(** ** C3 *)

Lemma filter_out_unique_id id (l : list Note) :
  List.NoDup (map n_id l) -> In id (map n_id l) ->
  (length (List.filter (fun n => negb (String.eqb (n_id n) id)) l) + 1)%nat = length l.
Proof.
  induction l as [|n l IH]; intros Hnd Hin; [destruct Hin|].
  cbn in Hnd. apply NoDup_cons_iff in Hnd as [Hn Hnd]. cbn [List.filter].
  destruct (String.eqb_spec (n_id n) id) as [He|Hne]; cbn.
  - subst id. rewrite Nat.add_1_r. f_equal.
    clear IH Hin Hnd. induction l as [|m l IH]; [reflexivity|].
    cbn. cbn in Hn. destruct (String.eqb_spec (n_id m) (n_id n)) as [E|E]; cbn.
    + exfalso. apply Hn. now left.
    + f_equal. apply IH. intros H. apply Hn. now right.
  - f_equal. apply IH; [assumption|]. destruct Hin as [E|H]; [contradiction | assumption].
Qed.

(** What [deleteNote] does for a note id of a store whose ids are
    pairwise distinct.  A confirmed call issues exactly one blob delete
    for that id.  When that call resolves, exactly one entry leaves the
    store (the entries that remain are the ones with another id) and the
    blob is gone.  When it rejects, the function ends at its [await]:
    the store keeps the note and no message is shown.  A declined
    confirmation changes nothing. *)
Lemma deleteNote_by_outcome :
  forall st id,
    List.NoDup (noteIds st) -> In id (noteIds st) ->
    (let st' := deleteNote id true Resolved st in
     (length (notes st') + 1)%nat = length (notes st)
     /\ ~ In id (noteIds st')
     /\ (forall n, In n (notes st') <-> In n (notes st) /\ n_id n <> id)
     /\ blobLog st' = (blobLog st ++ [OpDelete id])%list
     /\ deletesOf id (blobLog st') = S (deletesOf id (blobLog st))
     /\ storeGet id (blobStore st') = None)
    /\ (forall message,
           let st' := deleteNote id true (Rejected message) st in
           notes st' = notes st
           /\ blobLog st' = (blobLog st ++ [OpDelete id])%list
           /\ deletesOf id (blobLog st') = S (deletesOf id (blobLog st))
           /\ blobStore st' = blobStore st
           /\ alerts st' = alerts st)
    /\ (forall deleted, deleteNote id false deleted st = st).
Proof.
  intros st id Hnd Hin.
  assert (Hlog : deletesOf id (blobLog st ++ [OpDelete id]) = S (deletesOf id (blobLog st))).
  { unfold deletesOf. rewrite List.filter_app, length_app. cbn.
    rewrite String.eqb_refl. cbn. lia. }
  split; [|split].
  - cbn. repeat split.
    + now apply filter_out_unique_id.
    + unfold noteIds. cbn. rewrite in_map_iff. intros (n & Hid & Hn).
      apply filter_In in Hn as [_ Hn]. apply negb_true_iff in Hn.
      apply String.eqb_neq in Hn. contradiction.
    + apply filter_In in H. tauto.
    + apply filter_In in H as [_ H]. apply negb_true_iff in H.
      now apply String.eqb_neq in H.
    + intros [H1 H2]. apply filter_In. split; [assumption|].
      apply negb_true_iff. now apply String.eqb_neq.
    + exact Hlog.
    + unfold storeGet, storeDelete. apply lookup_delete_eq.
  - intros message. cbn. repeat split. exact Hlog.
  - reflexivity.
Qed.

(** C3.  The claim fails on the code where the blob delete fails.
    [deleteNote] awaits [deleteAudioBlob(id)] with no [try] around it,
    and no statement of it logs or reports anything.  With the call
    rejecting, the function ends at the [await]: the one delete was
    issued, the note is still in the store and no message was shown.
    With the same call resolving, the note is gone. *)
Theorem failed_blob_delete_keeps_the_note :
  let n := titled "n1" "Memo" false 1 in
  let st := setNotes [n] initialApp in
  let st' := deleteNote "n1" true (Rejected "AbortError") st in
  In "n1" (noteIds st)
  /\ blobLog st' = [OpDelete "n1"]
  /\ In n (notes st')
  /\ notes st' = notes st
  /\ alerts st' = []
  /\ notes (deleteNote "n1" true Resolved st) = [].
Proof.
  cbv zeta.
  split; [now left|]. split; [reflexivity|]. split; [now left|].
  split; [reflexivity|]. split; reflexivity.
Qed.

(** ** C7 *)

(** C7.  A recording whose blob was stored under a fresh note id and
    whose transcription then fails leaves no note with that id in the
    store (the notes are untouched), leaves the blob in the blob store
    (no delete is ever issued: the only call made is the save), and
    brings the status back to IDLE.  The same holds for the continuation
    alone, whatever happened to the state while the call was pending. *)
Theorem failed_transcription_keeps_blob_and_creates_no_note :
  forall recorder stopTime noteId dataUrl message noteTime st,
    ~ In noteId (noteIds st) ->
    let blob := concatChunks (chunksRef st) (mr_mimeType recorder) in
    let st' := onstop recorder stopTime noteId Resolved (Some dataUrl)
                 (TranscribeFailed message) noteTime st in
    notes st' = notes st
    /\ ~ In noteId (noteIds st')
    /\ storeGet noteId (blobStore st') = Some blob
    /\ blobLog st' = (blobLog st ++ [OpSave noteId blob])%list
    /\ deletesOf noteId (blobLog st') = deletesOf noteId (blobLog st)
    /\ status st' = IDLE
    /\ (forall job later,
           let settled := transcribeSettled job (TranscribeFailed message) noteTime later in
           notes settled = notes later
           /\ blobStore settled = blobStore later
           /\ blobLog settled = blobLog later
           /\ status settled = IDLE).
Proof.
  intros recorder stopTime noteId dataUrl message noteTime st Hfresh blob st'.
  subst st' blob. cbn. repeat split; try assumption.
  - unfold storeGet, storePut. apply lookup_insert_eq.
  - unfold deletesOf. rewrite List.filter_app, length_app. cbn. lia.
Qed.

(** The scenario of the specification: id "abc123". *)
Lemma failed_transcription_keeps_blob_and_creates_no_note_witness :
  let r := mkRecorder 1%nat "audio/webm" "all" in
  let chunk := mkBlob [Byte.x01; Byte.x02] "audio/webm" in
  let st := ondataavailable chunk recordingApp in
  let st' := onstop r 5000 "abc123" Resolved (Some "data:audio/webm;base64,AQI=")
               (TranscribeFailed "Failed to process audio. Please try again.") 6000 st in
  ~ In "abc123" (noteIds st')
  /\ storeGet "abc123" (blobStore st') = Some (mkBlob [Byte.x01; Byte.x02] "audio/webm")
  /\ status st' = IDLE.
Proof.
  cbv zeta.
  pose (r := mkRecorder 1%nat "audio/webm" "all").
  pose (st := ondataavailable (mkBlob [Byte.x01; Byte.x02] "audio/webm") recordingApp).
  assert (Hfresh : ~ In "abc123" (noteIds st)) by (intros []).
  destruct (failed_transcription_keeps_blob_and_creates_no_note
              r 5000 "abc123" "data:audio/webm;base64,AQI="
              "Failed to process audio. Please try again." 6000 st Hfresh)
    as (_ & Hno & Hblob & _ & _ & Hidle & _).
  split; [exact Hno | split; [exact Hblob | exact Hidle]].
Defined.

(** ** C8 *)

Lemma targetFolder_folderView v :
  targetFolder v = if folderView v then Some v else None.
Proof. unfold targetFolder, folderView. now destruct (_ || _). Qed.

Lemma started_recorder_remembers_view view env st r :
  status st = IDLE ->
  status (startRecording view env st) = RECORDING ->
  mediaRecorderRef (startRecording view env st) = Some r ->
  mr_activeView r = view.
Proof.
  unfold startRecording. intros Hidle.
  destruct (env_getUserMedia env) as [s|name message]; cbn.
  - destruct (Js.truthyS _); cbn.
    + destruct (env_construct env); cbn; [discriminate|].
      destruct (env_start env); cbn; [discriminate|].
      intros _ H. injection H as <-. reflexivity.
    + rewrite Hidle. discriminate.
  - rewrite Hidle. discriminate.
Qed.

Lemma started_recorder_ignores_query view env query st :
  mediaRecorderRef (startRecording view env (setSearchQuery query st))
  = mediaRecorderRef (startRecording view env st).
Proof.
  unfold startRecording.
  destruct (env_getUserMedia env); [|reflexivity].
  destruct (negb _); [reflexivity|].
  destruct (env_construct env); [reflexivity|].
  destruct (env_start env); reflexivity.
Qed.

(** C8.  When a recording started from the record bar completes, the
    note that is created is put in front of the store with, as folder
    reference, the view that was active when the start button was
    pressed if that view is a folder, and none if it is "all",
    "uncategorized" or "favorites".  Nothing else enters the assignment:
    not the search query at the start, not the state in which the
    microphone was granted ([granted]), not the state at the time the
    recording stops and is transcribed ([st]), views and queries
    included.  The click itself leaves the state as it is and makes the
    call wait under the view of the page it was made in; once the
    microphone is granted the call goes on as [startRecording] of that
    view, on the state of that moment. *)
Theorem new_note_folder_is_the_view_at_start :
  forall pressed granted env recorder,
    recordBar (status pressed) = StartButton ->
    status granted = IDLE ->
    status (startRecording (activeView pressed) env granted) = RECORDING ->
    mediaRecorderRef (startRecording (activeView pressed) env granted) = Some recorder ->
    forall st stopTime noteId dataUrl data noteTime,
      let st' := onstop recorder stopTime noteId Resolved (Some dataUrl)
                   (TranscribeOk data) noteTime st in
      exists n,
        notes st' = n :: notes st
        /\ n_id n = noteId
        /\ n_title n = r_suggestedTitle data
        /\ n_folderId n
           = (if folderView (activeView pressed) then Some (activeView pressed) else None)
        /\ (forall pin waiting,
               app (step (mkScreen pressed pin waiting) EvStartClick) = pressed
               /\ starting (step (mkScreen pressed pin waiting) EvStartClick)
                  = (waiting ++ [activeView pressed])%list
               /\ app (step (mkScreen granted pin (waiting ++ [activeView pressed])%list)
                          (EvStartSettled (length waiting) env))
                  = startRecording (activeView pressed) env granted)
        /\ forall query,
            mediaRecorderRef
              (startRecording (activeView (setSearchQuery query pressed)) env
                 (setSearchQuery query granted))
            = Some recorder.
Proof.
  intros pressed granted env recorder Hbar Hidle Hrec Href
         st stopTime noteId dataUrl data noteTime st'.
  pose proof (started_recorder_remembers_view _ _ _ _ Hidle Hrec Href) as Hview.
  subst st'. cbn. eexists. split; [reflexivity|]. cbn.
  split; [reflexivity|]. split; [reflexivity|]. split; [|split].
  - rewrite Hview. apply targetFolder_folderView.
  - intros pin waiting. unfold step. cbn [app starting stepApp].
    unfold startClick, startSettled. rewrite Hbar.
    rewrite nth_error_app2, Nat.sub_diag by reflexivity.
    split; [reflexivity|]. split; reflexivity.
  - intros query. cbn [activeView setSearchQuery].
    rewrite started_recorder_ignores_query. exact Href.
Qed.

(** The scenario of the specification: view "Work", query "meeting",
    title "Weekly Sync"; the view and the query change before the stop. *)
Lemma new_note_folder_is_the_view_at_start_witness :
  let st0 := setSearchQuery "meeting" (setActiveView "Work" initialApp) in
  let env := grantingEnv 1%nat 1000 in
  let r := mkRecorder 1%nat "audio/webm" "Work" in
  let later := setSearchQuery "" (setActiveView "all" (startRecording "Work" env st0)) in
  let data := mkResponse "hello" "a greeting" [] "Weekly Sync" [] in
  exists n,
    notes (onstop r 5000 "id1" Resolved (Some "data:,") (TranscribeOk data) 6000 later)
    = n :: notes later
    /\ n_id n = "id1" /\ n_title n = "Weekly Sync" /\ n_folderId n = Some "Work".
Proof.
  cbv zeta.
  pose (st0 := setSearchQuery "meeting" (setActiveView "Work" initialApp)).
  pose (env := grantingEnv 1%nat 1000).
  pose (later := setSearchQuery "" (setActiveView "all" (startRecording "Work" env st0))).
  assert (Hbar : recordBar (status st0) = StartButton) by reflexivity.
  assert (Hidle : status st0 = IDLE) by reflexivity.
  assert (Hrec : status (startRecording (activeView st0) env st0) = RECORDING)
    by reflexivity.
  assert (Href : mediaRecorderRef (startRecording (activeView st0) env st0)
                 = Some (mkRecorder 1%nat "audio/webm" "Work")) by reflexivity.
  destruct (new_note_folder_is_the_view_at_start st0 st0 env
              (mkRecorder 1%nat "audio/webm" "Work") Hbar Hidle Hrec Href
              later 5000 "id1" "data:," (mkResponse "hello" "a greeting" [] "Weekly Sync" [])
              6000) as (n & Hn & Hid & Htitle & Hfolder & _).
  exists n. split; [exact Hn | split; [exact Hid | split; [exact Htitle | exact Hfolder]]].
Defined.

(** ** C1 *)

Module CardFacts.
Import NoteCard.

Lemma stopTts_silent c : tracked c -> sounding (stopTts c) = [].
Proof.
  intros [Hs _]. unfold stopTts.
  destruct (ttsAudioRef c) as [src|] eqn:E; cbn.
  - assert (forall l, (forall s, In s l -> Some src = Some s) ->
                      List.filter (fun s => negb (Nat.eqb s src)) l = []) as Hall.
    { induction l as [|s l IH]; intros H; [reflexivity|]. cbn.
      assert (s = src) as -> by (specialize (H s (or_introl eq_refl)); congruence).
      rewrite Nat.eqb_refl. cbn. apply IH. intros s' Hs'. apply H. now right. }
    now apply Hall.
  - destruct (sounding c) as [|s l]; [reflexivity|].
    specialize (Hs s (or_introl eq_refl)). discriminate.
Qed.

Lemma stopTts_playback c : playbackAudible (stopTts c) = playbackAudible c.
Proof. unfold stopTts. now destruct (ttsAudioRef c). Qed.

Lemma stopTts_isPlaying c : isPlaying (stopTts c) = isPlaying c.
Proof. unfold stopTts. now destruct (ttsAudioRef c). Qed.

Lemma stopTts_audioRef c : audioRef (stopTts c) = audioRef c.
Proof. unfold stopTts. now destruct (ttsAudioRef c). Qed.

Lemma stopTts_ref c : ttsAudioRef (stopTts c) = None.
Proof. unfold stopTts. destruct (ttsAudioRef c) eqn:E; cbn; [reflexivity | exact E]. Qed.

Lemma stopTts_status c : ttsStatus (stopTts c) = ttsIdle.
Proof. unfold stopTts. now destruct (ttsAudioRef c). Qed.

(** [stopTts] stops the source the card refers to. *)
Lemma stopTts_stops c src : ttsAudioRef c = Some src -> ~ In src (sounding (stopTts c)).
Proof.
  intros E H. unfold stopTts in H. rewrite E in H. cbn in H.
  apply filter_In in H as [_ H]. now rewrite Nat.eqb_refl in H.
Qed.

(** What [handleReadAloud] leaves of [stopTts c]: the sources and the
    source reference. *)
Lemma readAloud_keeps_tts section c :
  sounding (fst (handleReadAloud section c)) = sounding (stopTts c)
  /\ ttsAudioRef (fst (handleReadAloud section c)) = None.
Proof.
  pose proof (stopTts_ref c) as Hr. unfold handleReadAloud.
  destruct (match ttsStatus c with ttsPlaying => _ | _ => _ end); [now split|].
  destruct (isPlaying (stopTts c)), (audioRef (stopTts c));
    destruct (Js.truthyOS _); now split.
Qed.

Lemma readAloud_sounding section c :
  tracked c -> sounding (fst (handleReadAloud section c)) = [].
Proof.
  intros Ht. rewrite (proj1 (readAloud_keeps_tts section c)). now apply stopTts_silent.
Qed.

(** A press that goes on to request speech has paused the playback that
    the flag shows. *)
Lemma readAloud_pauses_flagged section c text :
  snd (handleReadAloud section c) = Some text -> isPlaying c = true ->
  playbackAudible (fst (handleReadAloud section c)) = false.
Proof.
  unfold handleReadAloud.
  destruct (match ttsStatus c with ttsPlaying => _ | _ => _ end); [discriminate|].
  cbv zeta. rewrite stopTts_isPlaying, stopTts_audioRef. intros Hreq Hi. rewrite Hi in *.
  unfold playbackAudible.
  destruct (audioRef c) as [el|] eqn:Ea; destruct (Js.truthyOS _); cbn [fst snd] in *;
    try discriminate; cbn -[stopTts]; rewrite ?stopTts_audioRef, ?Ea; reflexivity.
Qed.

Lemma readAloud_pauses section c text :
  tracked c -> snd (handleReadAloud section c) = Some text ->
  playbackAudible (fst (handleReadAloud section c)) = false.
Proof.
  intros [_ Hp] Hreq. destruct (isPlaying c) eqn:Ei.
  - now apply (readAloud_pauses_flagged section c text).
  - revert Hreq. unfold handleReadAloud.
    destruct (match ttsStatus c with ttsPlaying => _ | _ => _ end); [discriminate|].
    cbv zeta. rewrite stopTts_isPlaying, Ei.
    destruct (Js.truthyOS _); cbn [fst snd]; [|discriminate]. intros _.
    destruct (playbackAudible c) eqn:Ep; [specialize (Hp eq_refl); discriminate|].
    unfold playbackAudible in *. cbn -[stopTts]. now rewrite stopTts_audioRef.
Qed.

(** The flag covers the audio element: every event keeps it so. *)
Lemma readAloud_flag section c :
  (playbackAudible c = true -> isPlaying c = true) ->
  playbackAudible (fst (handleReadAloud section c)) = true ->
  isPlaying (fst (handleReadAloud section c)) = true.
Proof.
  intros Hp. unfold handleReadAloud.
  destruct (match ttsStatus c with ttsPlaying => _ | _ => _ end); cbn [fst].
  - rewrite stopTts_playback, stopTts_isPlaying. exact Hp.
  - cbv zeta. rewrite stopTts_isPlaying, stopTts_audioRef.
    unfold playbackAudible in *.
    destruct (isPlaying c) eqn:Ei, (audioRef c) as [el|] eqn:Ea;
      destruct (Js.truthyOS _); cbn -[stopTts];
      rewrite ?stopTts_audioRef, ?stopTts_isPlaying, ?Ea, ?Ei; try discriminate; auto.
Qed.

Lemma stepCard_flag e c :
  (playbackAudible c = true -> isPlaying c = true) ->
  playbackAudible (stepCard e c) = true -> isPlaying (stepCard e c) = true.
Proof.
  intros Hp. destruct e as [played|section|answer|src|]; cbn [stepCard].
  - unfold togglePlay. destruct (audioRef c) as [el|] eqn:Ea; [|exact Hp].
    destruct (isPlaying c) eqn:Ei; [|reflexivity].
    unfold playbackAudible. cbn. intros H. discriminate H.
  - now apply readAloud_flag.
  - destruct answer; exact Hp.
  - exact Hp.
  - unfold audioEnded, playbackAudible. destruct (audioRef c) eqn:E; cbn; rewrite ?E; auto.
Qed.

Lemma stepSession_card s e :
  card (stepSession s e) = stepCard e (card s) \/ card (stepSession s e) = card s.
Proof.
  destruct e as [played|section|answer|src|]; cbn [stepSession]; try (now left).
  - left. cbn [stepCard]. now destruct (handleReadAloud section (card s)).
  - destruct (pending s); [now right | now left].
Qed.

Lemma runSession_flag events : forall s,
  (playbackAudible (card s) = true -> isPlaying (card s) = true) ->
  playbackAudible (card (runSession s events)) = true ->
  isPlaying (card (runSession s events)) = true.
Proof.
  induction events as [|e events IH]; intros s Hp; [exact Hp|].
  cbn. apply IH. destruct (stepSession_card s e) as [E|E]; rewrite E;
    [now apply stepCard_flag | exact Hp].
Qed.

Lemma audible_silent c : sounding c = [] -> (audible c <= 1)%nat.
Proof. unfold audible. intros ->. destruct (playbackAudible c); cbn; lia. Qed.

Lemma audible_zero c : audible c = 0%nat -> sounding c = [] /\ playbackAudible c = false.
Proof.
  unfold audible. destruct (playbackAudible c), (sounding c); cbn; try lia. now split.
Qed.

Lemma arbitrated_intro c p :
  (forall x, In x (sounding c) -> ttsAudioRef c = Some x) ->
  (playbackAudible c = true -> isPlaying c = true) ->
  (length (sounding c) <= 1)%nat ->
  (audible c <= 1)%nat ->
  (p <= 1)%nat ->
  (p = 1%nat -> audible c = 0%nat) ->
  arbitrated (mkSession c p).
Proof.
  intros Hs Hp Hlen Haud Hpen Hwait. unfold arbitrated, tracked. cbn [card pending].
  split; [split; assumption|]. split; [assumption|]. split; [assumption|].
  split; assumption.
Qed.

Lemma filter_shorter (p : nat -> bool) l : (length (List.filter p l) <= length l)%nat.
Proof. induction l as [|x l IH]; cbn; [lia|]. destruct (p x); cbn; lia. Qed.

(** Every event keeps a card arbitrated, as long as a button is
    pressed only while the card waits for no speech. *)
Lemma stepSession_arbitrated s e :
  arbitrated s ->
  match e with ReadAloud _ | TogglePlay _ => pending s = 0%nat | _ => True end ->
  arbitrated (stepSession s e).
Proof.
  intros (Ht & Hlen & Haud & Hpen & Hwait) Hpress.
  destruct s as [c p]. cbn [card pending] in *. pose proof Ht as [Hs Hp].
  pose proof (stopTts_silent c Ht) as Hstop.
  destruct e as [played|section|answer|src|]; cbn [stepSession stepCard card pending].
  - (* togglePlay *)
    subst p. unfold togglePlay. destruct (audioRef c) as [el|] eqn:Ea.
    2:{ now apply arbitrated_intro. }
    destruct (isPlaying c) eqn:Ei.
    + cbn [negb]. apply arbitrated_intro.
      * exact Hs.
      * intros H. discriminate H.
      * exact Hlen.
      * unfold audible, playbackAudible. cbn. exact Hlen.
      * lia.
      * intros H. discriminate H.
    + cbn [negb]. pose proof Hstop as Hsil.
      assert (Hs' : sounding
                      (setIsPlaying true
                         (if played then setAudioRef (Some (mkAudio false)) (stopTts c)
                          else stopTts c)) = []).
      { destruct played; exact Hsil. }
      apply arbitrated_intro.
      * rewrite Hs'. intros x [].
      * intros _. now destruct played.
      * rewrite Hs'. cbn. lia.
      * now apply audible_silent.
      * lia.
      * intros H. discriminate H.
  - (* handleReadAloud *)
    subst p.
    destruct (handleReadAloud section c) as [c' request] eqn:E.
    assert (Ec : c' = fst (handleReadAloud section c)) by now rewrite E.
    assert (Er : request = snd (handleReadAloud section c)) by now rewrite E.
    pose proof (readAloud_sounding section c Ht) as Hsil. rewrite <- Ec in Hsil.
    apply arbitrated_intro.
    + rewrite Hsil. intros x [].
    + rewrite Ec. apply readAloud_flag. exact Hp.
    + rewrite Hsil. cbn. lia.
    + now apply audible_silent.
    + destruct request; lia.
    + destruct request as [text|]; [|intros H; discriminate H]. intros _.
      unfold audible. rewrite Hsil, Ec.
      now rewrite (readAloud_pauses section c text Ht (eq_sym Er)).
  - (* speech settled *)
    destruct p as [|waiting].
    { now apply arbitrated_intro. }
    assert (waiting = 0%nat) as -> by lia.
    destruct (audible_zero _ (Hwait eq_refl)) as [Hsil Hq].
    assert (Hquiet : forall c', audioRef c' = audioRef c -> playbackAudible c' = false).
    { intros c' H. unfold playbackAudible in *. now rewrite H. }
    destruct answer as [src| |]; cbn [speechSettled].
    + apply arbitrated_intro.
      * cbn. rewrite Hsil. intros x [<-|[]]. reflexivity.
      * rewrite Hquiet by reflexivity. intros H. discriminate H.
      * cbn. rewrite Hsil. cbn. lia.
      * unfold audible. rewrite Hquiet by reflexivity. cbn. rewrite Hsil. cbn. lia.
      * lia.
      * intros H. discriminate H.
    + apply arbitrated_intro.
      * cbn. rewrite Hsil. intros x [].
      * rewrite Hquiet by reflexivity. intros H. discriminate H.
      * cbn. rewrite Hsil. cbn. lia.
      * unfold audible. rewrite Hquiet by reflexivity. cbn. rewrite Hsil. cbn. lia.
      * lia.
      * intros H. discriminate H.
    + apply arbitrated_intro.
      * cbn. rewrite Hsil. intros x [].
      * rewrite Hquiet by reflexivity. intros H. discriminate H.
      * cbn. rewrite Hsil. cbn. lia.
      * unfold audible. rewrite Hquiet by reflexivity. cbn. rewrite Hsil. cbn. lia.
      * lia.
      * intros H. discriminate H.
  - (* source ended *)
    unfold sourceEnded, silence.
    set (c' := setActiveTtsSection None (setTtsStatus ttsIdle (setSounding _ c))).
    assert (E1 : sounding c' = List.filter (fun x => negb (Nat.eqb x src)) (sounding c))
      by reflexivity.
    assert (E2 : ttsAudioRef c' = ttsAudioRef c) by reflexivity.
    assert (E3 : playbackAudible c' = playbackAudible c) by reflexivity.
    assert (E4 : isPlaying c' = isPlaying c) by reflexivity.
    assert (Hsub : (length (sounding c') <= length (sounding c))%nat)
      by (rewrite E1; apply filter_shorter).
    apply arbitrated_intro.
    + rewrite E1, E2. intros x Hx. apply filter_In in Hx as [Hx _]. now apply Hs.
    + rewrite E3, E4. exact Hp.
    + lia.
    + unfold audible in *. rewrite E3. lia.
    + exact Hpen.
    + intros H. specialize (Hwait H). unfold audible in *. rewrite E3. lia.
  - (* audio ended *)
    unfold audioEnded.
    assert (Hq : playbackAudible
                   (setIsPlaying false
                      match audioRef c with
                      | Some _ => setAudioRef (Some (mkAudio true)) c
                      | None => c
                      end) = false).
    { unfold playbackAudible. destruct (audioRef c) eqn:E; cbn; rewrite ?E; reflexivity. }
    assert (Hsame : sounding
                      (setIsPlaying false
                         match audioRef c with
                         | Some _ => setAudioRef (Some (mkAudio true)) c
                         | None => c
                         end) = sounding c
                    /\ ttsAudioRef
                         (setIsPlaying false
                            match audioRef c with
                            | Some _ => setAudioRef (Some (mkAudio true)) c
                            | None => c
                            end) = ttsAudioRef c).
    { destruct (audioRef c); split; reflexivity. }
    destruct Hsame as [E1 E2].
    apply arbitrated_intro.
    + rewrite E1, E2. exact Hs.
    + rewrite Hq. intros H. discriminate H.
    + rewrite E1. exact Hlen.
    + unfold audible. rewrite Hq, E1. exact Hlen.
    + exact Hpen.
    + intros H. specialize (Hwait H). unfold audible in *. rewrite Hq, E1.
      destruct (playbackAudible c); cbn in *; lia.
Qed.

Lemma runSession_arbitrated events : forall s,
  arbitrated s -> pressesWait s events = true -> arbitrated (runSession s events).
Proof.
  induction events as [|e events IH]; intros s Hs Hw; [exact Hs|].
  cbn in Hw. apply andb_prop in Hw as [He Hw]. cbn. apply IH; [|exact Hw].
  apply stepSession_arbitrated; [exact Hs|].
  destruct e; try exact I; now apply Nat.eqb_eq.
Qed.

Lemma pressesWait_firstn events : forall s k,
  pressesWait s events = true -> pressesWait s (firstn k events) = true.
Proof.
  induction events as [|e events IH]; intros s k Hw; [now destruct k|].
  destruct k as [|k]; [reflexivity|]. cbn in *.
  apply andb_prop in Hw as [He Hw]. rewrite He. cbn. now apply IH.
Qed.

Lemma fresh_arbitrated n : arbitrated (fresh n).
Proof.
  unfold arbitrated, fresh, mount, tracked, audible, playbackAudible. cbn.
  split; [split; [intros x [] | discriminate]|].
  split; [lia|]. split; [lia|]. split; [lia | discriminate].
Qed.

Lemma stepDeck_other e : forall d i j,
  i <> j -> nth_error (stepDeck i e d) j = nth_error d j.
Proof.
  induction d as [|c d IH]; intros i j Hij; [destruct i; reflexivity|].
  destruct i as [|i], j as [|j]; cbn; try reflexivity; try contradiction.
  apply IH. congruence.
Qed.
End CardFacts.

(** Two cards are audible together: while the first card reads aloud,
    read-aloud starts on the second one, or its recording is played;
    the first card's source keeps sounding. *)
Lemma two_cards_sound_together :
  let reading :=
    NoteCard.runDeck twoCards
      [ (0%nat, NoteCard.ReadAloud NoteCard.secSummary);
        (0%nat, NoteCard.SpeechSettled (NoteCard.SpeechReady 1%nat)) ] in
  let both :=
    NoteCard.runDeck reading
      [ (1%nat, NoteCard.ReadAloud NoteCard.secTranscription);
        (1%nat, NoteCard.SpeechSettled (NoteCard.SpeechReady 2%nat)) ] in
  let mixed := NoteCard.runDeck reading [ (1%nat, NoteCard.TogglePlay true) ] in
  NoteCard.audibleDeck reading = 1%nat
  /\ NoteCard.audibleDeck both = 2%nat
  /\ NoteCard.audibleDeck mixed = 2%nat
  /\ ~ (NoteCard.audibleDeck both <= 1)%nat
  /\ map NoteCard.sounding both = [[1%nat]; [2%nat]].
Proof. cbv zeta. repeat split. cbn. lia. Qed.

(** A button pressed while the card waits for speech is outside what
    the card arbitrates: the call that waits is not called off, and goes
    on to start its source when the speech arrives.  Read-aloud pressed
    twice before the first speech arrives gives two sources, of which
    the card refers to the second only; the recording played while the
    speech is fetched sounds together with it. *)
Lemma presses_while_waiting_are_not_arbitrated :
  let twice :=
    NoteCard.runSession (NoteCard.fresh (spoken "a"))
      [ NoteCard.ReadAloud NoteCard.secSummary; NoteCard.ReadAloud NoteCard.secTranscription;
        NoteCard.SpeechSettled (NoteCard.SpeechReady 1%nat);
        NoteCard.SpeechSettled (NoteCard.SpeechReady 2%nat) ] in
  let mixed :=
    NoteCard.runSession (NoteCard.fresh (spoken "a"))
      [ NoteCard.ReadAloud NoteCard.secSummary; NoteCard.TogglePlay true;
        NoteCard.SpeechSettled (NoteCard.SpeechReady 1%nat) ] in
  NoteCard.sounding (NoteCard.card twice) = [1%nat; 2%nat]
  /\ NoteCard.ttsAudioRef (NoteCard.card twice) = Some 2%nat
  /\ NoteCard.audible (NoteCard.card twice) = 2%nat
  /\ NoteCard.sounding (NoteCard.stopTts (NoteCard.card twice)) = [1%nat]
  /\ NoteCard.audible (NoteCard.card mixed) = 2%nat.
Proof. cbv zeta. repeat split. Qed.

(** C1, amended.  The arbitration is per card, and it is made at the
    press.
    - Pressing read-aloud on a card, in whatever state, stops the
      read-aloud source the card refers to and clears the reference;
      when the press goes on to request speech it has also paused the
      recorded playback the card's flag showed.
    - Starting the recorded playback of a card stops the read-aloud
      source the card refers to and leaves its read-aloud idle.
    - Hence, from the first render of a card and through every sequence
      of its events in which no button of the card is pressed while the
      card waits for speech, at every time at most one source of the
      card is audible, none while it waits; the card waits for one call
      at most, refers to the source that sounds, and its flag covers its
      audio element.
    - An event addressed to one card leaves every other card of the view
      as it was. *)
Theorem one_audible_source_per_card :
  (forall c section,
      NoteCard.ttsAudioRef (fst (NoteCard.handleReadAloud section c)) = None
      /\ (forall src,
            NoteCard.ttsAudioRef c = Some src ->
            ~ In src (NoteCard.sounding (fst (NoteCard.handleReadAloud section c))))
      /\ (forall text,
            snd (NoteCard.handleReadAloud section c) = Some text ->
            NoteCard.isPlaying c = true ->
            NoteCard.playbackAudible (fst (NoteCard.handleReadAloud section c)) = false))
  /\ (forall c played el,
         NoteCard.isPlaying c = false -> NoteCard.audioRef c = Some el ->
         NoteCard.ttsAudioRef (NoteCard.togglePlay played c) = None
         /\ NoteCard.ttsStatus (NoteCard.togglePlay played c) = NoteCard.ttsIdle
         /\ (forall src,
               NoteCard.ttsAudioRef c = Some src ->
               ~ In src (NoteCard.sounding (NoteCard.togglePlay played c))))
  /\ (forall n events,
         NoteCard.pressesWait (NoteCard.fresh n) events = true ->
         forall k,
           (NoteCard.audible
              (NoteCard.card (NoteCard.runSession (NoteCard.fresh n) (firstn k events)))
            <= 1)%nat
           /\ (NoteCard.pending (NoteCard.runSession (NoteCard.fresh n) (firstn k events))
               <= 1)%nat
           /\ (NoteCard.pending (NoteCard.runSession (NoteCard.fresh n) (firstn k events))
               = 1%nat ->
               NoteCard.audible
                 (NoteCard.card (NoteCard.runSession (NoteCard.fresh n) (firstn k events)))
               = 0%nat)
           /\ NoteCard.tracked
                (NoteCard.card (NoteCard.runSession (NoteCard.fresh n) (firstn k events))))
  /\ (forall d i j e,
         i <> j -> nth_error (NoteCard.stepDeck i e d) j = nth_error d j).
Proof.
  split; [|split; [|split]].
  - intros c section. destruct (CardFacts.readAloud_keeps_tts section c) as [Hs Hr].
    split; [exact Hr|]. split.
    + intros src E. rewrite Hs. now apply CardFacts.stopTts_stops.
    + intros text Hreq Hi. now apply (CardFacts.readAloud_pauses_flagged section c text).
  - intros c played el Hi Ha. unfold NoteCard.togglePlay. rewrite Ha, Hi.
    assert (Hsame : forall c',
               NoteCard.ttsAudioRef
                 (NoteCard.setIsPlaying true
                    (if played then NoteCard.setAudioRef (Some (NoteCard.mkAudio false)) c'
                     else c')) = NoteCard.ttsAudioRef c'
               /\ NoteCard.ttsStatus
                    (NoteCard.setIsPlaying true
                       (if played then NoteCard.setAudioRef (Some (NoteCard.mkAudio false)) c'
                        else c')) = NoteCard.ttsStatus c'
               /\ NoteCard.sounding
                    (NoteCard.setIsPlaying true
                       (if played then NoteCard.setAudioRef (Some (NoteCard.mkAudio false)) c'
                        else c')) = NoteCard.sounding c').
    { intros c'. destruct played; repeat split. }
    cbv zeta. cbn [negb]. destruct (Hsame (NoteCard.stopTts c)) as (E1 & E2 & E3).
    rewrite E1, E2, E3. split; [apply CardFacts.stopTts_ref|].
    split; [apply CardFacts.stopTts_status|].
    intros src E. now apply CardFacts.stopTts_stops.
  - intros n events Hw k.
    pose proof (CardFacts.runSession_arbitrated (firstn k events) (NoteCard.fresh n)
                  (CardFacts.fresh_arbitrated n)
                  (CardFacts.pressesWait_firstn events _ k Hw))
      as (Ht & _ & Haud & Hpen & Hwait).
    split; [exact Haud|]. split; [exact Hpen|]. split; [exact Hwait | exact Ht].
  - intros d i j e. apply CardFacts.stepDeck_other.
Qed.

(** The summary is read aloud, the recording is played, the
    transcription is read aloud and runs to its end: one source at most
    is audible after each of the six events. *)
Lemma one_audible_source_per_card_witness :
  let events :=
    [ NoteCard.ReadAloud NoteCard.secSummary;
      NoteCard.SpeechSettled (NoteCard.SpeechReady 1%nat);
      NoteCard.TogglePlay true;
      NoteCard.ReadAloud NoteCard.secTranscription;
      NoteCard.SpeechSettled (NoteCard.SpeechReady 2%nat);
      NoteCard.SourceEnded 2%nat ] in
  NoteCard.pressesWait (NoteCard.fresh (spoken "a")) events = true
  /\ map (fun k =>
            NoteCard.audible
              (NoteCard.card (NoteCard.runSession (NoteCard.fresh (spoken "a"))
                                (firstn k events))))
         [1; 2; 3; 4; 5; 6]%nat
     = [0; 1; 1; 0; 1; 0]%nat
  /\ (NoteCard.audible
        (NoteCard.card (NoteCard.runSession (NoteCard.fresh (spoken "a")) (firstn 5 events)))
      <= 1)%nat.
Proof.
  cbv zeta. split; [reflexivity|]. split; [reflexivity|].
  destruct one_audible_source_per_card as (_ & _ & Hrun & _).
  apply (Hrun (spoken "a")
           [ NoteCard.ReadAloud NoteCard.secSummary;
             NoteCard.SpeechSettled (NoteCard.SpeechReady 1%nat);
             NoteCard.TogglePlay true;
             NoteCard.ReadAloud NoteCard.secTranscription;
             NoteCard.SpeechSettled (NoteCard.SpeechReady 2%nat);
             NoteCard.SourceEnded 2%nat ] eq_refl 5%nat).
Defined.

(* ===================================================================== *)
(** * Further properties of the code *)
(* ===================================================================== *)

(** ** The visible list *)

Lemma searchFilter_In q l n : In n (searchFilter q l) -> In n l.
Proof.
  unfold searchFilter. destruct (Js.truthyS _); [|auto].
  intros H. now apply filter_In in H.
Qed.

Lemma viewFilter_is_filter view lk notes result :
  viewFilter view lk notes = Some result ->
  exists p, result = List.filter p notes.
Proof.
  unfold viewFilter.
  repeat (destruct (String.eqb view _); [intros [= <-]; eexists; reflexivity|]).
  destruct (Js.arrIncludes lk view); [discriminate|].
  intros [= <-]. eexists. reflexivity.
Qed.

Lemma filteredNotes_is_filter notes view q folders unlocked :
  exists p, filteredNotes notes view q folders unlocked = List.filter p notes.
Proof.
  unfold filteredNotes.
  destruct (viewFilter _ _ _) as [result|] eqn:E.
  - apply viewFilter_is_filter in E as [p ->]. unfold searchFilter.
    destruct (Js.truthyS _).
    + exists (fun n => p n && matchesQuery (Js.toLowerCase q) n).
      induction notes as [|n notes IH]; [reflexivity|]. cbn.
      destruct (p n); cbn; [|exact IH].
      destruct (matchesQuery _ n); [now rewrite IH | exact IH].
    + now exists p.
  - exists (fun _ => false). clear E. induction notes as [|a l IH]; [reflexivity | exact IH].
Qed.

Lemma visible_is_sorted_filtered lc notes view q sortBy folders unlocked :
  filteredAndSortedNotes lc notes view q sortBy folders unlocked
  = Js.sort (compareNotes lc sortBy) (filteredNotes notes view q folders unlocked).
Proof.
  unfold filteredAndSortedNotes, filteredNotes. now destruct (viewFilter _ _ _).
Qed.

Lemma filter_length_le {A} (p : A -> bool) l : (length (List.filter p l) <= length l)%nat.
Proof. induction l as [|x l IH]; cbn; [lia|]. destruct (p x); cbn; lia. Qed.

Lemma folderOpen_not_locked folders unlocked n fid :
  folderOpen (lockedFolderIds folders unlocked) n = true ->
  n_folderId n = Some fid -> fid <> "" ->
  ~ folderLocked folders unlocked fid.
Proof.
  unfold folderOpen. intros H Hfid Hne HL. apply lockedFolderIds_includes in HL.
  rewrite Hfid, HL in H. cbn in H. unfold Js.truthyS in H.
  apply String.eqb_neq in Hne. now rewrite Hne in H.
Qed.

Lemma all_view_folderOpen lc notes q sortBy folders unlocked n :
  In n (filteredAndSortedNotes lc notes "all" q sortBy folders unlocked) ->
  folderOpen (lockedFolderIds folders unlocked) n = true.
Proof.
  unfold filteredAndSortedNotes. cbn. intros H.
  apply sort_In, searchFilter_In, filter_In in H. tauto.
Qed.

(** X1.  No view, query or sort order ever shows a note that lies in a
    locked folder: a visible note that refers to a folder (by a
    non-empty id) refers to one that is not locked. *)
Theorem locked_folder_notes_are_never_visible :
  forall lc notes view q sortBy folders unlocked n fid,
    In n (filteredAndSortedNotes lc notes view q sortBy folders unlocked) ->
    n_folderId n = Some fid -> fid <> "" ->
    ~ folderLocked folders unlocked fid.
Proof.
  intros lc notes view q sortBy folders unlocked n fid Hin Hfid Hne HL.
  apply lockedFolderIds_includes in HL.
  assert (Htruthy : Js.truthyOS (n_folderId n) = true).
  { rewrite Hfid. cbn. unfold Js.truthyS. apply negb_true_iff.
    now apply String.eqb_neq. }
  unfold filteredAndSortedNotes in Hin.
  destruct (viewFilter _ _ _) as [result|] eqn:E; [|destruct Hin].
  apply sort_In, searchFilter_In in Hin.
  unfold viewFilter in E.
  assert (Hopen : folderOpen (lockedFolderIds folders unlocked) n = true -> False).
  { unfold folderOpen. rewrite Htruthy, Hfid, HL. discriminate. }
  destruct (String.eqb view "all").
  { injection E as <-. apply filter_In in Hin as [_ H]. auto. }
  destruct (String.eqb view "uncategorized").
  { injection E as <-. apply filter_In in Hin as [_ H]. rewrite Htruthy in H. discriminate. }
  destruct (String.eqb view "favorites").
  { injection E as <-. apply filter_In in Hin as [_ H].
    apply andb_prop in H as [_ H]. auto. }
  destruct (Js.arrIncludes _ view) eqn:Ev; [discriminate|].
  injection E as <-. apply filter_In in Hin as [_ H].
  apply inFolder_refersTo in H. unfold refersTo in H. congruence.
Qed.

Lemma locked_folder_notes_are_never_visible_witness :
  let F := mkFolder "F" "Private" 0 (Some "1234") in
  let N := withFolderId (Some "F") (titled "N" "Diary" false 1) in
  In N (filteredAndSortedNotes foldedCompare [N] "all" "" newest [F] ["F"])
  /\ ~ folderLocked [F] ["F"] "F".
Proof.
  cbv zeta.
  assert (Hin : In (withFolderId (Some "F") (titled "N" "Diary" false 1))
                   (filteredAndSortedNotes foldedCompare
                      [withFolderId (Some "F") (titled "N" "Diary" false 1)] "all" ""
                      newest [mkFolder "F" "Private" 0 (Some "1234")] ["F"]))
    by now left.
  split; [exact Hin|].
  apply (locked_folder_notes_are_never_visible _ _ _ _ _ _ _ _ "F" Hin);
    [reflexivity | discriminate].
Defined.

(** X2.  The visible list is drawn from the store: it is a rearrangement
    of a sub-list of the notes, so it is never longer than the store,
    shows only stored notes, and shows none twice when the store holds
    none twice. *)
Theorem visible_notes_come_from_the_store :
  forall lc notes view q sortBy folders unlocked,
    let visible := filteredAndSortedNotes lc notes view q sortBy folders unlocked in
    (exists p, Permutation visible (List.filter p notes))
    /\ (length visible <= length notes)%nat
    /\ (forall n, In n visible -> In n notes)
    /\ (List.NoDup notes -> List.NoDup visible).
Proof.
  intros lc notes view q sortBy folders unlocked visible. subst visible.
  rewrite visible_is_sorted_filtered.
  destruct (filteredNotes_is_filter notes view q folders unlocked) as [p ->].
  pose proof (sort_perm (compareNotes lc sortBy) (List.filter p notes)) as HP.
  split; [now exists p|]. split; [|split].
  - rewrite (Permutation_length HP). apply filter_length_le.
  - intros n Hn. apply (Permutation_in _ HP) in Hn. now apply filter_In in Hn.
  - intros Hnd. apply (Permutation_NoDup (Permutation_sym HP)).
    now apply List.NoDup_filter.
Qed.

Lemma visible_notes_come_from_the_store_witness :
  List.NoDup (filteredAndSortedNotes foldedCompare fruitNotes "all" "an" alphabetical [] []).
Proof.
  apply (visible_notes_come_from_the_store foldedCompare fruitNotes "all" "an"
           alphabetical [] []).
  repeat constructor; cbn; intuition discriminate.
Defined.

(** *** The query *)

Lemma isWhiteSpace_lowerChar c : Js.isWhiteSpace (Js.lowerChar c) = Js.isWhiteSpace c.
Proof. destruct c as [[] [] [] [] [] [] [] []]; reflexivity. Qed.

Lemma lowerChar_idem c : Js.lowerChar (Js.lowerChar c) = Js.lowerChar c.
Proof. destruct c as [[] [] [] [] [] [] [] []]; reflexivity. Qed.

Lemma toLowerCase_idem s : Js.toLowerCase (Js.toLowerCase s) = Js.toLowerCase s.
Proof. induction s as [|c s IH]; cbn; [reflexivity|]. now rewrite lowerChar_idem, IH. Qed.

Lemma blank_toLowerCase q : blank (Js.toLowerCase q) = blank q.
Proof.
  unfold blank. induction q as [|c q IH]; cbn; [reflexivity|].
  now rewrite isWhiteSpace_lowerChar, IH.
Qed.

Lemma trimEnd_empty s : Js.trimEnd s = "" -> blank s = true.
Proof.
  unfold blank. induction s as [|c s IH]; cbn; [reflexivity|].
  destruct (Js.isWhiteSpace c); cbn; [|discriminate].
  destruct (String.eqb_spec (Js.trimEnd s) ""); [auto | discriminate].
Qed.

Lemma trimStart_blank_inv s : blank (Js.trimStart s) = true -> blank s = true.
Proof.
  unfold blank. induction s as [|c s IH]; cbn; [reflexivity|].
  destruct (Js.isWhiteSpace c) eqn:E; cbn; [auto|].
  rewrite E. discriminate.
Qed.

Lemma truthyS_trim q : Js.truthyS (Js.trim q) = negb (blank q).
Proof.
  destruct (blank q) eqn:E; cbn.
  - now rewrite (trim_blank _ E).
  - unfold Js.truthyS. apply negb_true_iff. apply String.eqb_neq. intros H.
    apply trimEnd_empty, trimStart_blank_inv in H. congruence.
Qed.

(** X3.  The search does not see the case of the query: two queries
    that agree once lower-cased give the same visible list, and so a
    query gives the same list as its lower-cased form. *)
Theorem search_ignores_the_case_of_the_query :
  forall lc notes view sortBy folders unlocked q1 q2,
    Js.toLowerCase q1 = Js.toLowerCase q2 ->
    filteredAndSortedNotes lc notes view q1 sortBy folders unlocked
    = filteredAndSortedNotes lc notes view q2 sortBy folders unlocked
    /\ filteredAndSortedNotes lc notes view q1 sortBy folders unlocked
       = filteredAndSortedNotes lc notes view (Js.toLowerCase q1) sortBy folders unlocked.
Proof.
  intros lc notes view sortBy folders unlocked q1 q2 H.
  assert (Hs : forall a b l, Js.toLowerCase a = Js.toLowerCase b ->
                             searchFilter a l = searchFilter b l).
  { intros a b l E. unfold searchFilter. rewrite !truthyS_trim, E.
    now rewrite <- (blank_toLowerCase a), E, blank_toLowerCase. }
  unfold filteredAndSortedNotes.
  destruct (viewFilter _ _ _) as [result|]; [|now split].
  split.
  - now rewrite (Hs q1 q2 result H).
  - rewrite (Hs q1 (Js.toLowerCase q1) result); [reflexivity|].
    now rewrite toLowerCase_idem.
Qed.

Lemma search_ignores_the_case_of_the_query_witness :
  filteredAndSortedNotes foldedCompare fruitNotes "all" "BaNaNa" newest [] []
  = filteredAndSortedNotes foldedCompare fruitNotes "all" "bANANa" newest [] [].
Proof.
  apply (search_ignores_the_case_of_the_query foldedCompare fruitNotes "all" newest [] []
           "BaNaNa" "bANANa").
  reflexivity.
Defined.

(** *** The order *)

Section SortOrder.
Context {A : Type} (cmp : A -> A -> Z).
Hypothesis cmp_total : forall x y, 0 < cmp x y -> cmp y x <= 0.
Hypothesis cmp_trans : forall x y z, cmp x y <= 0 -> cmp y z <= 0 -> cmp x z <= 0.

Lemma inOrder_insertSorted x l :
  inOrder (fun a b => cmp a b <= 0) l ->
  inOrder (fun a b => cmp a b <= 0) (Js.insertSorted cmp x l).
Proof.
  induction l as [|y l IH]; intros Hl; cbn.
  - split; constructor.
  - destruct Hl as [Hy Hl].
    destruct (Z.leb_spec (cmp x y) 0) as [Hle|Hgt]; cbn.
    + split; [|split; assumption].
      constructor; [assumption|].
      rewrite List.Forall_forall in *. intros z Hz. eapply cmp_trans; eauto.
    + split; [|auto].
      rewrite List.Forall_forall in *. intros z Hz.
      apply (Permutation_in _ (insertSorted_perm cmp x l)) in Hz.
      destruct Hz as [<-|Hz]; auto.
Qed.

Lemma inOrder_sort l : inOrder (fun a b => cmp a b <= 0) (Js.sort cmp l).
Proof.
  induction l as [|x l IH]; cbn; [exact I|]. now apply inOrder_insertSorted.
Qed.
End SortOrder.

Lemma inOrder_nth {A} (R : A -> A -> Prop) l :
  inOrder R l ->
  forall i j a b,
    nth_error l i = Some a -> nth_error l j = Some b -> (i < j)%nat -> R a b.
Proof.
  induction l as [|x l IH]; intros Hl i j a b Hi Hj Hij.
  - destruct i; discriminate.
  - destruct Hl as [Hx Hl]. destruct j as [|j]; [lia|].
    destruct i as [|i]; cbn in Hi, Hj.
    + injection Hi as <-. rewrite List.Forall_forall in Hx. apply Hx.
      eapply nth_error_In; eauto.
    + apply (IH Hl i j); auto. lia.
Qed.

(** Insertion never moves a note past one it is not strictly behind. *)
Lemma filter_insertSorted {A} (cmp : A -> A -> Z) (p : A -> bool) x l :
  (forall y, p x = true -> p y = true -> cmp x y <= 0) ->
  List.filter p (Js.insertSorted cmp x l) = List.filter p (x :: l).
Proof.
  intros Hx. induction l as [|y l IH]; [reflexivity|].
  cbn [Js.insertSorted]. destruct (Z.leb_spec (cmp x y) 0) as [Hle|Hgt]; [reflexivity|].
  cbn [List.filter] in *. rewrite IH.
  destruct (p x) eqn:Ex, (p y) eqn:Ey; try reflexivity.
  specialize (Hx y eq_refl Ey). lia.
Qed.

Lemma filter_sort {A} (cmp : A -> A -> Z) (p : A -> bool) l :
  (forall x y, p x = true -> p y = true -> cmp x y <= 0) ->
  List.filter p (Js.sort cmp l) = List.filter p l.
Proof.
  intros H. induction l as [|x l IH]; [reflexivity|].
  cbn [Js.sort]. rewrite filter_insertSorted by (intros; now apply H).
  cbn. now rewrite IH.
Qed.

Lemma compareNotes_same_pin lc sortBy a b :
  pinned a = pinned b ->
  compareNotes lc sortBy a b <= 0 -> keyOrdered lc sortBy a b.
Proof.
  unfold compareNotes, keyOrdered, pinned. intros ->.
  destruct (Js.truthyB (n_isPinned b)); cbn; destruct sortBy; lia.
Qed.

Lemma compareNotes_total lc sortBy :
  (sortBy = alphabetical -> consistent lc) ->
  forall a b, 0 < compareNotes lc sortBy a b -> compareNotes lc sortBy b a <= 0.
Proof.
  intros Hlc a b. unfold compareNotes.
  destruct (Js.truthyB (n_isPinned a)), (Js.truthyB (n_isPinned b)); cbn; try lia;
    destruct sortBy; try lia; destruct (Hlc eq_refl) as [Ht _]; apply Ht.
Qed.

Lemma compareNotes_trans lc sortBy :
  (sortBy = alphabetical -> consistent lc) ->
  forall a b c,
    compareNotes lc sortBy a b <= 0 -> compareNotes lc sortBy b c <= 0 ->
    compareNotes lc sortBy a c <= 0.
Proof.
  intros Hlc a b c. unfold compareNotes.
  destruct (Js.truthyB (n_isPinned a)), (Js.truthyB (n_isPinned b)),
    (Js.truthyB (n_isPinned c)); cbn; try lia;
    destruct sortBy; try lia; destruct (Hlc eq_refl) as [_ Ht]; apply Ht.
Qed.

(** X4.  The visible list is in the order asked for.  Under newest,
    oldest, longest and shortest, and under alphabetical when the
    collation is consistent, a note never stands in front of one the
    comparator puts before it; among notes with the same pinned flag the
    keys run as the sort order says (newest: time stamps descending,
    oldest: ascending, longest: durations descending, shortest:
    ascending, alphabetical: titles ascending in the collation). *)
Theorem visible_notes_are_in_order :
  forall lc sortBy,
    (sortBy = alphabetical -> consistent lc) ->
    forall notes view q folders unlocked i j a b,
      let visible := filteredAndSortedNotes lc notes view q sortBy folders unlocked in
      nth_error visible i = Some a -> nth_error visible j = Some b -> (i < j)%nat ->
      compareNotes lc sortBy a b <= 0
      /\ (pinned a = pinned b -> keyOrdered lc sortBy a b).
Proof.
  intros lc sortBy Hlc notes view q folders unlocked i j a b visible Hi Hj Hij.
  subst visible. rewrite visible_is_sorted_filtered in Hi, Hj.
  assert (H : compareNotes lc sortBy a b <= 0).
  { eapply (inOrder_nth _ _ (inOrder_sort (compareNotes lc sortBy)
                               (compareNotes_total lc sortBy Hlc)
                               (compareNotes_trans lc sortBy Hlc) _)); eauto. }
  split; [exact H|]. intros Hp. now apply compareNotes_same_pin.
Qed.

Lemma visible_notes_are_in_order_witness :
  keyOrdered foldedCompare newest (titled "n1" "Banana" false 3) (titled "n2" "apple" false 2).
Proof.
  assert (Hlc : newest = alphabetical -> consistent foldedCompare) by discriminate.
  destruct (visible_notes_are_in_order foldedCompare newest Hlc fruitNotes "all" "" [] []
              1%nat 2%nat (titled "n1" "Banana" false 3) (titled "n2" "apple" false 2)
              eq_refl eq_refl) as [_ Hkey]; [lia|].
  apply Hkey. reflexivity.
Defined.

(** X5.  The sort is stable where it matters: the notes of any class
    the comparator does not separate (for instance the unpinned notes
    with one and the same time stamp, under newest) appear in the
    visible list in the order they have in the store. *)
Theorem notes_the_comparator_ties_keep_store_order :
  forall lc sortBy notes view q folders unlocked (p : Note -> bool),
    (forall a b, p a = true -> p b = true -> compareNotes lc sortBy a b <= 0) ->
    List.filter p (filteredAndSortedNotes lc notes view q sortBy folders unlocked)
    = List.filter p (filteredNotes notes view q folders unlocked).
Proof.
  intros lc sortBy notes view q folders unlocked p Hp.
  rewrite visible_is_sorted_filtered. now apply filter_sort.
Qed.

Lemma notes_the_comparator_ties_keep_store_order_witness :
  let a := titled "a" "first" false 7 in
  let b := titled "b" "second" false 7 in
  let c := titled "c" "third" false 9 in
  let tied := fun n => negb (pinned n) && (n_timestamp n =? 7) in
  List.filter tied (filteredAndSortedNotes foldedCompare [a; c; b] "all" "" newest [] [])
  = [a; b].
Proof.
  cbv zeta.
  apply (notes_the_comparator_ties_keep_store_order foldedCompare newest
           [titled "a" "first" false 7; titled "c" "third" false 9;
            titled "b" "second" false 7] "all" "" [] []
           (fun n => negb (pinned n) && (n_timestamp n =? 7))).
  intros a b Ha Hb. apply andb_prop in Ha as [Hpa Hta], Hb as [Hpb Htb].
  apply negb_true_iff in Hpa, Hpb. apply Z.eqb_eq in Hta, Htb.
  unfold compareNotes, pinned in *. rewrite Hpa, Hpb. cbn. lia.
Defined.

(** ** Recording *)

Lemma firstSupported_spec f types :
  (firstSupported f types = "" /\ forall t, In t types -> f t = Some true -> t = "")
  \/ exists before after,
       types = (before ++ firstSupported f types :: after)%list
       /\ f (firstSupported f types) = Some true
       /\ forall t, In t before -> f t <> Some true.
Proof.
  induction types as [|type rest IH]; cbn.
  - left. split; [reflexivity | intros t []].
  - destruct (f type) as [[|]|] eqn:E.
    + right. exists [], rest. repeat split; [assumption | intros t []].
    + destruct IH as [[H0 Hn]|(before & after & Hl & Hs & Hb)].
      * left. split; [assumption|]. intros t [<-|Ht]; [congruence | auto].
      * right. exists (type :: before), after. split; [cbn; now f_equal|].
        split; [assumption|]. intros t [<-|Ht]; [congruence | auto].
    + destruct IH as [[H0 Hn]|(before & after & Hl & Hs & Hb)].
      * left. split; [assumption|]. intros t [<-|Ht]; [congruence | auto].
      * right. exists (type :: before), after. split; [cbn; now f_equal|].
        split; [assumption|]. intros t [<-|Ht]; [congruence | auto].
Qed.

(** X6.  [getSupportedMimeType] returns the first type of its
    preference list that the host supports: every type in front of the
    result is unsupported or makes [isTypeSupported] throw.  It returns
    the empty string exactly when the host supports none of the five. *)
Theorem first_supported_mime_type_is_chosen :
  forall isTypeSupported,
    let chosen := getSupportedMimeType isTypeSupported in
    (chosen = "" <-> forall t, In t mimeTypes -> isTypeSupported t <> Some true)
    /\ (chosen <> "" ->
        exists before after,
          mimeTypes = (before ++ chosen :: after)%list
          /\ isTypeSupported chosen = Some true
          /\ forall t, In t before -> isTypeSupported t <> Some true).
Proof.
  intros f chosen. subst chosen. unfold getSupportedMimeType.
  destruct (firstSupported_spec f mimeTypes) as [[H0 Hn]|(before & after & Hl & Hs & Hb)].
  - split; [|congruence]. split; [|auto].
    intros _ t Ht Hsup. specialize (Hn t Ht Hsup). subst t.
    cbn in Ht. intuition discriminate.
  - assert (Hin : In (firstSupported f mimeTypes) mimeTypes).
    { rewrite Hl at 2. apply in_or_app. right. now left. }
    split; [|intros _; now exists before, after].
    split.
    + intros H0. rewrite H0 in Hin. cbn in Hin. intuition discriminate.
    + intros Hnone. exfalso. now apply (Hnone _ Hin).
Qed.

Lemma first_supported_mime_type_is_chosen_witness :
  let host := fun t => if String.eqb t "audio/webm" then None
                       else Some (String.eqb t "audio/mp4" || String.eqb t "audio/aac") in
  getSupportedMimeType host = "audio/mp4"
  /\ exists before after,
       mimeTypes = (before ++ "audio/mp4" :: after)%list
       /\ host "audio/mp4" = Some true
       /\ forall t, In t before -> host t <> Some true.
Proof.
  cbv zeta. split; [reflexivity|].
  apply (first_supported_mime_type_is_chosen
           (fun t => if String.eqb t "audio/webm" then None
                     else Some (String.eqb t "audio/mp4" || String.eqb t "audio/aac"))).
  discriminate.
Defined.

Lemma stopped_not_live (s : MediaStream) l :
  ~ In s (List.filter (fun s' => negb (Nat.eqb s' s)) l).
Proof. intros H. apply filter_In in H as [_ H]. now rewrite Nat.eqb_refl in H. Qed.

(** X7.  A start from IDLE ends in one of two ways.  Either it fails:
    the status is IDLE, exactly one alert was raised, no recorder was
    added, and a stream the host had granted is no longer live.  Or it
    succeeds: the status is RECORDING, the granted stream is live and is
    the one shown to the visualizer, the recorder reference holds a
    recorder on that stream which is recording, the chunk buffer is
    empty and the timer is 0. *)
Theorem start_either_records_or_releases_the_microphone :
  forall view env st,
    status st = IDLE ->
    let st' := startRecording view env st in
    (status st' = IDLE
     /\ length (alerts st') = S (length (alerts st))
     /\ recorders st' = recorders st
     /\ notes st' = notes st
     /\ forall s, env_getUserMedia env = MediaGranted s -> ~ In s (liveStreams st'))
    \/ (status st' = RECORDING
        /\ alerts st' = alerts st
        /\ exists s r,
            env_getUserMedia env = MediaGranted s
            /\ In s (liveStreams st')
            /\ stream st' = Some s
            /\ mediaRecorderRef st' = Some r
            /\ mr_stream r = s
            /\ mr_mimeType r = getSupportedMimeType (env_isTypeSupported env)
            /\ In r (recorders st')
            /\ chunksRef st' = []
            /\ timer st' = 0
            /\ startTimeRef st' = Some (env_now env)).
Proof.
  intros view env st Hidle st'. subst st'. unfold startRecording.
  assert (Hlen : forall (m : string) l, length (l ++ [m])%list = S (length l)).
  { intros m l. rewrite length_app. cbn. lia. }
  destruct (env_getUserMedia env) as [s|name message].
  - destruct (negb _) eqn:Emime.
    + left. cbn. rewrite Hidle, Hlen. repeat split.
      intros s' [= <-]. apply stopped_not_live.
    + destruct (env_construct env) as [message|].
      * left. cbn. rewrite Hlen. repeat split.
        intros s' [= <-]. apply stopped_not_live.
      * destruct (env_start env) as [message|].
        -- left. cbn. rewrite Hlen. repeat split.
           intros s' [= <-]. apply stopped_not_live.
        -- right. cbn. split; [reflexivity|]. split; [reflexivity|].
           eexists s, _. split; [reflexivity|].
           split; [apply in_or_app; right; now left|].
           split; [reflexivity|]. split; [reflexivity|].
           split; [reflexivity|]. split; [reflexivity|].
           split; [apply in_or_app; right; now left|].
           split; [reflexivity|]. split; reflexivity.
  - left. cbn. rewrite Hidle, Hlen. repeat split. discriminate.
Qed.

Lemma start_either_records_or_releases_the_microphone_witness :
  let host := mkStartEnv (MediaGranted 7%nat) (fun _ => Some false) None None 0 in
  status (startRecording "all" host initialApp) = IDLE
  /\ liveStreams (startRecording "all" host initialApp) = []
  /\ alerts (startRecording "all" host initialApp) = ["Format Error: Browser incompatible."].
Proof.
  cbv zeta. split; [reflexivity|]. split; [reflexivity|].
  destruct (start_either_records_or_releases_the_microphone "all"
              (mkStartEnv (MediaGranted 7%nat) (fun _ => Some false) None None 0)
              initialApp eq_refl) as [_|(Hrec & _)]; [reflexivity | discriminate].
Defined.

Lemma filter_out_absent (s : MediaStream) l :
  ~ In s l -> List.filter (fun s' => negb (Nat.eqb s' s)) l = l.
Proof.
  induction l as [|x l IH]; intros H; [reflexivity|]. cbn.
  destruct (Nat.eqb_spec x s) as [->|Hne]; cbn.
  - exfalso. apply H. now left.
  - f_equal. apply IH. intros Hin. apply H. now right.
Qed.

Lemma sameRecorder_refl r : sameRecorder r r = true.
Proof. unfold sameRecorder. now rewrite Nat.eqb_refl, !String.eqb_refl. Qed.

(** X8.  Stopping gives back what the start acquired.  After a
    successful start from IDLE followed by a stop, the stream of the
    recording is no longer live, the recorder no longer records, no
    stream is shown to the visualizer and the timer interval is
    cleared; when the granted stream was a new one, the live streams are
    exactly those from before the start.  The status is still RECORDING:
    it only changes when the recorder's [onstop] runs. *)
Theorem stop_releases_what_start_acquired :
  forall view env st s,
    status st = IDLE ->
    env_getUserMedia env = MediaGranted s ->
    status (startRecording view env st) = RECORDING ->
    let stopped := stopRecording (startRecording view env st) in
    ~ In s (liveStreams stopped)
    /\ (~ In s (liveStreams st) -> liveStreams stopped = liveStreams st)
    /\ (forall r, mediaRecorderRef stopped = Some r -> ~ In r (recorders stopped))
    /\ stream stopped = None
    /\ timerRef stopped = false
    /\ status stopped = RECORDING
    /\ notes stopped = notes st.
Proof.
  intros view env st s Hidle Hgum. unfold startRecording. rewrite Hgum.
  destruct (negb _); [intros H; cbn in H; congruence|].
  destruct (env_construct env); [intros H; cbn in H; congruence|].
  destruct (env_start env); [intros H; cbn in H; congruence|].
  intros _. cbn.
  split; [apply stopped_not_live|]. split.
  - intros Hfresh. rewrite List.filter_app. cbn. rewrite Nat.eqb_refl. cbn.
    rewrite app_nil_r. now apply filter_out_absent.
  - split; [|repeat split].
    intros r [= <-] Hin. apply filter_In in Hin as [_ Hin].
    now rewrite sameRecorder_refl in Hin.
Qed.

Lemma stop_releases_what_start_acquired_witness :
  liveStreams (stopRecording recordingApp) = []
  /\ recorders (stopRecording recordingApp) = [].
Proof.
  split; [|reflexivity].
  destruct (stop_releases_what_start_acquired "all" (grantingEnv 1%nat 1000) initialApp
              1%nat eq_refl eq_refl eq_refl) as (_ & Hsame & _).
  apply Hsame. intros [].
Defined.

Lemma feed_chunks datas : forall st,
  concat (map blob_data (chunksRef (feed datas st)))
  = (concat (map blob_data (chunksRef st)) ++ concat (map blob_data datas))%list.
Proof.
  unfold feed. induction datas as [|d datas IH]; intros st; cbn [fold_left map concat].
  - now rewrite app_nil_r.
  - rewrite IH. unfold ondataavailable.
    destruct (blob_data d) as [|b bs] eqn:E; cbn [length Nat.ltb Nat.leb].
    + reflexivity.
    + cbn [chunksRef setChunksRef]. rewrite map_app, concat_app. cbn [map concat].
      rewrite E, app_nil_r. now rewrite <- app_assoc.
Qed.

(** X9.  No recorded byte is lost and none changes place: the blob
    [onstop] builds from the chunk buffer holds the bytes of every chunk
    the recorder delivered since the start, in delivery order (empty
    chunks are not buffered, and carry no byte), under the mime type the
    recorder was created with. *)
Theorem the_blob_is_every_chunk_in_order :
  forall recorder now noteId datas st,
    chunksRef st = [] ->
    job_audioBlob (snd (onstopBegin recorder now noteId (feed datas st)))
    = mkBlob (concat (map blob_data datas)) (mr_mimeType recorder)
    /\ Forall (fun chunk => blob_data chunk <> []) (chunksRef (feed datas st)).
Proof.
  intros recorder now noteId datas st Hempty. split.
  - cbn [onstopBegin snd job_audioBlob].
    unfold concatChunks. rewrite feed_chunks, Hempty. reflexivity.
  - assert (Hall : forall datas st,
               Forall (fun chunk => blob_data chunk <> []) (chunksRef st) ->
               Forall (fun chunk => blob_data chunk <> []) (chunksRef (feed datas st))).
    { clear. unfold feed. induction datas as [|d datas IH]; intros st H; [exact H|].
      cbn. apply IH. unfold ondataavailable.
      destruct (blob_data d) as [|b bs] eqn:E; cbn; [exact H|].
      apply Forall_app. split; [exact H|]. constructor; [|constructor]. congruence. }
    apply Hall. rewrite Hempty. constructor.
Qed.

Lemma the_blob_is_every_chunk_in_order_witness :
  let a := mkBlob [Byte.x01; Byte.x02] "audio/webm" in
  let e := mkBlob [] "audio/webm" in
  let b := mkBlob [Byte.x03] "audio/webm" in
  job_audioBlob (snd (onstopBegin (mkRecorder 1%nat "audio/webm" "all") 5000 "id1"
                        (feed [a; e; b] recordingApp)))
  = mkBlob [Byte.x01; Byte.x02; Byte.x03] "audio/webm".
Proof.
  cbv zeta.
  apply (the_blob_is_every_chunk_in_order (mkRecorder 1%nat "audio/webm" "all") 5000 "id1"
           [mkBlob [Byte.x01; Byte.x02] "audio/webm"; mkBlob [] "audio/webm";
            mkBlob [Byte.x03] "audio/webm"] recordingApp).
  reflexivity.
Defined.

(** ** The pipeline *)

(** X10.  A run of the pipeline in which the save and the transcription
    both succeed puts exactly one new note in front of the store, leaves
    the notes that were there as they were, and stores the audio under
    the id of that note; the note is unpinned, not a favourite, carries
    the duration measured at the stop and the time of its creation, and
    the status is IDLE with the timer at 0. *)
Theorem a_created_note_has_its_audio_stored :
  forall recorder stopTime noteId dataUrl data noteTime st,
    let st' := onstop recorder stopTime noteId Resolved (Some dataUrl)
                 (TranscribeOk data) noteTime st in
    exists n,
      notes st' = n :: notes st
      /\ n_id n = noteId
      /\ storeGet (n_id n) (blobStore st')
         = Some (concatChunks (chunksRef st) (mr_mimeType recorder))
      /\ n_transcription n = r_transcription data
      /\ n_duration n = finalDuration (startTimeRef st) stopTime
      /\ n_timestamp n = noteTime
      /\ pinned n = false
      /\ Js.truthyB (n_isFavorite n) = false
      /\ status st' = IDLE
      /\ timer st' = 0.
Proof.
  intros recorder stopTime noteId dataUrl data noteTime st st'. subst st'.
  eexists. cbn. split; [reflexivity|]. cbn. split; [reflexivity|].
  split; [unfold storeGet, storePut; apply lookup_insert_eq|].
  split; [reflexivity|]. split; [reflexivity|]. split; [reflexivity|].
  split; [reflexivity|]. split; [reflexivity|]. split; reflexivity.
Qed.

(** X11.  Whatever the three external steps answer, a run of the
    pipeline either leaves the notes untouched or adds one note, and it
    adds one only when the save resolved, the reader delivered and the
    transcription succeeded.  It never touches the blob stored under
    another id, issues no delete, and leaves the blob store as it was
    when the save was rejected.  It ends in IDLE unless the file reader
    delivered nothing, in which case the status stays TRANSCRIBING. *)
Theorem the_pipeline_commits_all_or_nothing :
  forall recorder stopTime noteId saved readerResult answer noteTime st,
    let st' := onstop recorder stopTime noteId saved readerResult answer noteTime st in
    (notes st' = notes st
     \/ (saved = Resolved /\ readerResult <> None
         /\ exists data, answer = TranscribeOk data
                         /\ notes st' = newNote (snd (onstopBegin recorder stopTime noteId st))
                                          data noteTime :: notes st))
    /\ (forall id, id <> noteId -> storeGet id (blobStore st') = storeGet id (blobStore st))
    /\ (forall message, saved = Rejected message -> blobStore st' = blobStore st)
    /\ (forall id, deletesOf id (blobLog st') = deletesOf id (blobLog st))
    /\ (status st' = IDLE
        \/ (saved = Resolved /\ readerResult = None /\ status st' = TRANSCRIBING)).
Proof.
  intros recorder stopTime noteId saved readerResult answer noteTime st st'. subst st'.
  assert (Hlog : forall id b, deletesOf id (blobLog st ++ [OpSave noteId b])
                              = deletesOf id (blobLog st)).
  { intros id b. unfold deletesOf. rewrite List.filter_app, length_app. cbn. lia. }
  destruct saved as [|message]; cbn.
  - destruct readerResult as [dataUrl|]; cbn.
    + destruct answer as [data|message]; cbn.
      * split; [right; split; [reflexivity|]; split; [discriminate|]; now exists data|].
        split; [intros id Hne; unfold storeGet, storePut; now apply lookup_insert_ne|].
        split; [discriminate|]. split; [intros id; apply Hlog | now left].
      * split; [now left|].
        split; [intros id Hne; unfold storeGet, storePut; now apply lookup_insert_ne|].
        split; [discriminate|]. split; [intros id; apply Hlog | now left].
    + split; [now left|].
      split; [intros id Hne; unfold storeGet, storePut; now apply lookup_insert_ne|].
      split; [discriminate|]. split; [intros id; apply Hlog | right; repeat split].
  - split; [now left|]. split; [reflexivity|]. split; [reflexivity|].
    split; [intros id; apply Hlog | now left].
Qed.

Lemma the_pipeline_commits_all_or_nothing_witness :
  let st' := onstop (mkRecorder 1%nat "audio/webm" "all") 5000 "id1"
               (Rejected "QuotaExceededError") None (TranscribeFailed "") 0 recordingApp in
  blobStore st' = blobStore recordingApp /\ notes st' = [] /\ status st' = IDLE.
Proof.
  cbv zeta.
  destruct (the_pipeline_commits_all_or_nothing (mkRecorder 1%nat "audio/webm" "all") 5000
              "id1" (Rejected "QuotaExceededError") None (TranscribeFailed "") 0 recordingApp)
    as (_ & _ & Hstore & _).
  split; [apply (Hstore "QuotaExceededError"); reflexivity|].
  split; reflexivity.
Defined.

(** X12.  The duration written into a note is the number of whole
    seconds between the start and the stop: when the clock did not run
    backwards it is not negative, and the elapsed milliseconds lie
    between it and the next second.  With no start time recorded (or a
    start time of 0, which the test treats as absent) it is 0. *)
Theorem duration_is_whole_elapsed_seconds :
  forall start now,
    (forall t, start = Some t -> t <> 0 -> t <= now ->
       0 <= finalDuration start now
       /\ 1000 * finalDuration start now <= now - t < 1000 * (finalDuration start now + 1))
    /\ (start = None \/ start = Some 0 -> finalDuration start now = 0).
Proof.
  intros start now. split.
  - intros t -> Hne Hle. unfold finalDuration.
    destruct (Z.eqb_spec t 0); [contradiction|].
    pose proof (Z.div_mod (now - t) 1000 ltac:(lia)) as Hdm.
    pose proof (Z.mod_pos_bound (now - t) 1000 ltac:(lia)) as Hmod.
    split; [apply Z.div_pos; lia | lia].
  - intros [->| ->]; reflexivity.
Qed.

Lemma duration_is_whole_elapsed_seconds_witness :
  finalDuration (Some 1000) 4999 = 3 /\ 0 <= finalDuration (Some 1000) 4999.
Proof.
  split; [reflexivity|].
  destruct (duration_is_whole_elapsed_seconds (Some 1000) 4999) as [H _].
  apply (H 1000); [reflexivity | discriminate | lia].
Defined.

(** ** Notes and folders *)

Lemma map_if_none {A} (p : A -> bool) (g : A -> A) l :
  (forall x, In x l -> p x = false) -> map (fun x => if p x then g x else x) l = l.
Proof.
  induction l as [|x l IH]; intros H; [reflexivity|]. cbn.
  rewrite (H x (or_introl eq_refl)). f_equal. apply IH. intros y Hy. apply H. now right.
Qed.

(** X13.  Deleting a folder deletes no note.  After a confirmed
    [deleteFolder(id)] the store holds the same notes in the same order
    (same ids), none of them refers to [id] any more, every note that
    did not refer to it is unchanged, no folder with that id remains
    while the other folders stay in order, and the view is moved to
    "all" if it showed the deleted folder.  A declined confirmation
    changes nothing. *)
Theorem deleting_a_folder_keeps_its_notes :
  forall st id,
    let st' := deleteFolder id true st in
    noteIds st' = noteIds st
    /\ length (notes st') = length (notes st)
    /\ (forall n, In n (notes st') -> ~ refersTo id n)
    /\ (forall i n, nth_error (notes st) i = Some n -> ~ refersTo id n ->
                    nth_error (notes st') i = Some n)
    /\ (forall i n, nth_error (notes st) i = Some n -> refersTo id n ->
                    nth_error (notes st') i = Some (withFolderId None n))
    /\ folders st' = List.filter (fun f => negb (String.eqb (f_id f) id)) (folders st)
    /\ (forall f, In f (folders st') -> f_id f <> id)
    /\ (activeView st = id -> activeView st' = "all")
    /\ (activeView st <> id -> activeView st' = activeView st)
    /\ blobStore st' = blobStore st
    /\ deleteFolder id false st = st.
Proof.
  intros st id st'. subst st'. unfold deleteFolder, noteIds. cbn [activeView setFolders].
  assert (Hnotes : forall v, notes (if String.eqb (activeView st) id then setActiveView "all" v
                                    else v) = notes v)
    by (intros v; now destruct (String.eqb _ _)).
  assert (Hfolders : forall v, folders (if String.eqb (activeView st) id
                                        then setActiveView "all" v else v) = folders v)
    by (intros v; now destruct (String.eqb _ _)).
  assert (Hblobs : forall v, blobStore (if String.eqb (activeView st) id
                                        then setActiveView "all" v else v) = blobStore v)
    by (intros v; now destruct (String.eqb _ _)).
  rewrite Hnotes, Hfolders, Hblobs. cbn.
  split.
  { rewrite map_map. apply map_ext. intros n. now destruct (inFolder id n). }
  split; [apply length_map|]. split.
  { intros n Hn. apply in_map_iff in Hn as (m & <- & _).
    destruct (inFolder id m) eqn:E; [discriminate|].
    intros H. apply inFolder_refersTo in H. congruence. }
  split.
  { intros i n Hi Hn. rewrite nth_error_map, Hi. cbn.
    destruct (inFolder id n) eqn:E; [|reflexivity].
    apply inFolder_refersTo in E. contradiction. }
  split.
  { intros i n Hi Hn. rewrite nth_error_map, Hi. cbn.
    apply inFolder_refersTo in Hn. now rewrite Hn. }
  split; [reflexivity|]. split.
  { intros f Hf. apply filter_In in Hf as [_ Hf]. apply negb_true_iff in Hf.
    now apply String.eqb_neq. }
  split.
  { intros ->. now rewrite String.eqb_refl. }
  split; [|split; reflexivity].
  intros Hne. apply String.eqb_neq in Hne. now rewrite Hne.
Qed.

Lemma deleting_a_folder_keeps_its_notes_witness :
  let N := withFolderId (Some "F") (titled "N" "Diary" false 1) in
  let st := setActiveView "F" (setNotes [N] (setFolders [mkFolder "F" "Private" 0 None]
                                               initialApp)) in
  nth_error (notes (deleteFolder "F" true st)) 0 = Some (withFolderId None N)
  /\ activeView (deleteFolder "F" true st) = "all".
Proof.
  cbv zeta.
  pose (N := withFolderId (Some "F") (titled "N" "Diary" false 1)).
  pose (st := setActiveView "F" (setNotes [N] (setFolders [mkFolder "F" "Private" 0 None]
                                                 initialApp))).
  destruct (deleting_a_folder_keeps_its_notes st "F")
    as (_ & _ & _ & _ & Hmoved & _ & _ & Hview & _).
  split; [apply (Hmoved 0%nat N); reflexivity | apply Hview; reflexivity].
Defined.

Lemma applyUpdate_id u n : n_id (applyUpdate u n) = n_id n.
Proof. now destruct u. Qed.

(** X14.  [updateNote] never adds, removes, reorders or renames a note:
    the ids of the store are the same before and after, whatever the
    update; a note with another id is unchanged; and an update addressed
    to an id that is not in the store changes nothing at all. *)
Theorem update_note_touches_only_its_target :
  forall st id u,
    let st' := updateNote id u st in
    noteIds st' = noteIds st
    /\ (forall i n, nth_error (notes st) i = Some n -> n_id n <> id ->
                    nth_error (notes st') i = Some n)
    /\ (forall i n, nth_error (notes st) i = Some n -> n_id n = id ->
                    nth_error (notes st') i = Some (applyUpdate u n))
    /\ (~ In id (noteIds st) -> st' = st)
    /\ folders st' = folders st.
Proof.
  intros st id u st'. subst st'. unfold updateNote, noteIds. cbn. split.
  { rewrite map_map. apply map_ext. intros n.
    destruct (String.eqb _ _); [apply applyUpdate_id | reflexivity]. }
  split.
  { intros i n Hi Hne. rewrite nth_error_map, Hi. cbn.
    apply String.eqb_neq in Hne. now rewrite Hne. }
  split.
  { intros i n Hi E. rewrite nth_error_map, Hi. cbn. now rewrite E, String.eqb_refl. }
  split; [|reflexivity].
  intros Hnot. rewrite map_if_none; [now destruct st|].
  intros n Hn. apply String.eqb_neq. intros E. apply Hnot.
  apply in_map_iff. now exists n.
Qed.

Lemma update_note_touches_only_its_target_witness :
  updateNote "missing" (UpdTitle "x") (setNotes fruitNotes initialApp)
  = setNotes fruitNotes initialApp.
Proof.
  apply (update_note_touches_only_its_target (setNotes fruitNotes initialApp) "missing"
           (UpdTitle "x")).
  cbn. intuition discriminate.
Defined.

Lemma find_unique_id id (l : list Note) n :
  List.NoDup (map n_id l) -> In n l -> n_id n = id ->
  Js.arrFind (fun m => String.eqb (n_id m) id) l = Some n.
Proof.
  unfold Js.arrFind. induction l as [|m l IH]; intros Hnd Hin Hid; [destruct Hin|].
  cbn in Hnd. apply NoDup_cons_iff in Hnd as [Hm Hnd]. cbn.
  destruct Hin as [->|Hin].
  - now rewrite Hid, String.eqb_refl.
  - destruct (String.eqb_spec (n_id m) id) as [E|_]; [|auto].
    exfalso. apply Hm. rewrite E, <- Hid. now apply in_map.
Qed.

Lemma find_map_same_id id (g : Note -> Note) (l : list Note) :
  (forall n, n_id (g n) = n_id n) ->
  Js.arrFind (fun m => String.eqb (n_id m) id) (map g l)
  = option_map g (Js.arrFind (fun m => String.eqb (n_id m) id) l).
Proof.
  intros Hg. unfold Js.arrFind. induction l as [|m l IH]; [reflexivity|]. cbn.
  rewrite Hg. destruct (String.eqb (n_id m) id); [reflexivity | exact IH].
Qed.

(** X15.  In a store whose note ids are pairwise distinct, the pin
    button flips the pinned state of the note it belongs to and of no
    other, and pressing it twice brings every note back to the pinned
    state it had; no note is added, removed or moved. *)
Theorem toggling_the_pin_twice_restores_it :
  forall st id,
    List.NoDup (noteIds st) ->
    let once := onTogglePin id st in
    let twice := onTogglePin id once in
    (forall i n, nth_error (notes st) i = Some n -> n_id n = id ->
       exists n1, nth_error (notes once) i = Some n1 /\ pinned n1 = negb (pinned n))
    /\ (forall i n, nth_error (notes st) i = Some n -> n_id n <> id ->
          nth_error (notes once) i = Some n)
    /\ map pinned (notes twice) = map pinned (notes st)
    /\ noteIds twice = noteIds st.
Proof.
  intros st id Hnd once twice.
  set (flip := fun (l : list Note) =>
         negb match Js.arrFind (fun n => String.eqb (n_id n) id) l with
              | Some n => Js.truthyB (n_isPinned n)
              | None => false
              end).
  set (upd := fun b (n : Note) =>
         if String.eqb (n_id n) id then applyUpdate (UpdPinned b) n else n).
  assert (Hid : forall b n, n_id (upd b n) = n_id n).
  { intros b n. unfold upd. now destruct (String.eqb _ _). }
  assert (Honce : notes once = map (upd (flip (notes st))) (notes st)) by reflexivity.
  assert (Htwice : notes twice = map (upd (flip (notes once))) (notes once)) by reflexivity.
  assert (Hmine : forall n, In n (notes st) -> n_id n = id ->
                            flip (notes st) = negb (pinned n)
                            /\ flip (notes once) = pinned n).
  { intros n Hin Hn.
    assert (H1 : flip (notes st) = negb (pinned n)).
    { unfold flip. now rewrite (find_unique_id id _ n Hnd Hin Hn). }
    split; [exact H1|].
    unfold flip at 1. rewrite Honce, find_map_same_id by apply Hid.
    rewrite (find_unique_id id _ n Hnd Hin Hn). cbn [option_map]. unfold upd.
    rewrite Hn, String.eqb_refl. cbn. rewrite H1. apply negb_involutive. }
  split; [|split; [|split]].
  - intros i n Hi Hn. rewrite Honce, nth_error_map, Hi. cbn. eexists. split; [reflexivity|].
    unfold upd. rewrite Hn, String.eqb_refl. cbn.
    apply (Hmine n (nth_error_In _ _ Hi) Hn).
  - intros i n Hi Hn. rewrite Honce, nth_error_map, Hi. cbn. unfold upd.
    apply String.eqb_neq in Hn. now rewrite Hn.
  - assert (Hhit : forall b n, n_id n = id -> pinned (upd b n) = b).
    { intros b n E. unfold upd. apply String.eqb_eq in E. now rewrite E. }
    assert (Hmiss : forall b n, n_id n <> id -> upd b n = n).
    { intros b n E. unfold upd. apply String.eqb_neq in E. now rewrite E. }
    rewrite Htwice, Honce, !map_map. apply map_ext_in. intros n Hin.
    destruct (String.eqb_spec (n_id n) id) as [E|E].
    + rewrite Hhit by (now rewrite Hid). apply (Hmine n Hin E).
    + rewrite (Hmiss _ n E). now rewrite (Hmiss _ n E).
  - unfold noteIds. rewrite Htwice, Honce, !map_map. apply map_ext. intros n.
    now rewrite !Hid.
Qed.

Lemma toggling_the_pin_twice_restores_it_witness :
  let st := setNotes fruitNotes initialApp in
  map pinned (notes (onTogglePin "n2" st)) = [false; true; true]
  /\ map pinned (notes (onTogglePin "n2" (onTogglePin "n2" st))) = [false; false; true].
Proof.
  cbv zeta. split; [reflexivity|].
  assert (Hnd : List.NoDup (noteIds (setNotes fruitNotes initialApp))).
  { repeat constructor; cbn; intuition discriminate. }
  destruct (toggling_the_pin_twice_restores_it (setNotes fruitNotes initialApp) "n2" Hnd)
    as (_ & _ & Htwice & _).
  exact Htwice.
Defined.

(** ** Folder locks *)

Lemma includes_filter_out l X Y :
  X <> Y ->
  Js.arrIncludes (List.filter (fun id => negb (String.eqb id Y)) l) X = Js.arrIncludes l X.
Proof.
  intros Hne. apply eq_true_iff_eq. rewrite !arrIncludes_In, filter_In.
  split; [tauto|]. intros H. split; [assumption|].
  apply negb_true_iff. now apply String.eqb_neq.
Qed.

(** X16.  Removing the PIN of a folder (the key icon, confirmed) leaves
    no folder of that id with a PIN and takes the id out of the unlocked
    set; the folder is not locked afterwards, the lock state of every
    other folder is what it was, and the folders keep their ids and
    order while notes and dialog are untouched.  Declining the
    confirmation changes nothing. *)
Theorem removing_the_pin_opens_the_folder :
  forall st f,
    Js.truthyOS (f_pin f) = true ->
    let st' := toggleFolderLock f true st in
    (forall g, In g (folders st') -> f_id g = f_id f -> f_pin g = None)
    /\ ~ In (f_id f) (unlockedFolderIds st')
    /\ ~ folderLocked (folders st') (unlockedFolderIds st') (f_id f)
    /\ (forall X, X <> f_id f ->
          (folderLocked (folders st') (unlockedFolderIds st') X
           <-> folderLocked (folders st) (unlockedFolderIds st) X))
    /\ map f_id (folders st') = map f_id (folders st)
    /\ notes st' = notes st
    /\ pinModal st' = pinModal st
    /\ toggleFolderLock f false st = st.
Proof.
  intros st f Hpin st'. subst st'. unfold toggleFolderLock. rewrite Hpin. cbn.
  assert (Hcleared : forall g,
             In g (map (fun h => if String.eqb (f_id h) (f_id f) then withPin None h else h)
                       (folders st)) ->
             f_id g = f_id f -> f_pin g = None).
  { intros g Hg Hid. apply in_map_iff in Hg as (h & <- & _).
    destruct (String.eqb_spec (f_id h) (f_id f)); [reflexivity | contradiction]. }
  split; [exact Hcleared|]. split.
  { intros H. apply filter_In in H as [_ H]. now rewrite String.eqb_refl in H. }
  split.
  { intros (g & Hg & Hid & Hl). unfold locked in Hl.
    rewrite (Hcleared g Hg Hid) in Hl. discriminate. }
  split.
  { intros X HX. unfold folderLocked, locked. split.
    - intros (g & Hg & Hid & Hl). apply in_map_iff in Hg as (h & <- & Hh).
      destruct (String.eqb_spec (f_id h) (f_id f)) as [E|E]; [cbn in Hid; congruence|].
      exists h. rewrite includes_filter_out in Hl by congruence. auto.
    - intros (g & Hg & Hid & Hl). exists g. split; [|split; [assumption|]].
      + apply in_map_iff. exists g. split; [|assumption].
        destruct (String.eqb_spec (f_id g) (f_id f)); [congruence | reflexivity].
      + rewrite includes_filter_out by congruence. assumption. }
  split; [|repeat split].
  rewrite map_map. apply map_ext. intros h. now destruct (String.eqb _ _).
Qed.

Lemma removing_the_pin_opens_the_folder_witness :
  let F := mkFolder "F" "Private" 0 (Some "1234") in
  let st := setUnlockedFolderIds ["F"] (setFolders [F] initialApp) in
  folders (toggleFolderLock F true st) = [mkFolder "F" "Private" 0 None]
  /\ ~ In "F" (unlockedFolderIds (toggleFolderLock F true st)).
Proof.
  cbv zeta. split; [reflexivity|].
  destruct (removing_the_pin_opens_the_folder
              (setUnlockedFolderIds ["F"]
                 (setFolders [mkFolder "F" "Private" 0 (Some "1234")] initialApp))
              (mkFolder "F" "Private" 0 (Some "1234")) eq_refl) as (_ & Hout & _).
  exact Hout.
Defined.

Lemma openFolder_same X st st' :
  unlockedFolderIds st' = unlockedFolderIds st -> folders st' = folders st ->
  openFolder X st -> openFolder X st'.
Proof. unfold openFolder. now intros -> ->. Qed.

Lemma openFolder_not_locked X st :
  openFolder X st -> ~ folderLocked (folders st) (unlockedFolderIds st) X.
Proof.
  intros [Hin|Hnone] (f & Hf & Hid & Hl); unfold locked in Hl;
    apply andb_prop in Hl as [Hpin Hout].
  - apply negb_true_iff in Hout. rewrite Hid in Hout.
    apply arrIncludes_In in Hin. congruence.
  - rewrite (Hnone f Hf Hid) in Hpin. discriminate.
Qed.

Lemma handlePinConfirm_openFolder X pin st :
  openFolder X st -> openFolder X (handlePinConfirm pin st).
Proof.
  intros H. unfold handlePinConfirm. destruct (pinModal st) as [modal|]; [|exact H].
  destruct (pm_mode modal).
  - unfold openFolder. cbn. destruct (String.eqb_spec (pm_folderId modal) X) as [E|E].
    + left. apply in_or_app. right. now left.
    + destruct H as [H|H]; [left; apply in_or_app; now left|].
      right. intros f Hf Hid. apply in_map_iff in Hf as (g & <- & Hg).
      destruct (String.eqb_spec (f_id g) (pm_folderId modal)) as [E'|E'].
      * cbn in Hid. congruence.
      * now apply H.
  - destruct (strictEqOS _ _); unfold openFolder in *; cbn; [|exact H].
    destruct H as [H|H]; [left; apply in_or_app; now left | now right].
Qed.

Lemma stepApp_openFolder X e pin waiting st :
  e <> EvReload -> openFolder X st -> openFolder X (stepApp e pin waiting st).
Proof.
  intros He H. destruct e; cbn [stepApp];
    try (apply (openFolder_same X st); [reflexivity | reflexivity | exact H]).
  - (* createFolder *)
    unfold createFolder. destruct (Js.truthyS _); [|exact H].
    unfold openFolder in *. cbn. destruct H as [H|H]; [now left|]. right.
    intros f Hf Hid. apply in_app_or in Hf as [Hf|[<-|[]]]; [now apply H | reflexivity].
  - (* handleFolderClick *)
    destruct (folderAt i st) as [f|]; [|exact H].
    apply (openFolder_same X st); [| |exact H];
      unfold handleFolderClick; now destruct (_ && _).
  - (* toggleFolderLock *)
    destruct (folderAt i st) as [f|]; [|exact H].
    unfold toggleFolderLock. destruct (Js.truthyOS (f_pin f)); [|exact H].
    destruct confirmed; [|exact H]. unfold openFolder in *. cbn.
    destruct (String.eqb_spec (f_id f) X) as [E|E].
    + right. intros g Hg Hid. apply in_map_iff in Hg as (h & <- & Hh).
      destruct (String.eqb_spec (f_id h) (f_id f)) as [E'|E']; [reflexivity|].
      cbn in Hid. congruence.
    + destruct H as [H|H].
      * left. apply filter_In. split; [exact H|]. apply negb_true_iff.
        apply String.eqb_neq. congruence.
      * right. intros g Hg Hid. apply in_map_iff in Hg as (h & <- & Hh).
        destruct (String.eqb_spec (f_id h) (f_id f)) as [E'|E']; [reflexivity|].
        now apply H.
  - (* deleteFolder *)
    destruct (folderAt i st) as [f|]; [|exact H].
    unfold deleteFolder. destruct confirmed; [|exact H].
    assert (Hopen : openFolder X
              (setNotes (map (fun n => if inFolder (f_id f) n then withFolderId None n else n)
                             (notes st))
                 (setFolders (List.filter (fun g => negb (String.eqb (f_id g) (f_id f)))
                                (folders st)) st))).
    { unfold openFolder in *. cbn. destruct H as [H|H]; [now left|]. right.
      intros g Hg Hid. apply filter_In in Hg as [Hg _]. now apply H. }
    cbv zeta. cbn [activeView setNotes setFolders].
    destruct (String.eqb _ _); [|exact Hopen].
    apply (openFolder_same X _ _ eq_refl eq_refl Hopen).
  - (* enterPin *)
    apply (openFolder_same X st); [| |exact H]; unfold enterPin; split_tests; reflexivity.
  - (* submit *)
    destruct (pinModal st) as [modal|] eqn:Em; [|exact H].
    unfold PinModal.handleSubmit. destruct (_ =? _)%nat; [|exact H].
    now apply handlePinConfirm_openFolder.
  - (* pinCancel *)
    apply (openFolder_same X st); [| |exact H]; unfold pinCancel; split_tests; reflexivity.
  - (* deleteNote *)
    apply (openFolder_same X st); [| |exact H]; unfold deleteNote; split_tests; reflexivity.
  - (* startSettled *)
    apply (openFolder_same X st); [| |exact H];
      unfold startSettled, startRecording; split_tests; reflexivity.
  - (* stopRecording *)
    apply (openFolder_same X st); [| |exact H]; unfold stopRecording; split_tests; reflexivity.
  - (* ondataavailable *)
    apply (openFolder_same X st); [| |exact H]; unfold ondataavailable; split_tests;
      reflexivity.
  - (* timerTick *)
    apply (openFolder_same X st); [| |exact H]; unfold timerTick; split_tests; reflexivity.
  - (* onstopSaved *)
    apply (openFolder_same X st); [| |exact H]; unfold onstopSaved; split_tests; reflexivity.
  - (* onloadend *)
    apply (openFolder_same X st); [| |exact H]; unfold onloadend, transcribeSettled;
      split_tests; reflexivity.
  - (* reload *)
    contradiction.
Qed.

Lemma run_openFolder X events : forall sc,
  sameSession events = true -> openFolder X (app sc) -> openFolder X (app (run sc events)).
Proof.
  induction events as [|e events IH]; intros sc Hs H; [exact H|].
  cbn in Hs. apply andb_prop in Hs as [He Hs]. cbn. apply IH; [exact Hs|].
  cbn. apply stepApp_openFolder; [|exact H]. intros ->. discriminate.
Qed.

(** X17.  A PIN set through the dialog protects from the next session
    on.  Right after the PIN is set the folder is in the unlocked set
    and not locked, and it is not locked in any state the page reaches
    afterwards, whatever events follow short of a reload, a later
    removal of the PIN or deletion of the folder included.  A reload
    right after the PIN was set locks the folder: its own view is empty
    under every query and sort order, and no note of it shows in the
    "all" view; the notes themselves are untouched throughout.  A reload
    at any later point locks the folder exactly when a folder of that id
    still carries a PIN. *)
Theorem a_new_pin_locks_after_reload :
  forall lc st X err pin,
    pinModal st = Some (mkPinModal modeSet X err) ->
    (exists f, In f (folders st) /\ f_id f = X) ->
    pin <> "" -> X <> "" -> folderView X = true ->
    let set := handlePinConfirm pin st in
    let next := reload set in
    In X (unlockedFolderIds set)
    /\ ~ folderLocked (folders set) (unlockedFolderIds set) X
    /\ (forall input waiting events,
          sameSession events = true ->
          ~ folderLocked (folders (app (run (mkScreen set input waiting) events)))
              (unlockedFolderIds (app (run (mkScreen set input waiting) events))) X
          /\ (folderLocked
                (folders (reload (app (run (mkScreen set input waiting) events))))
                (unlockedFolderIds (reload (app (run (mkScreen set input waiting) events))))
                X
              <-> exists f,
                    In f (folders (app (run (mkScreen set input waiting) events)))
                    /\ f_id f = X /\ Js.truthyOS (f_pin f) = true))
    /\ folderLocked (folders next) (unlockedFolderIds next) X
    /\ (forall q sortBy,
          filteredAndSortedNotes lc (notes next) X q sortBy (folders next)
            (unlockedFolderIds next) = [])
    /\ (forall q sortBy n,
          In n (filteredAndSortedNotes lc (notes next) "all" q sortBy (folders next)
                  (unlockedFolderIds next)) -> ~ refersTo X n)
    /\ notes next = notes st.
Proof.
  intros lc st X err pin Hm (f & Hf & Hid) Hpin HX HV set next.
  assert (Hset : set = setPinModal None
                         (setUnlockedFolderIds (unlockedFolderIds st ++ [X])
                            (setFolders
                               (map (fun g => if String.eqb (f_id g) X
                                              then withPin (Some pin) g else g)
                                    (folders st)) st))).
  { subst set. unfold handlePinConfirm. now rewrite Hm. }
  assert (Hlocked : folderLocked (folders next) (unlockedFolderIds next) X).
  { subst next. rewrite Hset. cbn. exists (withPin (Some pin) f). split; [|split].
    - apply in_map_iff. exists f. split; [|assumption].
      apply String.eqb_eq in Hid. now rewrite Hid.
    - exact Hid.
    - unfold locked. cbn. unfold Js.truthyS.
      apply String.eqb_neq in Hpin. now rewrite Hpin. }
  assert (Hin : In X (unlockedFolderIds set)).
  { rewrite Hset. cbn. apply in_or_app. right. now left. }
  split; [exact Hin|]. split; [now apply unlocked_not_locked|].
  split; [|split; [exact Hlocked | split; [|split]]].
  - intros input waiting events Hs. split.
    + apply openFolder_not_locked. apply run_openFolder; [exact Hs|]. now left.
    + unfold folderLocked, locked. cbn [reload folders unlockedFolderIds Js.arrIncludes existsb].
      split; intros (g & Hg & Hgid & Hl); exists g; (split; [exact Hg | split; [exact Hgid|]]).
      * now apply andb_prop in Hl as [Hl _].
      * now rewrite Hl.
  - intros q sortBy. now apply folder_view_locked.
  - intros q sortBy n Hn Href. apply all_view_folderOpen in Hn.
    now apply (folderOpen_not_locked _ _ _ X Hn Href HX).
  - subst next. now rewrite Hset.
Qed.

Lemma a_new_pin_locks_after_reload_witness :
  let F := mkFolder "F" "Private" 0 None in
  let N := withFolderId (Some "F") (titled "N" "Diary" false 1) in
  let st := setPinModal (Some (mkPinModal modeSet "F" None))
              (setNotes [N] (setFolders [F] initialApp)) in
  let next := reload (handlePinConfirm "1234" st) in
  filteredAndSortedNotes foldedCompare (notes (handlePinConfirm "1234" st)) "F" "" newest
    (folders (handlePinConfirm "1234" st)) (unlockedFolderIds (handlePinConfirm "1234" st))
  = [N]
  /\ filteredAndSortedNotes foldedCompare (notes next) "F" "" newest (folders next)
       (unlockedFolderIds next) = []
  /\ folders (reload (app (run (mkScreen (handlePinConfirm "1234" st) "" [])
                               [EvToggleFolderLock 0 true])))
     = [F]
  /\ ~ folderLocked
         (folders (app (run (mkScreen (handlePinConfirm "1234" st) "" [])
                            [EvToggleFolderLock 0 true])))
         (unlockedFolderIds (app (run (mkScreen (handlePinConfirm "1234" st) "" [])
                                      [EvToggleFolderLock 0 true])))
         "F".
Proof.
  cbv zeta. split; [reflexivity|].
  pose (F := mkFolder "F" "Private" 0 None).
  pose (N := withFolderId (Some "F") (titled "N" "Diary" false 1)).
  pose (st := setPinModal (Some (mkPinModal modeSet "F" None))
                (setNotes [N] (setFolders [F] initialApp))).
  assert (Hm : pinModal st = Some (mkPinModal modeSet "F" None)) by reflexivity.
  assert (Hf : exists f, In f (folders st) /\ f_id f = "F") by (exists F; split; [now left | reflexivity]).
  assert (Hp : "1234" <> "") by discriminate.
  assert (HX : "F" <> "") by discriminate.
  destruct (a_new_pin_locks_after_reload foldedCompare st "F" None "1234" Hm Hf Hp HX eq_refl)
    as (_ & _ & Hlater & _ & Hempty & _).
  split; [apply (Hempty "" newest)|]. split; [reflexivity|].
  apply (Hlater "" [] [EvToggleFolderLock 0 true] eq_refl).
Defined.

(** X18.  Clicking a locked folder reveals nothing: the view switches
    to the folder and the PIN dialog opens, but the visible list is
    empty under every query and sort order and nothing is unlocked;
    cancelling the dialog then brings the view back to "all" with the
    folder still locked, the state differing from the one before the
    click in the view alone.  Clicking a folder that is not locked opens
    no dialog. *)
Theorem clicking_a_locked_folder_reveals_nothing :
  forall lc st f,
    In f (folders st) -> folderView (f_id f) = true ->
    (locked (unlockedFolderIds st) f = true ->
     let clicked := handleFolderClick f st in
     activeView clicked = f_id f
     /\ pinModal clicked = Some (mkPinModal modeEnter (f_id f) None)
     /\ unlockedFolderIds clicked = unlockedFolderIds st
     /\ (forall q sortBy,
           filteredAndSortedNotes lc (notes clicked) (activeView clicked) q sortBy
             (folders clicked) (unlockedFolderIds clicked) = [])
     /\ pinCancel clicked = setPinModal None (setActiveView "all" st)
     /\ folderLocked (folders (pinCancel clicked)) (unlockedFolderIds (pinCancel clicked))
          (f_id f))
    /\ (locked (unlockedFolderIds st) f = false ->
        handleFolderClick f st = setActiveView (f_id f) st).
Proof.
  intros lc st f Hin HV. unfold handleFolderClick, locked. split; intros Hl; rewrite Hl.
  - cbn. repeat split.
    + intros q sortBy. apply folder_view_locked; [assumption|]. now exists f.
    + now exists f.
  - reflexivity.
Qed.

Lemma clicking_a_locked_folder_reveals_nothing_witness :
  let F := mkFolder "F" "Private" 0 (Some "1234") in
  let N := withFolderId (Some "F") (titled "N" "Diary" false 1) in
  let st := setNotes [N] (setFolders [F] initialApp) in
  filteredAndSortedNotes foldedCompare (notes (handleFolderClick F st))
    (activeView (handleFolderClick F st)) "" newest (folders (handleFolderClick F st))
    (unlockedFolderIds (handleFolderClick F st)) = [].
Proof.
  cbv zeta.
  pose (F := mkFolder "F" "Private" 0 (Some "1234")).
  pose (N := withFolderId (Some "F") (titled "N" "Diary" false 1)).
  pose (st := setNotes [N] (setFolders [F] initialApp)).
  assert (Hin : In F (folders st)) by now left.
  destruct (clicking_a_locked_folder_reveals_nothing foldedCompare st F Hin eq_refl)
    as [Hlocked _].
  destruct (Hlocked eq_refl) as (_ & _ & _ & Hempty & _).
  apply (Hempty "" newest).
Defined.

(** ** Creating folders *)

Lemma trimEnd_idem s : Js.trimEnd (Js.trimEnd s) = Js.trimEnd s.
Proof.
  induction s as [|c s IH]; [reflexivity|]. cbn.
  destruct (Js.isWhiteSpace c && String.eqb (Js.trimEnd s) "") eqn:E; [reflexivity|].
  cbn. now rewrite IH, E.
Qed.

Lemma trimStart_of_trimmed s :
  Js.trimStart (Js.trimEnd (Js.trimStart s)) = Js.trimEnd (Js.trimStart s).
Proof.
  induction s as [|c s IH]; [reflexivity|]. cbn.
  destruct (Js.isWhiteSpace c) eqn:E; [exact IH|].
  cbn. rewrite E. cbn. now rewrite E.
Qed.

Lemma trim_idem s : Js.trim (Js.trim s) = Js.trim s.
Proof. unfold Js.trim. now rewrite trimStart_of_trimmed, trimEnd_idem. Qed.

(** X19.  [createFolder] creates nothing from a blank name: the folders
    and the view stay as they are and the input is closed.  From any
    other name it appends exactly one folder, after the existing ones
    and leaving them as they were: it carries the generated id, no PIN,
    and the name with the surrounding white space removed (a name that
    is not empty and that trimming again would not change); the view
    moves to the new folder and the input is cleared. *)
Theorem a_folder_is_created_from_a_trimmed_name :
  forall st id now,
    let st' := createFolder id now st in
    (blank (newFolderName st) = true ->
     folders st' = folders st /\ activeView st' = activeView st
     /\ isAddingFolder st' = false)
    /\ (blank (newFolderName st) = false ->
        exists f,
          folders st' = (folders st ++ [f])%list
          /\ f_id f = id /\ f_pin f = None /\ f_timestamp f = now
          /\ f_name f = Js.trim (newFolderName st)
          /\ f_name f <> "" /\ Js.trim (f_name f) = f_name f
          /\ activeView st' = id /\ newFolderName st' = "" /\ isAddingFolder st' = false
          /\ notes st' = notes st
          /\ unlockedFolderIds st' = unlockedFolderIds st).
Proof.
  intros st id now st'. subst st'. unfold createFolder. rewrite truthyS_trim.
  split; intros Hb; rewrite Hb; cbn.
  - repeat split.
  - eexists. split; [reflexivity|]. cbn.
    split; [reflexivity|]. split; [reflexivity|]. split; [reflexivity|].
    split; [reflexivity|]. split.
    + intros H. pose proof (truthyS_trim (newFolderName st)) as Ht.
      rewrite H, Hb in Ht. discriminate.
    + split; [apply trim_idem | repeat split].
Qed.

Lemma a_folder_is_created_from_a_trimmed_name_witness :
  let st := setNewFolderName "  Work notes " initialApp in
  folders (createFolder "f1" 5 st) = [mkFolder "f1" "Work notes" 5 None]
  /\ folders (createFolder "f1" 5 (setNewFolderName "   " initialApp)) = [].
Proof.
  cbv zeta. split; [reflexivity|].
  destruct (a_folder_is_created_from_a_trimmed_name
              (setNewFolderName "   " initialApp) "f1" 5) as [Hblank _].
  destruct (Hblank eq_refl) as (Hf & _). exact Hf.
Defined.

(** ** The view *)

Lemma existsb_id_map (g : Folder -> Folder) v l :
  (forall f, f_id (g f) = f_id f) ->
  existsb (fun f => String.eqb (f_id f) v) (map g l)
  = existsb (fun f => String.eqb (f_id f) v) l.
Proof.
  intros Hg. induction l as [|f l IH]; [reflexivity|]. cbn. now rewrite Hg, IH.
Qed.

Lemma viewExists_same st st' :
  activeView st' = activeView st -> folders st' = folders st ->
  viewExists st = true -> viewExists st' = true.
Proof. unfold viewExists. now intros -> ->. Qed.

Lemma viewExists_builtin st v :
  folderView v = false -> activeView st = v -> viewExists st = true.
Proof. unfold viewExists. now intros H ->; rewrite H. Qed.

Lemma viewExists_member st f :
  In f (folders st) -> activeView st = f_id f -> viewExists st = true.
Proof.
  unfold viewExists. intros Hin ->. apply orb_true_iff. right.
  apply existsb_exists. exists f. split; [assumption | apply String.eqb_refl].
Qed.

Lemma stepApp_viewExists e pin waiting st :
  viewExists st = true -> viewExists (stepApp e pin waiting st) = true.
Proof.
  intros H. destruct e; cbn [stepApp];
    try (apply (viewExists_same st); [reflexivity | reflexivity | exact H]);
    try (eapply viewExists_builtin; [|reflexivity]; reflexivity).
  - (* createFolder *)
    unfold createFolder. destruct (Js.truthyS _).
    + apply (viewExists_member _ (mkFolder id (Js.trim (newFolderName st)) now None));
        [cbn; apply in_or_app; right; now left | reflexivity].
    + exact H.
  - (* handleFolderClick *)
    destruct (folderAt i st) as [f|] eqn:E; [|exact H].
    apply (viewExists_member _ f).
    + unfold handleFolderClick. destruct (_ && _); cbn; eapply nth_error_In; exact E.
    + unfold handleFolderClick. now destruct (_ && _).
  - (* toggleFolderLock *)
    destruct (folderAt i st) as [f|]; [|exact H].
    unfold toggleFolderLock. destruct (Js.truthyOS _); [|exact H].
    destruct confirmed; [|exact H]. unfold viewExists in *. cbn.
    rewrite existsb_id_map; [exact H|].
    intros g. now destruct (String.eqb _ _).
  - (* deleteFolder *)
    destruct (folderAt i st) as [f|]; [|exact H].
    unfold deleteFolder. destruct confirmed; [|exact H]. cbn.
    destruct (String.eqb_spec (activeView st) (f_id f)) as [E|E].
    + now apply (viewExists_builtin _ "all").
    + unfold viewExists in *. cbn. apply orb_true_iff in H as [H|H]; [now rewrite H|].
      apply orb_true_iff. right. apply existsb_exists in H as (g & Hg & Hv).
      apply existsb_exists. exists g. split; [|assumption].
      apply filter_In. split; [assumption|]. apply negb_true_iff. apply String.eqb_neq.
      apply String.eqb_eq in Hv. congruence.
  - (* enterPin *)
    apply (viewExists_same st); [| |exact H]; unfold enterPin; split_tests; reflexivity.
  - (* submit *)
    destruct (pinModal st) as [modal|] eqn:Em; [|exact H].
    unfold PinModal.handleSubmit. destruct (_ =? _)%nat; [|exact H].
    unfold handlePinConfirm. rewrite Em. destruct (pm_mode modal).
    + unfold viewExists in *. cbn. rewrite existsb_id_map; [exact H|].
      intros g. now destruct (String.eqb _ _).
    + apply (viewExists_same st); [| |exact H]; now destruct (strictEqOS _ _).
  - (* pinCancel *)
    unfold pinCancel. destruct (pinModal st) as [modal|]; [|exact H].
    destruct (pm_mode modal); [exact H | now apply (viewExists_builtin _ "all")].
  - (* deleteNote *)
    apply (viewExists_same st); [| |exact H]; unfold deleteNote; split_tests; reflexivity.
  - (* startSettled *)
    apply (viewExists_same st); [| |exact H];
      unfold startSettled, startRecording; split_tests; reflexivity.
  - (* stopRecording *)
    apply (viewExists_same st); [| |exact H];
      unfold stopRecording; split_tests; reflexivity.
  - (* ondataavailable *)
    apply (viewExists_same st); [| |exact H]; unfold ondataavailable; split_tests;
      reflexivity.
  - (* timerTick *)
    apply (viewExists_same st); [| |exact H]; unfold timerTick; split_tests; reflexivity.
  - (* onstopSaved *)
    apply (viewExists_same st); [| |exact H]; unfold onstopSaved; split_tests; reflexivity.
  - (* onloadend *)
    apply (viewExists_same st); [| |exact H]; unfold onloadend, transcribeSettled;
      split_tests; reflexivity.
Qed.

(** X20.  The active view is never a folder that does not exist.
    Through every sequence of events of the screen (folders created,
    clicked, locked, unlocked and deleted, dialogs confirmed and
    cancelled, recordings, reloads) the view stays one of "all",
    "favorites", "uncategorized" or the id of a folder in the list,
    provided it was so at the beginning, as it is on the first page. *)
Theorem the_view_never_dangles :
  forall sc events,
    viewExists (app sc) = true ->
    viewExists (app (run sc events)) = true
    /\ (folderView (activeView (app (run sc events))) = true ->
        exists f, In f (folders (app (run sc events)))
                  /\ f_id f = activeView (app (run sc events))).
Proof.
  intros sc events H.
  assert (Hrun : viewExists (app (run sc events)) = true).
  { revert sc H. induction events as [|e events IH]; intros sc H; [exact H|].
    cbn. apply IH. cbn. now apply stepApp_viewExists. }
  split; [exact Hrun|]. intros HV. unfold viewExists in Hrun. rewrite HV in Hrun.
  cbn in Hrun. apply existsb_exists in Hrun as (f & Hf & Hid).
  exists f. split; [assumption | now apply String.eqb_eq].
Qed.

Lemma the_view_never_dangles_witness :
  let events :=
    [ EvAddFolder; EvNewFolderName "Work"; EvCreateFolder "f1" 0; EvDeleteFolder 0 true ] in
  activeView (app (run initialScreen [EvAddFolder; EvNewFolderName "Work";
                                       EvCreateFolder "f1" 0])) = "f1"
  /\ viewExists (app (run initialScreen events)) = true
  /\ activeView (app (run initialScreen events)) = "all".
Proof.
  cbv zeta. split; [reflexivity|]. split; [|reflexivity].
  apply (the_view_never_dangles initialScreen
           [ EvAddFolder; EvNewFolderName "Work"; EvCreateFolder "f1" 0;
             EvDeleteFolder 0 true ]).
  reflexivity.
Defined.

Lemma find_folder_first v (l : list Folder) f :
  Js.arrFind (fun g => String.eqb (f_id g) v) l = Some f -> In f l /\ f_id f = v.
Proof.
  unfold Js.arrFind. intros H. apply find_some in H as [Hin Hid].
  split; [assumption | now apply String.eqb_eq].
Qed.

Lemma find_folder_unique v (l : list Folder) f :
  List.NoDup (map f_id l) -> In f l -> f_id f = v ->
  Js.arrFind (fun g => String.eqb (f_id g) v) l = Some f.
Proof.
  unfold Js.arrFind. induction l as [|g l IH]; intros Hnd Hin Hid; [destruct Hin|].
  cbn in Hnd. apply NoDup_cons_iff in Hnd as [Hg Hnd]. cbn.
  destruct Hin as [->|Hin].
  - now rewrite Hid, String.eqb_refl.
  - destruct (String.eqb_spec (f_id g) v) as [E|_]; [|auto].
    exfalso. apply Hg. rewrite E, <- Hid. now apply in_map.
Qed.

(** X21.  The "Collection Locked" placeholder and the blocking of the
    list agree.  When the placeholder is shown for a folder view the
    visible list is empty; and in a folder list with pairwise distinct
    ids the placeholder is shown exactly when a folder with the id of
    the view is locked, which is exactly when the list is blocked.  The
    helper [isFolderLocked] gives the same answer as the placeholder
    test for every non-empty view id. *)
Theorem the_locked_placeholder_matches_the_list :
  forall lc st,
    (isViewLocked st = true ->
     folderLocked (folders st) (unlockedFolderIds st) (activeView st)
     /\ (folderView (activeView st) = true ->
         forall q sortBy,
           filteredAndSortedNotes lc (notes st) (activeView st) q sortBy (folders st)
             (unlockedFolderIds st) = []))
    /\ (List.NoDup (map f_id (folders st)) ->
        isViewLocked st
        = Js.arrIncludes (lockedFolderIds (folders st) (unlockedFolderIds st)) (activeView st))
    /\ (activeView st <> "" ->
        isFolderLocked (folders st) (unlockedFolderIds st) (Some (activeView st))
        = isViewLocked st).
Proof.
  intros lc st.
  assert (Hfwd : isViewLocked st = true ->
                 folderLocked (folders st) (unlockedFolderIds st) (activeView st)).
  { unfold isViewLocked. intros H. apply andb_prop in H as [Hp Hu].
    destruct (Js.arrFind _ (folders st)) as [f|] eqn:E; [|discriminate].
    apply find_folder_first in E as [Hin Hid]. exists f. split; [assumption|].
    split; [assumption|]. unfold locked. cbn in Hp. now rewrite Hp, Hid, Hu. }
  split; [|split].
  - intros H. split; [now apply Hfwd|]. intros HV q sortBy.
    apply folder_view_locked; [assumption | now apply Hfwd].
  - intros Hnd. apply eq_true_iff_eq. rewrite lockedFolderIds_includes.
    split; [exact Hfwd|]. intros (f & Hin & Hid & Hl). unfold isViewLocked.
    rewrite (find_folder_unique _ _ f Hnd Hin Hid). cbn.
    unfold locked in Hl. now rewrite Hid in Hl.
  - intros Hne. unfold isFolderLocked, isViewLocked. cbn. unfold Js.truthyS.
    apply String.eqb_neq in Hne. rewrite Hne. cbn.
    now destruct (Js.arrFind _ (folders st)).
Qed.

Lemma the_locked_placeholder_matches_the_list_witness :
  let F := mkFolder "F" "Private" 0 (Some "1234") in
  let st := setActiveView "F" (setFolders [F] initialApp) in
  isViewLocked st = true
  /\ Js.arrIncludes (lockedFolderIds (folders st) (unlockedFolderIds st)) (activeView st)
     = true.
Proof.
  cbv zeta. split; [reflexivity|].
  pose (st := setActiveView "F" (setFolders [mkFolder "F" "Private" 0 (Some "1234")]
                                   initialApp)).
  destruct (the_locked_placeholder_matches_the_list foldedCompare st) as (_ & Hagree & _).
  transitivity (isViewLocked st); [symmetry; apply Hagree | reflexivity].
  repeat constructor. intros [].
Defined.

(** X22.  The record bar does not promise a folder it will not use:
    whenever the place it names after "New session will be stored in"
    is not "Library", the view is a folder of the list with that very
    name and the new note will be given that folder; and whenever the
    new note will have no folder, the place named is "Library". *)
Theorem the_stored_in_label_names_the_target :
  forall st,
    (targetFolder (activeView st) = None -> storedInLabel st = "Library")
    /\ (storedInLabel st <> "Library" ->
        exists f, In f (folders st)
                  /\ f_id f = activeView st
                  /\ f_name f = storedInLabel st
                  /\ targetFolder (activeView st) = Some (f_id f)).
Proof.
  intros st. unfold storedInLabel, getActiveViewTitle, targetFolder.
  destruct (String.eqb (activeView st) "all"); [split; [reflexivity | intros H; now elim H]|].
  destruct (String.eqb (activeView st) "uncategorized");
    [split; [reflexivity | intros H; now elim H]|].
  destruct (String.eqb (activeView st) "favorites");
    [split; [reflexivity | intros H; now elim H]|].
  cbn [orb]. split; [discriminate|].
  destruct (Js.arrFind _ (folders st)) as [f|] eqn:E; cbn [option_map orElse].
  - apply find_folder_first in E as [Hin Hid].
    destruct (Js.truthyS (f_name f)).
    + destruct (String.eqb (f_name f) "Library" || _ || _) eqn:Et;
        [intros H; now elim H|].
      intros _. exists f. rewrite Hid. repeat split; assumption.
    + cbn. intros H. now elim H.
  - cbn. intros H. now elim H.
Qed.

Lemma the_stored_in_label_names_the_target_witness :
  let st := setActiveView "f1" (setFolders [mkFolder "f1" "Work" 0 None] initialApp) in
  storedInLabel st = "Work"
  /\ storedInLabel initialApp = "Library".
Proof.
  cbv zeta. split; [reflexivity|].
  apply (the_stored_in_label_names_the_target initialApp). reflexivity.
Defined.

(** ** The note card *)

Module CardMore.
Import NoteCard.

Lemma stopTts_idem c : stopTts (stopTts c) = stopTts c.
Proof. unfold stopTts. destruct (ttsAudioRef c) eqn:E; cbn; rewrite ?E; reflexivity. Qed.

Lemma stopTts_idle c :
  ttsAudioRef c = None -> ttsStatus c = ttsIdle -> activeTtsSection c = None ->
  stopTts c = c.
Proof.
  destruct c. cbn. intros -> -> ->. reflexivity.
Qed.

End CardMore.

(** X23.  [stopTts] can be called at any time: on a card that is idle
    with nothing referenced it changes nothing, calling it twice is the
    same as calling it once, and after it the card is idle with no
    active section and no source referenced, the source it referenced
    no longer sounds, and the recorded playback is as it was. *)
Theorem stopping_read_aloud_is_idempotent :
  forall c,
    NoteCard.stopTts (NoteCard.stopTts c) = NoteCard.stopTts c
    /\ (NoteCard.ttsAudioRef c = None -> NoteCard.ttsStatus c = NoteCard.ttsIdle ->
        NoteCard.activeTtsSection c = None -> NoteCard.stopTts c = c)
    /\ NoteCard.ttsStatus (NoteCard.stopTts c) = NoteCard.ttsIdle
    /\ NoteCard.activeTtsSection (NoteCard.stopTts c) = None
    /\ NoteCard.ttsAudioRef (NoteCard.stopTts c) = None
    /\ (forall src, NoteCard.ttsAudioRef c = Some src ->
                    ~ In src (NoteCard.sounding (NoteCard.stopTts c)))
    /\ NoteCard.isPlaying (NoteCard.stopTts c) = NoteCard.isPlaying c
    /\ NoteCard.audioRef (NoteCard.stopTts c) = NoteCard.audioRef c.
Proof.
  intros c. split; [apply CardMore.stopTts_idem|].
  split; [apply CardMore.stopTts_idle|].
  unfold NoteCard.stopTts. destruct (NoteCard.ttsAudioRef c) as [src|] eqn:E; cbn;
    repeat split; try discriminate; try assumption.
  intros s [= <-] H. apply filter_In in H as [_ H]. now rewrite Nat.eqb_refl in H.
Qed.

Lemma stopping_read_aloud_is_idempotent_witness :
  NoteCard.stopTts (NoteCard.mount (spoken "a")) = NoteCard.mount (spoken "a").
Proof.
  apply (stopping_read_aloud_is_idempotent (NoteCard.mount (spoken "a"))); reflexivity.
Defined.

(** X24.  Speech is never requested for nothing.  When [handleReadAloud]
    goes on to call [generateSpeech], the text it passes is not empty,
    and it is the summary for the summary section and, for the
    transcription section, the translation when there is a non-empty
    one and the original transcription otherwise; the card is then
    loading with that section marked.  When no request is made the card
    is idle.  Pressing the button of the section that is playing makes
    no request: it only stops the read-aloud. *)
Theorem speech_is_requested_for_text_only :
  forall section c,
    (forall text,
        snd (NoteCard.handleReadAloud section c) = Some text ->
        text <> ""
        /\ match section with
           | NoteCard.secSummary => n_summary (NoteCard.note c) = Some text
           | NoteCard.secTranscription =>
               (n_translatedTranscription (NoteCard.note c) = Some text
                \/ (Js.truthyOS (n_translatedTranscription (NoteCard.note c)) = false
                    /\ n_transcription (NoteCard.note c) = text))
           end
        /\ NoteCard.ttsStatus (fst (NoteCard.handleReadAloud section c)) = NoteCard.ttsLoading
        /\ NoteCard.activeTtsSection (fst (NoteCard.handleReadAloud section c))
           = Some section)
    /\ (snd (NoteCard.handleReadAloud section c) = None ->
        NoteCard.ttsStatus (fst (NoteCard.handleReadAloud section c)) = NoteCard.ttsIdle)
    /\ (NoteCard.ttsStatus c = NoteCard.ttsPlaying ->
        NoteCard.activeTtsSection c = Some section ->
        NoteCard.handleReadAloud section c = (NoteCard.stopTts c, None)).
Proof.
  intros section c. destruct c as [n ip ts act ref ctxr aref so al].
  unfold NoteCard.handleReadAloud, NoteCard.stopTts. cbn [NoteCard.note NoteCard.ttsStatus
    NoteCard.activeTtsSection NoteCard.ttsAudioRef NoteCard.isPlaying NoteCard.audioRef].
  assert (Htext : forall text,
             Js.truthyOS (NoteCard.textToRead section n) = true ->
             NoteCard.textToRead section n = Some text ->
             text <> ""
             /\ match section with
                | NoteCard.secSummary => n_summary n = Some text
                | NoteCard.secTranscription =>
                    n_translatedTranscription n = Some text
                    \/ (Js.truthyOS (n_translatedTranscription n) = false
                        /\ n_transcription n = text)
                end).
  { intros text Et Htext. rewrite Htext in Et. split; [intros ->; discriminate|].
    unfold NoteCard.textToRead in Htext. destruct section; [exact Htext|].
    destruct (Js.truthyOS (n_translatedTranscription n)) eqn:Etr.
    - now left.
    - right. split; [reflexivity | congruence]. }
  split; [|split].
  - intros text.
    destruct ts, act as [s0|]; try destruct (NoteCard.sectionEqb s0 section);
      destruct ref, ip, aref; cbn -[NoteCard.textToRead Js.truthyOS];
      try (intros H; discriminate H);
      (destruct (Js.truthyOS (NoteCard.textToRead section n)) eqn:Et;
       cbn -[NoteCard.textToRead Js.truthyOS]; [|intros H; discriminate H];
       intros H; destruct (Htext text eq_refl H) as [H1 H2];
       split; [exact H1 | split; [exact H2 | split; reflexivity]]).
  - destruct ts, act as [s0|]; try destruct (NoteCard.sectionEqb s0 section);
      destruct ref, ip, aref; cbn -[NoteCard.textToRead Js.truthyOS];
      try (intros _; reflexivity);
      (destruct (Js.truthyOS (NoteCard.textToRead section n)) eqn:Et;
       cbn -[NoteCard.textToRead Js.truthyOS];
       [intros H; rewrite H in Et; discriminate | intros _; reflexivity]).
  - cbn. intros -> [= ->]. destruct section; reflexivity.
Qed.

Lemma speech_is_requested_for_text_only_witness :
  snd (NoteCard.handleReadAloud NoteCard.secTranscription (NoteCard.mount (spoken "a")))
  = Some "buy milk"
  /\ "buy milk" <> "".
Proof.
  split; [reflexivity|].
  destruct (speech_is_requested_for_text_only NoteCard.secTranscription
              (NoteCard.mount (spoken "a"))) as [Hreq _].
  apply (Hreq "buy milk"). reflexivity.
Defined.

Lemma stopTts_alerts c : NoteCard.cardAlerts (NoteCard.stopTts c) = NoteCard.cardAlerts c.
Proof. unfold NoteCard.stopTts. now destruct (NoteCard.ttsAudioRef c). Qed.

Lemma readAloud_alerts section c :
  NoteCard.cardAlerts (fst (NoteCard.handleReadAloud section c)) = NoteCard.cardAlerts c.
Proof.
  unfold NoteCard.handleReadAloud.
  destruct (match NoteCard.ttsStatus c with NoteCard.ttsPlaying => _ | _ => _ end);
    [apply stopTts_alerts|].
  cbv zeta.
  destruct (NoteCard.isPlaying (NoteCard.stopTts c)), (NoteCard.audioRef (NoteCard.stopTts c));
    destruct (Js.truthyOS _); cbn -[NoteCard.stopTts]; apply stopTts_alerts.
Qed.

(** X25.  However a read-aloud ends, the card is left idle and silent.
    For a card that knows its sounding sources and has requested
    speech: when the speech plays to its natural end the card is idle,
    no section is marked and nothing of the card is audible; when the
    synthesis or the decoding fails the same holds and the user is told
    so, once. *)
Theorem read_aloud_always_ends_idle :
  forall c section text,
    NoteCard.tracked c ->
    snd (NoteCard.handleReadAloud section c) = Some text ->
    let loading := fst (NoteCard.handleReadAloud section c) in
    (forall src,
        let ended :=
          NoteCard.sourceEnded src
            (NoteCard.speechSettled (NoteCard.SpeechReady src) loading) in
        NoteCard.ttsStatus ended = NoteCard.ttsIdle
        /\ NoteCard.activeTtsSection ended = None
        /\ NoteCard.audible ended = 0%nat
        /\ NoteCard.cardAlerts ended = NoteCard.cardAlerts c)
    /\ (forall answer,
           (forall src, answer <> NoteCard.SpeechReady src) ->
           let failed := NoteCard.speechSettled answer loading in
           NoteCard.ttsStatus failed = NoteCard.ttsIdle
           /\ NoteCard.activeTtsSection failed = None
           /\ NoteCard.audible failed = 0%nat
           /\ NoteCard.cardAlerts failed
              = (NoteCard.cardAlerts c ++ ["Failed to read aloud."])%list).
Proof.
  intros c section text Ht Hreq loading.
  pose proof (CardFacts.readAloud_sounding section c Ht) as Hs.
  pose proof (CardFacts.readAloud_pauses section c text Ht Hreq) as Hp.
  pose proof (readAloud_alerts section c) as Ha.
  fold loading in Hs, Hp, Ha.
  assert (Hquiet : forall c', NoteCard.audioRef c' = NoteCard.audioRef loading ->
                              NoteCard.sounding c' = [] -> NoteCard.audible c' = 0%nat).
  { intros c' E E'. unfold NoteCard.audible, NoteCard.playbackAudible in *.
    now rewrite E, E', Hp. }
  split.
  - intros src ended. subst ended. split; [reflexivity|]. split; [reflexivity|].
    split; [|exact Ha]. apply Hquiet; [reflexivity|].
    cbn. rewrite Hs. cbn. now rewrite Nat.eqb_refl.
  - intros answer Hfail failed. subst failed.
    destruct answer as [src| |]; [now elim (Hfail src)| |];
      (split; [reflexivity|]; split; [reflexivity|]; split;
       [apply Hquiet; [reflexivity | exact Hs] | cbn; now rewrite Ha]).
Qed.

Lemma read_aloud_always_ends_idle_witness :
  let c := NoteCard.mount (spoken "a") in
  let loading := fst (NoteCard.handleReadAloud NoteCard.secSummary c) in
  NoteCard.audible
    (NoteCard.sourceEnded 1%nat (NoteCard.speechSettled (NoteCard.SpeechReady 1%nat) loading))
  = 0%nat
  /\ NoteCard.cardAlerts (NoteCard.speechSettled NoteCard.DecodeFailed loading)
     = ["Failed to read aloud."].
Proof.
  cbv zeta.
  assert (Ht : NoteCard.tracked (NoteCard.mount (spoken "a"))).
  { split; [intros s [] | discriminate]. }
  destruct (read_aloud_always_ends_idle (NoteCard.mount (spoken "a")) NoteCard.secSummary
              "shopping" Ht eq_refl) as [Hend Hfail].
  split.
  - apply (Hend 1%nat).
  - apply (Hfail NoteCard.DecodeFailed). discriminate.
Defined.

(** X26.  The play button.  While the recording plays, pressing it
    pauses the playback and leaves any read-aloud of the card alone.
    While it does not play, pressing it starts the playback, and a
    second press pauses it again.  The flag shown on the button is
    flipped whether or not the element could start: when [play()] is
    rejected the card says "playing" although its element is as silent
    as before.  Without an audio element the press does nothing. *)
Theorem the_play_button_toggles_playback :
  forall c,
    (forall el played,
        NoteCard.audioRef c = Some el -> NoteCard.isPlaying c = true ->
        let pausedCard := NoteCard.togglePlay played c in
        NoteCard.isPlaying pausedCard = false
        /\ NoteCard.playbackAudible pausedCard = false
        /\ NoteCard.sounding pausedCard = NoteCard.sounding c
        /\ NoteCard.ttsStatus pausedCard = NoteCard.ttsStatus c
        /\ NoteCard.ttsAudioRef pausedCard = NoteCard.ttsAudioRef c)
    /\ (forall el,
           NoteCard.audioRef c = Some el -> NoteCard.isPlaying c = false ->
           let playing := NoteCard.togglePlay true c in
           NoteCard.isPlaying playing = true
           /\ NoteCard.playbackAudible playing = true
           /\ (forall played,
                 NoteCard.isPlaying (NoteCard.togglePlay played playing) = false
                 /\ NoteCard.playbackAudible (NoteCard.togglePlay played playing) = false)
           /\ NoteCard.isPlaying (NoteCard.togglePlay false c) = true
           /\ NoteCard.playbackAudible (NoteCard.togglePlay false c)
              = NoteCard.playbackAudible c)
    /\ (forall played, NoteCard.audioRef c = None -> NoteCard.togglePlay played c = c).
Proof.
  intros c. split; [|split].
  - intros el played Ha Hi pausedCard. subst pausedCard. unfold NoteCard.togglePlay.
    rewrite Ha, Hi. cbn. repeat split.
  - intros el Ha Hi playing. subst playing.
    assert (H1 : NoteCard.togglePlay true c
                 = NoteCard.setIsPlaying true
                     (NoteCard.setAudioRef (Some (NoteCard.mkAudio false))
                        (NoteCard.stopTts c))).
    { unfold NoteCard.togglePlay. now rewrite Ha, Hi. }
    assert (H0 : NoteCard.togglePlay false c
                 = NoteCard.setIsPlaying true (NoteCard.stopTts c)).
    { unfold NoteCard.togglePlay. now rewrite Ha, Hi. }
    rewrite H1, H0. split; [reflexivity|]. split; [reflexivity|]. split; [|split].
    + intros played. unfold NoteCard.togglePlay. cbn. split; reflexivity.
    + reflexivity.
    + unfold NoteCard.playbackAudible. cbn -[NoteCard.stopTts].
      now rewrite CardFacts.stopTts_audioRef.
  - intros played Ha. unfold NoteCard.togglePlay. now rewrite Ha.
Qed.

Lemma the_play_button_toggles_playback_witness :
  let c := NoteCard.mount (spoken "a") in
  NoteCard.playbackAudible (NoteCard.togglePlay true c) = true
  /\ NoteCard.playbackAudible (NoteCard.togglePlay true (NoteCard.togglePlay true c))
     = false.
Proof.
  cbv zeta.
  destruct (the_play_button_toggles_playback (NoteCard.mount (spoken "a")))
    as (_ & Hplay & _).
  destruct (Hplay (NoteCard.mkAudio true) eq_refl eq_refl) as (_ & Hon & Hoff & _).
  split; [exact Hon | apply (Hoff true)].
Defined.

(** ** Decoding the synthesised speech *)

Lemma pair_ind {A} (P : list A -> Prop) :
  P [] -> (forall a, P [a]) -> (forall a b l, P l -> P (a :: b :: l)) ->
  forall l, P l.
Proof.
  intros H0 H1 H2 l.
  assert (H : P l /\ forall a, P (a :: l)).
  { induction l as [|x l [IH1 IH2]]; [split; auto|].
    split; [apply IH2|]. intros a. now apply H2. }
  apply H.
Qed.

Lemma byte_range b : 0 <= Z.of_N (Byte.to_N b) < 256.
Proof. pose proof (Byte.to_N_bounded b). lia. Qed.

Lemma int16_range lo hi : -32768 <= int16 lo hi < 32768.
Proof.
  unfold int16. pose proof (byte_range lo). pose proof (byte_range hi).
  destruct (Z.ltb_spec (Z.of_N (Byte.to_N lo) + 256 * Z.of_N (Byte.to_N hi)) 32768); lia.
Qed.

Lemma byteOfZ_to_N b : byteOfZ (Z.of_N (Byte.to_N b)) = b.
Proof.
  unfold byteOfZ. pose proof (byte_range b).
  rewrite Z.mod_small by lia. now rewrite N2Z.id, Byte.of_to_N.
Qed.

Lemma int16_low lo hi : byteOfZ (int16 lo hi) = lo.
Proof.
  rewrite <- (byteOfZ_to_N lo) at 2. unfold byteOfZ, int16.
  pose proof (byte_range lo). pose proof (byte_range hi).
  set (l := Z.of_N (Byte.to_N lo)) in *. set (h := Z.of_N (Byte.to_N hi)) in *.
  assert (E : (if l + 256 * h <? 32768 then l + 256 * h else l + 256 * h - 65536) mod 256
              = l mod 256).
  { destruct (l + 256 * h <? 32768).
    - replace (l + 256 * h) with (l + h * 256) by lia. apply Z_mod_plus_full.
    - replace (l + 256 * h - 65536) with (l + (h - 256) * 256) by lia.
      apply Z_mod_plus_full. }
  now rewrite E.
Qed.

Lemma int16_high lo hi : byteOfZ (int16 lo hi / 256) = hi.
Proof.
  rewrite <- (byteOfZ_to_N hi) at 2. unfold byteOfZ, int16.
  pose proof (byte_range lo). pose proof (byte_range hi).
  set (l := Z.of_N (Byte.to_N lo)) in *. set (h := Z.of_N (Byte.to_N hi)) in *.
  assert (E : ((if l + 256 * h <? 32768 then l + 256 * h else l + 256 * h - 65536) / 256)
                mod 256 = h mod 256).
  { destruct (l + 256 * h <? 32768).
    - replace (l + 256 * h) with (l + h * 256) by lia.
      rewrite Z.div_add by lia. rewrite (Z.div_small l) by lia. reflexivity.
    - replace (l + 256 * h - 65536) with (l + (h - 256) * 256) by lia.
      rewrite Z.div_add by lia. rewrite (Z.div_small l) by lia. cbn [Z.add].
      replace (h - 256) with (h + (-1) * 256) by lia. apply Z_mod_plus_full. }
  now rewrite E.
Qed.

Lemma int16Array_some data :
  forall l, int16Array data = Some l ->
            length data = (2 * length l)%nat
            /\ Forall (fun z => -32768 <= z < 32768) l
            /\ concat (map (fun z => [byteOfZ z; byteOfZ (z / 256)]) l) = data.
Proof.
  induction data as [|a|lo hi rest IH] using pair_ind; cbn; intros l H.
  - injection H as <-. repeat split. constructor.
  - discriminate.
  - destruct (int16Array rest) as [l'|]; [|discriminate]. injection H as <-.
    destruct (IH l' eq_refl) as (Hlen & Hall & Hback). cbn. split; [lia|].
    split; [constructor; [apply int16_range | assumption]|].
    now rewrite int16_low, int16_high, Hback.
Qed.

Lemma int16Array_none data : int16Array data = None <-> Nat.odd (length data) = true.
Proof.
  induction data as [|a|lo hi rest IH] using pair_ind; cbn.
  - split; discriminate.
  - split; reflexivity.
  - destruct (int16Array rest); cbn; [split; [discriminate|] | split; [intros _|reflexivity]].
    + intros H. apply IH in H. discriminate.
    + now apply IH.
Qed.

Lemma nth_seq_map {A} (l : list A) d :
  map (fun i => nth i l d) (seq 0 (length l)) = l.
Proof.
  induction l as [|x l IH]; [reflexivity|]. cbn. f_equal.
  rewrite <- seq_shift, map_map. exact IH.
Qed.

Lemma toUint32_range x : 0 <= toUint32 x < 4294967296.
Proof. unfold toUint32. apply Z.mod_pos_bound. lia. Qed.

Lemma toUint32_small x : 0 <= x < 4294967296 -> toUint32 x = x.
Proof. unfold toUint32. intros H. now apply Z.mod_small. Qed.

Lemma toUint32_le x : 0 <= x -> toUint32 x <= x.
Proof. unfold toUint32. intros H. apply Z.mod_le; lia. Qed.

Lemma bufferLength_le samples numChannels :
  0 <= bufferLength samples numChannels <= Z.of_nat (samples / numChannels).
Proof.
  unfold bufferLength. pose proof (toUint32_range (Z.of_nat samples / Z.of_nat numChannels)).
  split; [lia|]. rewrite Nat2Z.inj_div. apply toUint32_le.
  apply Z_div_nonneg_nonneg; lia.
Qed.

Lemma half_of_even (data : list Byte.byte) (l : list Z) :
  length data = (2 * length l)%nat -> (length data / 2 = length l)%nat.
Proof. intros ->. rewrite Nat.mul_comm. now apply Nat.div_mul. Qed.

(** When [decodeRawPcm] raises. *)
Lemma decodeRawPcm_none host data sampleRate numChannels :
  decodeRawPcm host data sampleRate numChannels = None
  <-> (Nat.odd (length data) = true
       \/ numChannels = 0%nat
       \/ maxChannels host < Z.of_nat numChannels
       \/ 4294967296 <= Z.of_nat numChannels
       \/ bufferLength (length data / 2) numChannels = 0
       \/ sampleRate <= 0
       \/ sampleRate < minSampleRate host
       \/ maxSampleRate host < sampleRate).
Proof.
  unfold decodeRawPcm. destruct (int16Array data) as [l|] eqn:E.
  2:{ split; [|reflexivity]. intros _. left. now apply int16Array_none. }
  destruct (int16Array_some data l E) as (Hlen & _ & _).
  assert (Heven : Nat.odd (length data) = false).
  { destruct (Nat.odd (length data)) eqn:Ho; [|reflexivity].
    apply int16Array_none in Ho. congruence. }
  rewrite (half_of_even data l Hlen), Heven.
  pose proof (toUint32_range (Z.of_nat numChannels)) as Hch.
  pose proof (bufferLength_le (length l) numChannels) as Hfr.
  assert (Hsmall : Z.of_nat numChannels < 4294967296 ->
                   toUint32 (Z.of_nat numChannels) = Z.of_nat numChannels).
  { intros H. apply toUint32_small. lia. }
  assert (Hle : toUint32 (Z.of_nat numChannels) <= Z.of_nat numChannels).
  { apply toUint32_le. lia. }
  unfold createBuffer.
  set (channels := toUint32 (Z.of_nat numChannels)) in *.
  set (frames := bufferLength (length l) numChannels) in *.
  destruct (Z.leb_spec 1 channels), (Z.leb_spec channels (maxChannels host)),
    (Z.leb_spec 1 frames), (Z.ltb_spec 0 sampleRate),
    (Z.leb_spec (minSampleRate host) sampleRate),
    (Z.leb_spec sampleRate (maxSampleRate host)), (Z.ltb_spec channels (Z.of_nat numChannels));
    cbn [andb negb];
    (split; [intros Hn; try discriminate Hn | intros Hn; try reflexivity]);
    try (destruct (Z.lt_ge_cases (Z.of_nat numChannels) 4294967296) as [Hb|Hb];
         [specialize (Hsmall Hb) |]; lia).
Qed.

(** What [decodeRawPcm] returns. *)
Lemma decodeRawPcm_some host data sampleRate numChannels buffer :
  decodeRawPcm host data sampleRate numChannels = Some buffer ->
  ab_sampleRate buffer = sampleRate
  /\ length (ab_channels buffer) = numChannels
  /\ (forall channel,
        In channel (ab_channels buffer) ->
        Z.of_nat (length channel) = bufferLength (length data / 2) numChannels
        /\ (0 < length channel <= length data / 2 / numChannels)%nat
        /\ forall s, In s channel -> (-1 <= s)%Q /\ (s < 1)%Q)
  /\ (numChannels = 1%nat -> Z.of_nat (length data) < 8589934592 ->
      exists samples,
        ab_channels buffer = [samples] /\ concat (map pcmBytes samples) = data).
Proof.
  unfold decodeRawPcm. destruct (int16Array data) as [l|] eqn:E; [|discriminate].
  destruct (int16Array_some data l E) as (Hlen & Hall & Hback).
  rewrite (half_of_even data l Hlen).
  pose proof (bufferLength_le (length l) numChannels) as Hfr.
  unfold createBuffer.
  set (frames := bufferLength (length l) numChannels) in *.
  destruct (1 <=? toUint32 (Z.of_nat numChannels)); cbn [andb negb]; [|discriminate].
  destruct (_ <=? maxChannels host); cbn [andb negb]; [|discriminate].
  destruct (Z.leb_spec 1 frames) as [Hone|]; cbn [andb negb]; [|discriminate].
  destruct (0 <? sampleRate); cbn [andb negb]; [|discriminate].
  destruct (minSampleRate host <=? sampleRate); cbn [andb negb]; [|discriminate].
  destruct (sampleRate <=? maxSampleRate host); cbn [andb negb]; [|discriminate].
  destruct (_ <? Z.of_nat numChannels); [discriminate|].
  intros [= <-]. cbn [ab_sampleRate ab_channels]. split; [reflexivity|].
  split; [now rewrite length_map, length_seq|]. split.
  - intros channel Hch. apply in_map_iff in Hch as (ch & <- & Hin).
    apply in_seq in Hin. rewrite length_map, length_seq.
    split; [lia|]. split; [lia|].
    intros s Hs. apply in_map_iff in Hs as (i & <- & Hi). apply in_seq in Hi.
    assert (Hidx : (i * numChannels + ch < length l)%nat).
    { pose proof (Nat.Div0.mul_div_le (length l) numChannels). nia. }
    pose proof (proj1 (List.Forall_forall _ _) Hall _ (nth_In l 0 Hidx)) as Hr.
    cbv beta in Hr. unfold Qle, Qlt. cbn [Qnum Qden]. lia.
  - intros -> Hsize. eexists. split; [reflexivity|].
    assert (Hframes : Z.to_nat frames = length l).
    { subst frames. unfold bufferLength. rewrite Z.div_1_r, toUint32_small by lia. lia. }
    rewrite Hframes.
    rewrite (map_ext (fun i => Qmake (nth (i * 1 + 0) l 0) 32768)
                     (fun i => Qmake (nth i l 0) 32768))
      by (intros i; now rewrite Nat.mul_1_r, Nat.add_0_r).
    rewrite <- (map_map (fun i => nth i l 0) (fun z => Qmake z 32768)), nth_seq_map.
    rewrite map_map. exact Hback.
Qed.

Lemma bufferLength_exact (data : list Byte.byte) numChannels :
  numChannels <> 0%nat -> Z.of_nat (length data) < 8589934592 ->
  bufferLength (length data / 2) numChannels = Z.of_nat (length data / 2 / numChannels).
Proof.
  intros Hnc Hsize. unfold bufferLength. rewrite <- Nat2Z.inj_div.
  apply toUint32_small. split; [lia|].
  assert (length data / 2 / numChannels <= length data / 2)%nat
    by (apply Nat.Div0.div_le_upper_bound; nia).
  assert (Z.of_nat (length data / 2) < 4294967296).
  { rewrite Nat2Z.inj_div. apply Z.div_lt_upper_bound; lia. }
  lia.
Qed.

(** X27.  [decodeRawPcm] raises on an odd number of bytes, on a channel
    count that is zero, above what the host supports or not a 32-bit
    number, on a sample rate that is not positive or outside the host's
    range, and on too little data for one frame, and on nothing else.
    What it returns has the rate and the number of channels asked for;
    every channel holds the same number of frames, the length the
    buffer was made with, at least one and at most the number of 16-bit
    samples divided by the channels (exactly that for less than 8 GiB of
    data), and every sample lies in [-1, 1).  For one channel nothing is
    lost: the bytes can be read back from the samples.  As
    [handleReadAloud] calls it, at 24000 Hz with one channel on a host
    with the support every host has, it raises exactly on an odd number
    of bytes and on no data. *)
Theorem decoded_speech_is_in_range_and_lossless :
  forall host data sampleRate numChannels,
    (decodeRawPcm host data sampleRate numChannels = None
     <-> (Nat.odd (length data) = true
          \/ numChannels = 0%nat
          \/ maxChannels host < Z.of_nat numChannels
          \/ 4294967296 <= Z.of_nat numChannels
          \/ bufferLength (length data / 2) numChannels = 0
          \/ sampleRate <= 0
          \/ sampleRate < minSampleRate host
          \/ maxSampleRate host < sampleRate))
    /\ (forall buffer,
           decodeRawPcm host data sampleRate numChannels = Some buffer ->
           ab_sampleRate buffer = sampleRate
           /\ length (ab_channels buffer) = numChannels
           /\ (forall channel,
                 In channel (ab_channels buffer) ->
                 Z.of_nat (length channel) = bufferLength (length data / 2) numChannels
                 /\ (0 < length channel <= length data / 2 / numChannels)%nat
                 /\ forall s, In s channel -> (-1 <= s)%Q /\ (s < 1)%Q)
           /\ (numChannels = 1%nat -> Z.of_nat (length data) < 8589934592 ->
               exists samples,
                 ab_channels buffer = [samples]
                 /\ concat (map pcmBytes samples) = data))
    /\ (numChannels <> 0%nat -> Z.of_nat (length data) < 8589934592 ->
        bufferLength (length data / 2) numChannels
        = Z.of_nat (length data / 2 / numChannels))
    /\ (conforming host -> Z.of_nat (length data) < 8589934592 ->
        (decodeRawPcm host data 24000 1 = None
         <-> Nat.odd (length data) = true \/ data = [])).
Proof.
  intros host data sampleRate numChannels.
  split; [apply decodeRawPcm_none|]. split; [apply decodeRawPcm_some|].
  split; [apply bufferLength_exact|].
  intros (Hc & Hmin & Hmax) Hsize. rewrite decodeRawPcm_none.
  rewrite (bufferLength_exact data 1) by (try discriminate; assumption).
  rewrite Nat.div_1_r. split.
  - intros [H|[H|[H|[H|[H|[H|[H|H]]]]]]]; try (now left); try lia; try discriminate.
    destruct data as [|a [|b rest]]; [now right | now left |].
    cbn [length] in H.
    assert (1 <= S (S (length rest)) / 2)%nat by (apply Nat.div_le_lower_bound; lia).
    lia.
  - intros [H| ->]; [now left|]. right. right. right. right. left. reflexivity.
Qed.

Lemma decoded_speech_is_in_range_and_lossless_witness :
  let data := [Byte.x00; Byte.x80; Byte.xff; Byte.x7f] in
  (exists samples,
      option_map ab_channels (decodeRawPcm plainHost data 24000 1) = Some [samples]
      /\ concat (map pcmBytes samples) = data)
  /\ decodeRawPcm plainHost data 0 1 = None
  /\ decodeRawPcm plainHost data 24000 33 = None
  /\ decodeRawPcm plainHost [Byte.x00] 24000 1 = None.
Proof.
  cbv zeta.
  destruct (decoded_speech_is_in_range_and_lossless plainHost
              [Byte.x00; Byte.x80; Byte.xff; Byte.x7f] 24000 1%nat) as (_ & Hok & _ & _).
  destruct (Hok (mkAudioBuffer 24000 [[Qmake (-32768) 32768; Qmake 32767 32768]]) eq_refl)
    as (_ & _ & _ & Hone).
  assert (Hsize : Z.of_nat (length [Byte.x00; Byte.x80; Byte.xff; Byte.x7f]) < 8589934592)
    by (cbn; lia).
  destruct (Hone eq_refl Hsize) as (samples & Hch & Hback).
  split; [|split; [reflexivity | split; reflexivity]].
  exists samples. split; [|exact Hback].
  cbn in Hch. injection Hch as <-. reflexivity.
Defined.

(** ** Exporting a recording *)

Lemma splitOn_pieces (q : ascii -> bool) sep s :
  Js.allChars q s = true ->
  Forall (fun piece => Js.allChars q piece = true) (splitOn sep s).
Proof.
  induction s as [|c s IH]; cbn; intros H.
  - constructor; [reflexivity | constructor].
  - apply andb_prop in H as [Hc Hs]. specialize (IH Hs).
    destruct (Ascii.eqb c sep).
    + constructor; [reflexivity | assumption].
    + destruct (splitOn sep s) as [|piece pieces]; [constructor; [cbn; now rewrite Hc | constructor]|].
      inversion IH as [|? ? Hp Hps]; subst.
      constructor; [cbn; now rewrite Hc, Hp | assumption].
Qed.

Lemma splitOn_free sep s :
  Forall (fun piece => freeOf sep piece = true) (splitOn sep s).
Proof.
  unfold freeOf. induction s as [|c s IH]; cbn.
  - constructor; [reflexivity | constructor].
  - destruct (Ascii.eqb c sep) eqn:E.
    + constructor; [reflexivity | assumption].
    + destruct (splitOn sep s) as [|piece pieces];
        [constructor; [cbn; now rewrite E | constructor]|].
      inversion IH as [|? ? Hp Hps]; subst.
      constructor; [cbn; now rewrite E, Hp | assumption].
Qed.

Lemma exportExtension_cases type :
  exportExtension type = "webm"
  \/ exists subtype,
       nth_error (splitOn "/" type) 1 = Some subtype
       /\ head (splitOn ";" subtype) = Some (exportExtension type)
       /\ exportExtension type <> "".
Proof.
  unfold exportExtension.
  destruct (nth_error (splitOn "/" type) 1) as [subtype|] eqn:E; cbn; [|now left].
  destruct (head (splitOn ";" subtype)) as [p|] eqn:Eh; cbn; [|now left].
  destruct (Js.truthyS p) eqn:Et; [|now left].
  right. exists subtype. split; [reflexivity|]. split; [assumption|].
  intros ->. discriminate.
Qed.

Lemma head_In {A} (l : list A) x : head l = Some x -> In x l.
Proof. destruct l; [discriminate|]. intros [= ->]. now left. Qed.

(** X28.  The file a recording is exported to always has a usable name:
    a base that is not empty (the title, or "recording" for an untitled
    note), a dot, and an extension that is not empty and holds neither
    "/" nor ";".  The extension is the part of the blob type between
    the first "/" and the next "/" or ";", and "webm" when that part is
    missing or empty; for whatever type the recorder was started with it
    is one of webm, mp4, aac and ogg. *)
Theorem an_export_has_a_usable_file_name :
  forall title type,
    (exists base,
        exportFileName title type = base ++ "." ++ exportExtension type
        /\ base <> ""
        /\ (title <> "" -> base = title)
        /\ (title = "" -> base = "recording"))
    /\ exportExtension type <> ""
    /\ freeOf "/" (exportExtension type) = true
    /\ freeOf ";" (exportExtension type) = true
    /\ (forall isTypeSupported,
           getSupportedMimeType isTypeSupported <> "" ->
           In (exportExtension (getSupportedMimeType isTypeSupported))
              ["webm"; "mp4"; "aac"; "ogg"]).
Proof.
  intros title type. split; [|split; [|split; [|split]]].
  - unfold exportFileName, Js.truthyS.
    destruct (String.eqb_spec title "") as [->|Hne]; cbn [negb].
    + exists "recording". repeat split; [discriminate | congruence].
    + exists title. repeat split; [assumption | congruence].
  - destruct (exportExtension_cases type) as [->|(_ & _ & _ & H)]; [discriminate | exact H].
  - destruct (exportExtension_cases type) as [->|(subtype & Hsub & Hhead & _)];
      [reflexivity|].
    pose proof (splitOn_free "/" type) as Hfree.
    rewrite List.Forall_forall in Hfree.
    specialize (Hfree subtype (nth_error_In _ _ Hsub)).
    pose proof (splitOn_pieces (fun c => negb (Ascii.eqb c "/")) ";" subtype Hfree) as Hp.
    rewrite List.Forall_forall in Hp. apply Hp. now apply head_In.
  - destruct (exportExtension_cases type) as [->|(subtype & _ & Hhead & _)];
      [reflexivity|].
    pose proof (splitOn_free ";" subtype) as Hfree.
    rewrite List.Forall_forall in Hfree. apply Hfree. now apply head_In.
  - intros f Hne. unfold getSupportedMimeType in *.
    destruct (firstSupported_spec f mimeTypes) as [[H0 _]|(before & after & Hl & _)];
      [congruence|].
    assert (Hin : In (firstSupported f mimeTypes) mimeTypes).
    { rewrite Hl at 2. apply in_or_app. right. now left. }
    generalize dependent (firstSupported f mimeTypes). intros t _ _ Hin.
    unfold mimeTypes in Hin. cbn [In] in Hin.
    destruct Hin as [<-|[<-|[<-|[<-|[<-|[]]]]]]; cbn; auto 6.
Qed.

Lemma an_export_has_a_usable_file_name_witness :
  exportFileName "" "audio/ogg;codecs=opus" = "recording.ogg"
  /\ In (exportExtension (getSupportedMimeType (fun t => Some (String.eqb t "audio/aac"))))
        ["webm"; "mp4"; "aac"; "ogg"].
Proof.
  split; [reflexivity|].
  apply (an_export_has_a_usable_file_name "" "").
  discriminate.
Defined.

(** ** The visualizer *)

Module VisualizerFacts.
Import AudioVisualizer.

Lemma notClosed_after_close v ctx :
  notClosed (mkVisualizer (animationRef v) (audioCtxRef v) (<[ctx := closed]> (contexts v))
               (cancelled v) (closeCalls v)) ctx = false.
Proof. unfold notClosed. cbn. now rewrite lookup_insert_eq. Qed.

Lemma safeCloseContext_refs closes v :
  animationRef (safeCloseContext closes v) = None
  /\ audioCtxRef (safeCloseContext closes v) = None.
Proof.
  unfold safeCloseContext.
  destruct (animationRef v) as [frame|] eqn:Ea; cbn;
    destruct (audioCtxRef v) as [ctx|] eqn:Ec; cbn; rewrite ?Ea, ?Ec;
    try (destruct (notClosed _ ctx)); cbn; rewrite ?Ea, ?Ec; split; reflexivity.
Qed.

Lemma safeCloseContext_idle v closes :
  animationRef v = None -> audioCtxRef v = None -> safeCloseContext closes v = v.
Proof. intros Ha Hc. unfold safeCloseContext. now rewrite Ha, Hc. Qed.

End VisualizerFacts.

(** X29.  [safeCloseContext] may be called at any time and any number
    of times.  After it no frame is pending and no context is
    referenced; the frame that was pending has been cancelled;
    [close()] is called at most once, only on the context that was
    referenced and only if it was not closed already, and when that call
    succeeds the context is closed; no other context is touched.  A
    second call changes nothing, and a [draw] that runs afterwards
    schedules no frame. *)
Theorem safe_close_releases_once :
  forall v closes,
    let after := AudioVisualizer.safeCloseContext closes v in
    AudioVisualizer.animationRef after = None
    /\ AudioVisualizer.audioCtxRef after = None
    /\ (forall frame, AudioVisualizer.animationRef v = Some frame ->
                      In frame (AudioVisualizer.cancelled after))
    /\ (AudioVisualizer.closeCalls after = AudioVisualizer.closeCalls v
        \/ exists ctx,
             AudioVisualizer.audioCtxRef v = Some ctx
             /\ AudioVisualizer.notClosed v ctx = true
             /\ AudioVisualizer.closeCalls after
                = (AudioVisualizer.closeCalls v ++ [ctx])%list)
    /\ (forall ctx, AudioVisualizer.audioCtxRef v = Some ctx -> closes = true ->
                    AudioVisualizer.contexts after !! ctx = Some AudioVisualizer.closed)
    /\ (forall ctx, AudioVisualizer.audioCtxRef v <> Some ctx ->
                    AudioVisualizer.contexts after !! ctx
                    = AudioVisualizer.contexts v !! ctx)
    /\ (forall closes', AudioVisualizer.safeCloseContext closes' after = after)
    /\ (forall isAborted frame, AudioVisualizer.draw isAborted frame after = after).
Proof.
  intros v closes after.
  destruct (VisualizerFacts.safeCloseContext_refs closes v) as [Ha Hc]. fold after in Ha, Hc.
  split; [exact Ha|]. split; [exact Hc|].
  split; [|split; [|split; [|split; [|split]]]].
  - intros frame Hf. subst after. unfold AudioVisualizer.safeCloseContext. rewrite Hf. cbn.
    destruct (AudioVisualizer.audioCtxRef v) as [ctx|]; cbn;
      [destruct (AudioVisualizer.notClosed _ ctx); cbn|];
      (apply in_or_app; right; now left).
  - subst after. unfold AudioVisualizer.safeCloseContext.
    destruct (AudioVisualizer.animationRef v) as [frame|];
      destruct (AudioVisualizer.audioCtxRef v) as [ctx|] eqn:Ec; cbn; rewrite ?Ec;
      try (now left);
      (unfold AudioVisualizer.notClosed; cbn;
       destruct (AudioVisualizer.contexts v !! ctx) as [[]|] eqn:El; cbn;
       try (now left); right; exists ctx; unfold AudioVisualizer.notClosed;
       rewrite El; repeat split).
  - intros ctx Hctx ->. subst after. unfold AudioVisualizer.safeCloseContext.
    destruct (AudioVisualizer.animationRef v) as [frame|]; cbn; rewrite Hctx;
      unfold AudioVisualizer.notClosed; cbn;
      (destruct (AudioVisualizer.contexts v !! ctx) as [[]|] eqn:El; cbn;
       [apply lookup_insert_eq | apply lookup_insert_eq | exact El | apply lookup_insert_eq]).
  - intros ctx Hctx. subst after. unfold AudioVisualizer.safeCloseContext.
    destruct (AudioVisualizer.animationRef v) as [frame|];
      destruct (AudioVisualizer.audioCtxRef v) as [ctx'|] eqn:Ec; cbn; rewrite ?Ec;
      try reflexivity;
      (destruct (AudioVisualizer.notClosed _ ctx'); cbn; [|reflexivity];
       destruct closes; [|reflexivity];
       apply lookup_insert_ne; congruence).
  - intros closes'. now apply VisualizerFacts.safeCloseContext_idle.
  - intros isAborted frame. unfold AudioVisualizer.draw. rewrite Hc.
    now rewrite orb_true_r.
Qed.

Lemma safe_close_releases_once_witness :
  let v := AudioVisualizer.mkVisualizer (Some 4%nat) (Some 1%nat)
             {[1%nat := AudioVisualizer.running]} [] [] in
  AudioVisualizer.closeCalls
    (AudioVisualizer.safeCloseContext true (AudioVisualizer.safeCloseContext true v))
  = [1%nat]
  /\ AudioVisualizer.contexts (AudioVisualizer.safeCloseContext true v) !! 1%nat
     = Some AudioVisualizer.closed.
Proof.
  cbv zeta.
  pose (v := AudioVisualizer.mkVisualizer (Some 4%nat) (Some 1%nat)
               {[1%nat := AudioVisualizer.running]} [] []).
  destruct (safe_close_releases_once v true) as (_ & _ & _ & _ & Hclosed & _ & Hagain & _).
  split.
  - fold v. rewrite (Hagain true). reflexivity.
  - apply (Hclosed 1%nat); reflexivity.
Defined.

(** X30.  How [initAudio] can end.  A run found aborted right after it
    made its context closes that context at once (when [close()]
    succeeds) and neither stores it nor schedules a frame.  A run that
    is not aborted and whose context is not suspended stores the context
    and, with a canvas to draw on, schedules its first frame.  A run
    whose context comes up suspended stores nothing before [resume()]
    has resolved; if it was aborted in the meantime it still stores the
    context, which runs and is not closed, but schedules no frame, and
    the next [safeCloseContext] closes that context. *)
Theorem the_render_loop_starts_only_unaborted :
  forall v ctx closes canvas frame,
    (forall initial,
        let '(after, waiting) :=
          AudioVisualizer.initAudioBegin ctx initial true closes canvas frame v in
        waiting = false
        /\ AudioVisualizer.audioCtxRef after = AudioVisualizer.audioCtxRef v
        /\ AudioVisualizer.animationRef after = AudioVisualizer.animationRef v
        /\ (closes = true ->
            AudioVisualizer.contexts after !! ctx = Some AudioVisualizer.closed))
    /\ (let '(after, waiting) :=
          AudioVisualizer.initAudioBegin ctx AudioVisualizer.running false closes canvas
            frame v in
        waiting = false
        /\ AudioVisualizer.audioCtxRef after = Some ctx
        /\ AudioVisualizer.contexts after !! ctx = Some AudioVisualizer.running
        /\ (canvas = true -> AudioVisualizer.animationRef after = Some frame)
        /\ (canvas = false ->
            AudioVisualizer.animationRef after = AudioVisualizer.animationRef v))
    /\ (let '(pending, waiting) :=
          AudioVisualizer.initAudioBegin ctx AudioVisualizer.suspended false closes canvas
            frame v in
        waiting = true
        /\ AudioVisualizer.audioCtxRef pending = AudioVisualizer.audioCtxRef v
        /\ AudioVisualizer.animationRef pending = AudioVisualizer.animationRef v
        /\ (forall later,
              let late := AudioVisualizer.resumed ctx true canvas frame later in
              AudioVisualizer.audioCtxRef late = Some ctx
              /\ AudioVisualizer.animationRef late = AudioVisualizer.animationRef later
              /\ AudioVisualizer.contexts late !! ctx = Some AudioVisualizer.running
              /\ AudioVisualizer.closeCalls late = AudioVisualizer.closeCalls later
              /\ AudioVisualizer.contexts (AudioVisualizer.safeCloseContext true late) !! ctx
                 = Some AudioVisualizer.closed)
        /\ (canvas = true ->
            AudioVisualizer.animationRef
              (AudioVisualizer.resumed ctx false canvas frame pending) = Some frame)).
Proof.
  intros v ctx closes canvas frame. split; [|split].
  - intros initial. unfold AudioVisualizer.initAudioBegin.
    set (made := AudioVisualizer.mkVisualizer _ _ (<[ctx := initial]> _) _ _).
    destruct (AudioVisualizer.notClosed made ctx) eqn:En.
    + split; [reflexivity|]. split; [reflexivity|]. split; [reflexivity|].
      intros ->. cbn. apply lookup_insert_eq.
    + split; [reflexivity|]. split; [reflexivity|]. split; [reflexivity|].
      intros _. unfold AudioVisualizer.notClosed in En.
      destruct (AudioVisualizer.contexts made !! ctx) as [[]|]; congruence.
  - cbn. split; [reflexivity|]. unfold AudioVisualizer.initAudioRest, AudioVisualizer.draw.
    destruct canvas; cbn; repeat split; try discriminate; apply lookup_insert_eq.
  - cbn. split; [reflexivity|]. split; [reflexivity|]. split; [reflexivity|]. split.
    + intros later.
      unfold AudioVisualizer.resumed, AudioVisualizer.initAudioRest, AudioVisualizer.draw.
      destruct canvas; cbn.
      * split; [reflexivity|]. split; [reflexivity|].
        split; [apply lookup_insert_eq|]. split; [reflexivity|].
        unfold AudioVisualizer.safeCloseContext. cbn.
        destruct (AudioVisualizer.animationRef later); cbn;
          unfold AudioVisualizer.notClosed; cbn; rewrite lookup_insert_eq; cbn;
          apply lookup_insert_eq.
      * split; [reflexivity|]. split; [reflexivity|].
        split; [apply lookup_insert_eq|]. split; [reflexivity|].
        unfold AudioVisualizer.safeCloseContext. cbn.
        destruct (AudioVisualizer.animationRef later); cbn;
          unfold AudioVisualizer.notClosed; cbn; rewrite lookup_insert_eq; cbn;
          apply lookup_insert_eq.
    + intros ->. reflexivity.
Qed.

(** A recording is stopped while the context of its visualizer waits for
    [resume()]: the context ends up stored, running and unclosed, with
    no frame scheduled. *)
Lemma the_render_loop_starts_only_unaborted_witness :
  let pending :=
    fst (AudioVisualizer.initAudioBegin 1%nat AudioVisualizer.suspended false true true
           7%nat AudioVisualizer.mounted) in
  let tornDown := AudioVisualizer.safeCloseContext true pending in
  let late := AudioVisualizer.resumed 1%nat true true 7%nat tornDown in
  AudioVisualizer.closeCalls tornDown = []
  /\ AudioVisualizer.audioCtxRef late = Some 1%nat
  /\ AudioVisualizer.animationRef late = None
  /\ AudioVisualizer.contexts late !! 1%nat = Some AudioVisualizer.running.
Proof.
  cbv zeta.
  pose (pending := fst (AudioVisualizer.initAudioBegin 1%nat AudioVisualizer.suspended
                          false true true 7%nat AudioVisualizer.mounted)).
  pose (tornDown := AudioVisualizer.safeCloseContext true pending).
  pose proof (the_render_loop_starts_only_unaborted AudioVisualizer.mounted 1%nat true
                true 7%nat) as (_ & _ & H).
  cbn in H. destruct H as (_ & _ & _ & Hlate & Hloop).
  assert (Hframe : AudioVisualizer.animationRef
                     (AudioVisualizer.resumed 1%nat false true 7%nat pending) = Some 7%nat)
    by (apply Hloop; reflexivity).
  destruct (Hlate tornDown) as (Hctx & Hanim & Hrun & _).
  split; [reflexivity|]. split; [exact Hctx|]. split; [exact Hanim | exact Hrun].
Defined.
